(** * AI-Agent-Studio: the team orchestration engine

    A shallow embedding of [backend/app/services/team_manager.py]: the
    execution-unit hierarchy ([AgentUnit], [ManagerUnit]), the graph
    resolver run by [TeamManager.build] and the event stream produced by
    [TeamManager.run_stream], followed by the properties the specification
    states about them. *)

From Stdlib Require Import String Ascii List Bool Arith Lia Relations.
From Stdlib Require Import DecimalString Permutation.
Import ListNotations.
Open Scope string_scope.
Open Scope list_scope.

Set Implicit Arguments.
Set Warnings "-register-all".

(** ** Python dictionaries

    A [dict] keeps its keys in insertion order and assigning to an existing
    key keeps the key where it is; [TeamManager._build_tools] iterates
    [self.nodes.items()], so the order is part of the model. *)

Definition dict (V : Type) := list (string * V).

Fixpoint dict_get {V : Type} (k : string) (d : dict V) : option V :=
  match d with
  | [] => None
  | (k', v) :: r => if String.eqb k k' then Some v else dict_get k r
  end.

Fixpoint dict_set {V : Type} (k : string) (v : V) (d : dict V) : dict V :=
  match d with
  | [] => [(k, v)]
  | (k', v') :: r =>
      if String.eqb k k' then (k, v) :: r else (k', v') :: dict_set k v r
  end.

Definition dict_mem {V : Type} (k : string) (d : dict V) : bool :=
  match dict_get k d with Some _ => true | None => false end.

Definition dict_keys {V : Type} (d : dict V) : list string := map fst d.

Definition dict_setdefault {V : Type} (k : string) (v : V) (d : dict V) : dict V :=
  match dict_get k d with Some _ => d | None => dict_set k v d end.

(** [x in xs] on a list of strings. *)
Definition str_in (x : string) (xs : list string) : bool :=
  existsb (String.eqb x) xs.

(** Truthiness of a string, and [a or b] on values that may be absent. *)
Definition truthy (s : string) : bool := negb (String.eqb s "").

Definition truthy_opt (o : option string) : option string :=
  match o with
  | Some s => if truthy s then Some s else None
  | None => None
  end.

(** [sep.join(xs)] *)
Fixpoint join (sep : string) (xs : list string) : string :=
  match xs with
  | [] => ""
  | [x] => x
  | x :: r => x ++ sep ++ join sep r
  end.

(** [str(n)] for a length. *)
Definition str_of_nat (n : nat) : string :=
  NilEmpty.string_of_uint (Nat.to_uint n).

(** [s.lower()] on the ASCII letters. *)
Definition lower_ascii (c : ascii) : ascii :=
  let n := nat_of_ascii c in
  if andb (Nat.leb 65 n) (Nat.leb n 90) then ascii_of_nat (n + 32) else c.

Fixpoint lower (s : string) : string :=
  match s with
  | EmptyString => EmptyString
  | String c r => String (lower_ascii c) (lower r)
  end.

(** ** The project graph *)

(** The [data] mapping of a node.  [d_label] and [d_name] are only read
    through [or], where an absent key and [None] behave alike.  [d_strategy]
    is read with [data.get("strategy", "sequential")]: [None] is an absent
    key, [Some None] a key that is present with the value [None]. *)
Record NodeData := {
  d_label : option string;
  d_name : option string;
  d_strategy : option (option string)
}.

Record Node := {
  n_id : string;
  n_kind : string;
  n_name : option string;
  n_data : NodeData
}.

(** [edge.get("source")] and [edge.get("target")]. *)
Record Edge := {
  e_source : option string;
  e_target : option string
}.

Record Settings := {
  teamDirectorLabel : option string;
  teamDirectorStrategy : option string;
  teamStrategy : option string
}.

(** The project dictionary handed to [TeamManager]: the nodes and the
    edges of its graph and the dictionary under "settings".  A project
    whose "settings" key holds [None] makes [__init__] raise; that case is
    [new_TeamManager]'s. *)
Record Project := {
  p_nodes : list Node;
  p_edges : list Edge;
  p_settings : Settings
}.

(** ** JSON-like values and events

    An event is a dictionary; [data] and [context] are dictionaries stored
    under those keys. *)
Inductive pv :=
| PNone
| PStr (s : string)
| PList (l : list pv)
| PDict (d : list (string * pv)).

Definition Event := dict pv.

(** ** Exceptions, results and streams *)

Inductive exn :=
| ValueError (msg : string)
| AttributeError (msg : string)
| RuntimeError (msg : string).

(** [str(e)] *)
Definition exn_str (e : exn) : string :=
  match e with
  | ValueError m => m
  | AttributeError m => m
  | RuntimeError m => m
  end.

(** The result of a call that may raise.  [OutOfFuel] is the model's own:
    the recursion bound was reached ([build_total] shows it never is). *)
Inductive result (A : Type) :=
| Ok (a : A)
| Raise (e : exn)
| OutOfFuel.
Arguments Ok {A} a.
Arguments Raise {A} e.
Arguments OutOfFuel {A}.

(** How the iteration of an asynchronous generator ends: it is exhausted,
    or an exception leaves it after the items yielded so far. *)
Inductive outcome :=
| Done
| Raised (e : exn)
| Unfinished.   (* the model ran out of fuel; never the case, see [build_total] *)

(** The items a generator yields, in order, and how it ends. *)
Definition Stream (A : Type) := (list A * outcome)%type.

(** ** Collaborators: the agent capability and the factories *)

Record ToolCall := {
  tc_name : option string;      (* getattr(tool_call, "name", "unknown") *)
  tc_arguments : option pv      (* getattr(tool_call, "arguments", {}) *)
}.

(** One update of the agent's stream: [u_delta] and [u_tool_calls] are [None]
    when the attribute does not exist; [u_str] is [str(update)]. *)
Record Update := {
  u_delta : option string;
  u_tool_calls : option (list ToolCall);
  u_str : string
}.

(** [agent.run_stream(message)]: the updates the capability yields and,
    when its stream raises after them, the exception. *)
Definition Agent := string -> list Update * option exn.

(** A tool capability is opaque to the orchestrator, which only stores it
    and hands it to the agent factory. *)
Definition Tool := string.

(** [ToolFactory.build_tool]: a tool, a falsy result, or an exception. *)
Inductive ToolResult :=
| ToolBuilt (t : Tool)
| ToolFalsy
| ToolRaised.

(** Calls received by the factories, in order (instrumentation). *)
Inductive FactoryCall :=
| CallBuildTool (node : Node)
| CallCreateAgent (node : Node) (tools : list Tool).

(** ** Execution units *)

Inductive ExecutionUnit :=
| AgentU (node : Node) (id label : string) (agent : Agent)
| ManagerU (node : Node) (id label kind strategy : string)
           (children : list ExecutionUnit).

Definition unit_id (u : ExecutionUnit) : string :=
  match u with AgentU _ i _ _ => i | ManagerU _ i _ _ _ _ => i end.

Definition unit_label (u : ExecutionUnit) : string :=
  match u with AgentU _ _ l _ => l | ManagerU _ _ l _ _ _ => l end.

Definition unit_kind (u : ExecutionUnit) : string :=
  match u with AgentU _ _ _ _ => "agent" | ManagerU _ _ _ k _ _ => k end.

(** [ExecutionUnit.__init__]: the label of a unit. *)
Definition node_label (node : Node) : string :=
  match truthy_opt (d_label (n_data node)) with
  | Some s => s
  | None =>
      match truthy_opt (d_name (n_data node)) with
      | Some s => s
      | None =>
          match truthy_opt (n_name node) with
          | Some s => s
          | None => n_id node
          end
      end
  end.

(** [AgentUnit.__init__] *)
Definition AgentUnit (node : Node) (agent : Agent) : ExecutionUnit :=
  AgentU node (n_id node) (node_label node) agent.

(** [ManagerUnit.__init__]: [data.get("strategy", "sequential").lower()]
    raises when the key holds [None]. *)
Definition ManagerUnit (node : Node) (children : list ExecutionUnit)
    (kind : string) : result ExecutionUnit :=
  match d_strategy (n_data node) with
  | None =>
      Ok (ManagerU node (n_id node) (node_label node) kind
            (lower "sequential") children)
  | Some (Some s) =>
      Ok (ManagerU node (n_id node) (node_label node) kind (lower s) children)
  | Some None =>
      Raise (AttributeError "'NoneType' object has no attribute 'lower'")
  end.

(** ** The orchestrator state *)

Record TeamManager := {
  settings : Settings;
  nodes : dict Node;
  edges : list Edge;
  agent_node_ids : list string;
  manager_node_ids : list string;
  agent_nodes : dict Node;
  manager_nodes : dict Node;
  director_node : option Node;
  agent_factory : Node -> list Tool -> option Agent;  (* None: it raised *)
  tool_factory : Node -> ToolResult;
  agents : dict Agent;
  tools : dict Tool;
  agent_units : dict ExecutionUnit;
  manager_units : dict ExecutionUnit;
  execution_units : dict ExecutionUnit;
  director_unit : option ExecutionUnit;
  root_manager_ids : list string;
  _incoming_index : dict (list string);
  _built : bool;
  calls : list FactoryCall
}.

(** Field assignments [self.f = v]. *)
Definition set_nodes (v : dict Node) (tm : TeamManager) : TeamManager :=
  {| settings := settings tm; nodes := v; edges := edges tm;
     agent_node_ids := agent_node_ids tm;
     manager_node_ids := manager_node_ids tm;
     agent_nodes := agent_nodes tm; manager_nodes := manager_nodes tm;
     director_node := director_node tm;
     agent_factory := agent_factory tm; tool_factory := tool_factory tm;
     agents := agents tm; tools := tools tm;
     agent_units := agent_units tm; manager_units := manager_units tm;
     execution_units := execution_units tm;
     director_unit := director_unit tm;
     root_manager_ids := root_manager_ids tm;
     _incoming_index := _incoming_index tm; _built := _built tm;
     calls := calls tm |}.

Definition set_agents (v : dict Agent) (tm : TeamManager) : TeamManager :=
  {| settings := settings tm; nodes := nodes tm; edges := edges tm;
     agent_node_ids := agent_node_ids tm;
     manager_node_ids := manager_node_ids tm;
     agent_nodes := agent_nodes tm; manager_nodes := manager_nodes tm;
     director_node := director_node tm;
     agent_factory := agent_factory tm; tool_factory := tool_factory tm;
     agents := v; tools := tools tm;
     agent_units := agent_units tm; manager_units := manager_units tm;
     execution_units := execution_units tm;
     director_unit := director_unit tm;
     root_manager_ids := root_manager_ids tm;
     _incoming_index := _incoming_index tm; _built := _built tm;
     calls := calls tm |}.

Definition set_tools (v : dict Tool) (tm : TeamManager) : TeamManager :=
  {| settings := settings tm; nodes := nodes tm; edges := edges tm;
     agent_node_ids := agent_node_ids tm;
     manager_node_ids := manager_node_ids tm;
     agent_nodes := agent_nodes tm; manager_nodes := manager_nodes tm;
     director_node := director_node tm;
     agent_factory := agent_factory tm; tool_factory := tool_factory tm;
     agents := agents tm; tools := v;
     agent_units := agent_units tm; manager_units := manager_units tm;
     execution_units := execution_units tm;
     director_unit := director_unit tm;
     root_manager_ids := root_manager_ids tm;
     _incoming_index := _incoming_index tm; _built := _built tm;
     calls := calls tm |}.

Definition set_agent_units (v : dict ExecutionUnit) (tm : TeamManager)
    : TeamManager :=
  {| settings := settings tm; nodes := nodes tm; edges := edges tm;
     agent_node_ids := agent_node_ids tm;
     manager_node_ids := manager_node_ids tm;
     agent_nodes := agent_nodes tm; manager_nodes := manager_nodes tm;
     director_node := director_node tm;
     agent_factory := agent_factory tm; tool_factory := tool_factory tm;
     agents := agents tm; tools := tools tm;
     agent_units := v; manager_units := manager_units tm;
     execution_units := execution_units tm;
     director_unit := director_unit tm;
     root_manager_ids := root_manager_ids tm;
     _incoming_index := _incoming_index tm; _built := _built tm;
     calls := calls tm |}.

Definition set_manager_units (v : dict ExecutionUnit) (tm : TeamManager)
    : TeamManager :=
  {| settings := settings tm; nodes := nodes tm; edges := edges tm;
     agent_node_ids := agent_node_ids tm;
     manager_node_ids := manager_node_ids tm;
     agent_nodes := agent_nodes tm; manager_nodes := manager_nodes tm;
     director_node := director_node tm;
     agent_factory := agent_factory tm; tool_factory := tool_factory tm;
     agents := agents tm; tools := tools tm;
     agent_units := agent_units tm; manager_units := v;
     execution_units := execution_units tm;
     director_unit := director_unit tm;
     root_manager_ids := root_manager_ids tm;
     _incoming_index := _incoming_index tm; _built := _built tm;
     calls := calls tm |}.

Definition set_execution_units (v : dict ExecutionUnit) (tm : TeamManager)
    : TeamManager :=
  {| settings := settings tm; nodes := nodes tm; edges := edges tm;
     agent_node_ids := agent_node_ids tm;
     manager_node_ids := manager_node_ids tm;
     agent_nodes := agent_nodes tm; manager_nodes := manager_nodes tm;
     director_node := director_node tm;
     agent_factory := agent_factory tm; tool_factory := tool_factory tm;
     agents := agents tm; tools := tools tm;
     agent_units := agent_units tm; manager_units := manager_units tm;
     execution_units := v;
     director_unit := director_unit tm;
     root_manager_ids := root_manager_ids tm;
     _incoming_index := _incoming_index tm; _built := _built tm;
     calls := calls tm |}.

Definition set_director_unit (v : option ExecutionUnit) (tm : TeamManager)
    : TeamManager :=
  {| settings := settings tm; nodes := nodes tm; edges := edges tm;
     agent_node_ids := agent_node_ids tm;
     manager_node_ids := manager_node_ids tm;
     agent_nodes := agent_nodes tm; manager_nodes := manager_nodes tm;
     director_node := director_node tm;
     agent_factory := agent_factory tm; tool_factory := tool_factory tm;
     agents := agents tm; tools := tools tm;
     agent_units := agent_units tm; manager_units := manager_units tm;
     execution_units := execution_units tm;
     director_unit := v;
     root_manager_ids := root_manager_ids tm;
     _incoming_index := _incoming_index tm; _built := _built tm;
     calls := calls tm |}.

Definition set_root_manager_ids (v : list string) (tm : TeamManager)
    : TeamManager :=
  {| settings := settings tm; nodes := nodes tm; edges := edges tm;
     agent_node_ids := agent_node_ids tm;
     manager_node_ids := manager_node_ids tm;
     agent_nodes := agent_nodes tm; manager_nodes := manager_nodes tm;
     director_node := director_node tm;
     agent_factory := agent_factory tm; tool_factory := tool_factory tm;
     agents := agents tm; tools := tools tm;
     agent_units := agent_units tm; manager_units := manager_units tm;
     execution_units := execution_units tm;
     director_unit := director_unit tm;
     root_manager_ids := v;
     _incoming_index := _incoming_index tm; _built := _built tm;
     calls := calls tm |}.

Definition set_built (v : bool) (tm : TeamManager) : TeamManager :=
  {| settings := settings tm; nodes := nodes tm; edges := edges tm;
     agent_node_ids := agent_node_ids tm;
     manager_node_ids := manager_node_ids tm;
     agent_nodes := agent_nodes tm; manager_nodes := manager_nodes tm;
     director_node := director_node tm;
     agent_factory := agent_factory tm; tool_factory := tool_factory tm;
     agents := agents tm; tools := tools tm;
     agent_units := agent_units tm; manager_units := manager_units tm;
     execution_units := execution_units tm;
     director_unit := director_unit tm;
     root_manager_ids := root_manager_ids tm;
     _incoming_index := _incoming_index tm; _built := v;
     calls := calls tm |}.

Definition log_call (c : FactoryCall) (tm : TeamManager) : TeamManager :=
  {| settings := settings tm; nodes := nodes tm; edges := edges tm;
     agent_node_ids := agent_node_ids tm;
     manager_node_ids := manager_node_ids tm;
     agent_nodes := agent_nodes tm; manager_nodes := manager_nodes tm;
     director_node := director_node tm;
     agent_factory := agent_factory tm; tool_factory := tool_factory tm;
     agents := agents tm; tools := tools tm;
     agent_units := agent_units tm; manager_units := manager_units tm;
     execution_units := execution_units tm;
     director_unit := director_unit tm;
     root_manager_ids := root_manager_ids tm;
     _incoming_index := _incoming_index tm; _built := _built tm;
     calls := calls tm ++ [c] |}.

(** ** [TeamManager.__init__] *)

(** [_build_incoming_index] *)
Definition _build_incoming_index (es : list Edge) : dict (list string) :=
  fold_left
    (fun incoming edge =>
       match truthy_opt (e_source edge), truthy_opt (e_target edge) with
       | Some source, Some target =>
           match dict_get target incoming with
           | Some l => dict_set target (l ++ [source]) incoming
           | None => dict_set target [source] incoming
           end
       | _, _ => incoming
       end)
    es [].

Definition ids_of_kind (k : string) (ns : list Node) : list string :=
  map n_id (filter (fun n => String.eqb (n_kind n) k) ns).

(** [{node_id: self.nodes[node_id] for node_id in ids}]; every id comes from
    the node list, so the lookup finds it. *)
Definition sub_dict (all : dict Node) (ids : list string) : dict Node :=
  fold_left
    (fun d i => match dict_get i all with
                | Some n => dict_set i n d
                | None => d
                end)
    ids [].

(** [TeamManager.__init__], on a project whose settings are a dictionary;
    the two factories stand for the [AgentFactory] and the [ToolFactory] it
    creates. *)
Definition init (project : Project)
    (agent_factory : Node -> list Tool -> option Agent)
    (tool_factory : Node -> ToolResult) : TeamManager :=
  let ns := p_nodes project in
  let nodes := fold_left (fun d n => dict_set (n_id n) n d) ns [] in
  let agent_node_ids := ids_of_kind "agent" ns in
  let manager_node_ids := ids_of_kind "teamManager" ns in
  {| settings := p_settings project;
     nodes := nodes;
     edges := p_edges project;
     agent_node_ids := agent_node_ids;
     manager_node_ids := manager_node_ids;
     agent_nodes := sub_dict nodes agent_node_ids;
     manager_nodes := sub_dict nodes manager_node_ids;
     director_node :=
       find (fun n => String.eqb (n_kind n) "teamDirector") ns;
     agent_factory := agent_factory;
     tool_factory := tool_factory;
     agents := [];
     tools := [];
     agent_units := [];
     manager_units := [];
     execution_units := [];
     director_unit := None;
     root_manager_ids := [];
     _incoming_index := _build_incoming_index (p_edges project);
     _built := false;
     calls := [] |}.

(** ** The graph resolver *)

(** [_resolve_children]: the targets of the edges that leave [source_id] and
    reach a known node of an allowed kind, in edge order. *)
Definition _resolve_children (tm : TeamManager) (source_id : string)
    (allowed_kinds : list string) : list string :=
  flat_map
    (fun edge =>
       if negb (match e_source edge with
                | Some s => String.eqb s source_id
                | None => false
                end)
       then []
       else
         match truthy_opt (e_target edge) with
         | None => []
         | Some target_id =>
             match dict_get target_id (nodes tm) with
             | None => []
             | Some target_node =>
                 match allowed_kinds with
                 | [] => [target_id]
                 | _ :: _ =>
                     if str_in (n_kind target_node) allowed_kinds
                     then [target_id] else []
                 end
             end
         end)
    (edges tm).

(** [_build_tools] *)
Definition _build_tools (tm : TeamManager) : TeamManager :=
  fold_left
    (fun tm (item : string * Node) =>
       let (node_id, node) := item in
       if negb (String.eqb (n_kind node) "tool") then tm
       else
         let tm := log_call (CallBuildTool node) tm in
         match tool_factory tm node with
         | ToolBuilt tool => set_tools (dict_set node_id tool (tools tm)) tm
         | ToolFalsy => tm
         | ToolRaised => tm
         end)
    (nodes tm) tm.

(** [a or b] on looked-up nodes: a node dictionary is never falsy. *)
Definition or_node (a b : option Node) : option Node :=
  match a with Some n => Some n | None => b end.

(** [_build_agent_unit] *)
Definition _build_agent_unit (agent_id : string) (tm : TeamManager)
    : option ExecutionUnit * TeamManager :=
  match dict_get agent_id (agent_units tm) with
  | Some u => (Some u, tm)
  | None =>
      match or_node (dict_get agent_id (agent_nodes tm))
                    (dict_get agent_id (nodes tm)) with
      | None => (None, tm)
      | Some node =>
          let tool_ids := _resolve_children tm agent_id ["tool"] in
          let agent_tools :=
            flat_map (fun tool_id =>
                        match dict_get tool_id (tools tm) with
                        | Some t => [t]
                        | None => []
                        end) tool_ids in
          let tm := log_call (CallCreateAgent node agent_tools) tm in
          match agent_factory tm node agent_tools with
          | None => (None, tm)
          | Some agent =>
              let tm := set_agents (dict_set agent_id agent (agents tm)) tm in
              let unit := AgentUnit node agent in
              let tm :=
                set_agent_units (dict_set agent_id unit (agent_units tm)) tm in
              let tm :=
                set_execution_units
                  (dict_set agent_id unit (execution_units tm)) tm in
              (Some unit, tm)
          end
      end
  end.

Definition cycle_message (path : list string) : string :=
  "Circular team manager dependency detected: " ++ join " -> " path.

(** The loop over the resolved children inside [_ensure_manager_unit];
    [rec] is the recursive call.  The list [stack] is one object shared
    down the recursion, so its content is threaded through the calls. *)
Fixpoint ensure_children
    (rec : string -> list string -> TeamManager ->
           result (option ExecutionUnit) * list string * TeamManager)
    (child_ids : list string) (child_units : list ExecutionUnit)
    (stack : list string) (tm : TeamManager)
    : result (list ExecutionUnit) * list string * TeamManager :=
  match child_ids with
  | [] => (Ok child_units, stack, tm)
  | child_id :: rest =>
      match dict_get child_id (nodes tm) with
      | None => ensure_children rec rest child_units stack tm
      | Some child_node =>
          if String.eqb (n_kind child_node) "agent" then
            match _build_agent_unit child_id tm with
            | (Some agent_unit, tm) =>
                ensure_children rec rest (child_units ++ [agent_unit]) stack tm
            | (None, tm) => ensure_children rec rest child_units stack tm
            end
          else if String.eqb (n_kind child_node) "teamManager" then
            match rec child_id stack tm with
            | (Ok (Some manager_unit), stack, tm) =>
                ensure_children rec rest (child_units ++ [manager_unit])
                                stack tm
            | (Ok None, stack, tm) =>
                ensure_children rec rest child_units stack tm
            | (Raise e, stack, tm) => (Raise e, stack, tm)
            | (OutOfFuel, stack, tm) => (OutOfFuel, stack, tm)
            end
          else ensure_children rec rest child_units stack tm
      end
  end.

(** [_ensure_manager_unit].  [stack or []] makes an absent stack and an
    empty one alike, so the top-level call passes [[]].  [fuel] bounds the
    depth of the recursion; [ensure_spec] below shows that the number of
    nodes is always enough. *)
Fixpoint _ensure_manager_unit (fuel : nat) (manager_id : string)
    (stack : list string) (tm : TeamManager)
    : result (option ExecutionUnit) * list string * TeamManager :=
  match dict_get manager_id (manager_units tm) with
  | Some u => (Ok (Some u), stack, tm)
  | None =>
      match or_node (dict_get manager_id (manager_nodes tm))
                    (dict_get manager_id (nodes tm)) with
      | None => (Ok None, stack, tm)
      | Some node =>
          if str_in manager_id stack then
            (Raise (ValueError (cycle_message (stack ++ [manager_id]))),
             stack, tm)
          else
            match fuel with
            | 0 => (OutOfFuel, stack, tm)
            | S fuel' =>
                let stack := stack ++ [manager_id] in
                match ensure_children (_ensure_manager_unit fuel')
                        (_resolve_children tm manager_id
                           ["agent"; "teamManager"])
                        [] stack tm with
                | (Ok child_units, stack, tm) =>
                    let stack := removelast stack in
                    match ManagerUnit node child_units "teamManager" with
                    | Ok unit =>
                        let tm :=
                          set_manager_units
                            (dict_set manager_id unit (manager_units tm)) tm in
                        let tm :=
                          set_execution_units
                            (dict_set manager_id unit (execution_units tm))
                            tm in
                        (Ok (Some unit), stack, tm)
                    | Raise e => (Raise e, stack, tm)
                    | OutOfFuel => (OutOfFuel, stack, tm)
                    end
                | (Raise e, stack, tm) => (Raise e, stack, tm)
                | (OutOfFuel, stack, tm) => (OutOfFuel, stack, tm)
                end
            end
      end
  end.

(** The depth the recursion can reach: one level per node. *)
Definition ensure_fuel (tm : TeamManager) : nat := length (nodes tm).

(** [_compute_root_manager_ids] *)
Definition _compute_root_manager_ids (tm : TeamManager) : list string :=
  filter
    (fun manager_id =>
       let parents :=
         match dict_get manager_id (_incoming_index tm) with
         | Some l => l
         | None => []
         end in
       negb (existsb (fun parent => dict_mem parent (manager_nodes tm))
                     parents))
    (manager_node_ids tm).

(** The node synthesized when the graph declares no [teamDirector]. *)
Definition synthesized_director (s : Settings) : Node :=
  {| n_id := "teamDirector";
     n_kind := "teamDirector";
     n_name := None;
     n_data :=
       {| d_label :=
            Some (match teamDirectorLabel s with
                  | Some l => l
                  | None => "Team Director"
                  end);
          d_name := None;
          d_strategy :=
            Some (Some
              (match truthy_opt (teamDirectorStrategy s) with
               | Some x => x
               | None =>
                   match truthy_opt (teamStrategy s) with
                   | Some x => x
                   | None => "sequential"
                   end
               end)) |} |}.

(** The loop over [child_ids] inside [_build_director_unit]. *)
Fixpoint director_children (child_ids : list string)
    (children : list ExecutionUnit) (tm : TeamManager)
    : result (list ExecutionUnit) * TeamManager :=
  match child_ids with
  | [] => (Ok children, tm)
  | child_id :: rest =>
      match dict_get child_id (execution_units tm) with
      | Some unit => director_children rest (children ++ [unit]) tm
      | None =>
          match dict_get child_id (nodes tm) with
          | None => director_children rest children tm
          | Some child_node =>
              if String.eqb (n_kind child_node) "agent" then
                match _build_agent_unit child_id tm with
                | (Some unit, tm) =>
                    director_children rest (children ++ [unit]) tm
                | (None, tm) => director_children rest children tm
                end
              else if String.eqb (n_kind child_node) "teamManager" then
                match _ensure_manager_unit (ensure_fuel tm) child_id [] tm with
                | (Ok (Some unit), _, tm) =>
                    director_children rest (children ++ [unit]) tm
                | (Ok None, _, tm) => director_children rest children tm
                | (Raise e, _, tm) => (Raise e, tm)
                | (OutOfFuel, _, tm) => (OutOfFuel, tm)
                end
              else director_children rest children tm
          end
      end
  end.

(** [_build_director_unit] *)
Definition _build_director_unit (tm : TeamManager)
    : result (option ExecutionUnit) * TeamManager :=
  let (node, tm) :=
    match director_node tm with
    | Some node => (node, tm)
    | None =>
        let node := synthesized_director (settings tm) in
        (node, set_nodes (dict_set (n_id node) node (nodes tm)) tm)
    end in
  let child_ids :=
    match _resolve_children tm (n_id node) ["teamManager"; "agent"] with
    | (_ :: _) as l => l
    | [] =>
        match root_manager_ids tm with
        | (_ :: _) as l => l
        | [] =>
            match manager_node_ids tm with
            | (_ :: _) as l => l
            | [] => agent_node_ids tm
            end
        end
    end in
  match director_children child_ids [] tm with
  | (Ok [], tm) => (Ok None, tm)
  | (Ok ((_ :: _) as children), tm) =>
      match ManagerUnit node children (n_kind node) with
      | Ok director_unit =>
          (Ok (Some director_unit),
           set_execution_units
             (dict_set (n_id node) director_unit (execution_units tm)) tm)
      | Raise e => (Raise e, tm)
      | OutOfFuel => (OutOfFuel, tm)
      end
  | (Raise e, tm) => (Raise e, tm)
  | (OutOfFuel, tm) => (OutOfFuel, tm)
  end.

(** ** [TeamManager.build] *)

Record Summary := {
  s_agents : nat;
  s_team_managers : nat;
  s_tools : nat;
  s_director : bool
}.

Definition summary (tm : TeamManager) : Summary :=
  {| s_agents := length (agent_units tm);
     s_team_managers := length (manager_units tm);
     s_tools := length (tools tm);
     s_director := match director_unit tm with
                   | Some _ => true
                   | None => false
                   end |}.

(** [for agent_id in self.agent_node_ids: await self._build_agent_unit(agent_id)] *)
Definition build_agents (tm : TeamManager) : TeamManager :=
  fold_left (fun tm agent_id => snd (_build_agent_unit agent_id tm))
            (agent_node_ids tm) tm.

(** [for manager_id in self.manager_node_ids:
       await self._ensure_manager_unit(manager_id)] *)
Fixpoint build_managers (manager_ids : list string) (tm : TeamManager)
    : result unit * TeamManager :=
  match manager_ids with
  | [] => (Ok tt, tm)
  | manager_id :: rest =>
      match _ensure_manager_unit (ensure_fuel tm) manager_id [] tm with
      | (Ok _, _, tm) => build_managers rest tm
      | (Raise e, _, tm) => (Raise e, tm)
      | (OutOfFuel, _, tm) => (OutOfFuel, tm)
      end
  end.

Definition build (tm : TeamManager) : result Summary * TeamManager :=
  if _built tm then (Ok (summary tm), tm)
  else
    let tm := _build_tools tm in
    let tm := build_agents tm in
    match build_managers (manager_node_ids tm) tm with
    | (Ok _, tm) =>
        let tm := set_root_manager_ids (_compute_root_manager_ids tm) tm in
        match _build_director_unit tm with
        | (Ok d, tm) =>
            let tm := set_director_unit d tm in
            let tm := set_built true tm in
            (Ok (summary tm), tm)
        | (Raise e, tm) => (Raise e, tm)
        | (OutOfFuel, tm) => (OutOfFuel, tm)
        end
    | (Raise e, tm) => (Raise e, tm)
    | (OutOfFuel, tm) => (OutOfFuel, tm)
    end.


(** ** Events and their context *)

Definition notice (message : string) : Event :=
  [("type", PStr "notice"); ("data", PDict [("message", PStr message)])].

Definition error_event (message : string) : Event :=
  [("type", PStr "error"); ("data", PDict [("message", PStr message)])].

Definition text_event (delta : string) : Event :=
  [("type", PStr "text"); ("data", PDict [("delta", PStr delta)])].

Definition tool_call_event (tool_call : ToolCall) : Event :=
  [("type", PStr "tool_call");
   ("data",
    PDict [("name", PStr (match tc_name tool_call with
                          | Some n => n
                          | None => "unknown"
                          end));
           ("args", match tc_arguments tool_call with
                    | Some a => a
                    | None => PDict []
                    end)])].

(** [_copy_event]: on values, copying a dictionary gives an equal one; the
    sharing it leaves is the subject of [Module Aliasing]. *)
Definition _copy_event (event : Event) : Event :=
  let cloned := event in
  let cloned :=
    match dict_get "data" cloned with
    | Some (PDict d) => dict_set "data" (PDict d) cloned
    | _ => cloned
    end in
  match dict_get "context" cloned with
  | Some (PDict c) => dict_set "context" (PDict c) cloned
  | _ => cloned
  end.

(** [cloned.get("context")], replaced by [{}] when it is not a dictionary. *)
Definition context_of (cloned : Event) : dict pv :=
  match dict_get "context" cloned with
  | Some (PDict c) => c
  | _ => []
  end.

(** The context [_attach_context] leaves: [setdefault] keeps what an event
    already carries. *)
Definition stamp_unit (tm : TeamManager) (context : dict pv)
    (unit_id unit_label : string) : dict pv :=
  let context := dict_setdefault "unitId" (PStr unit_id) context in
  let context := dict_setdefault "unitLabel" (PStr unit_label) context in
  match dict_get unit_id (execution_units tm) with
  | Some unit => dict_setdefault "unitKind" (PStr (unit_kind unit)) context
  | None => context
  end.

(** [_attach_context] *)
Definition _attach_context (tm : TeamManager) (event : Event)
    (unit_id unit_label : string) : Event :=
  let cloned := _copy_event event in
  dict_set "context"
    (PDict (stamp_unit tm (context_of cloned) unit_id unit_label)) cloned.

Definition pv_is_str (s : string) (v : pv) : bool :=
  match v with PStr s' => String.eqb s' s | _ => false end.

(** The context [_append_parent_context] leaves.
    [list(context.get("lineage", []))] copies the list under "lineage".
    The model covers a lineage that is absent or a list, which is what the
    events handed to this function carry ([run_unit_lineage_listed]): only
    this function writes the key, and it writes a list.  On another value
    [list] would give its items (the characters of a string, the keys of a
    dictionary) or raise (on [None]); the model reads such a value as the
    empty list, and the properties that depend on it assume
    [lineage_listed]. *)
Definition with_parent (context : dict pv) (parent_unit : ExecutionUnit)
    : dict pv :=
  let lineage :=
    match dict_get "lineage" context with
    | Some (PList l) => l
    | _ => []
    end in
  let lineage :=
    if existsb (pv_is_str (unit_id parent_unit)) lineage then lineage
    else lineage ++ [PStr (unit_id parent_unit)] in
  let context := dict_set "lineage" (PList lineage) context in
  let context := dict_set "via" (PStr (unit_id parent_unit)) context in
  let context := dict_set "viaLabel" (PStr (unit_label parent_unit)) context in
  dict_set "viaKind" (PStr (unit_kind parent_unit)) context.

(** [_append_parent_context] *)
Definition _append_parent_context (event : Event) (parent_unit : ExecutionUnit)
    : Event :=
  let cloned := _copy_event event in
  dict_set "context" (PDict (with_parent (context_of cloned) parent_unit))
           cloned.

(** ** Running a unit *)

(** The events one update is translated to inside [_run_agent_stream]. *)
Definition update_events (update : Update) : list Event :=
  (match u_delta update with
   | Some delta => if truthy delta then [text_event delta] else []
   | None => []
   end)
  ++ (match u_tool_calls update with
      | Some tool_calls => map tool_call_event tool_calls
      | None => []
      end)
  ++ (match u_delta update, u_tool_calls update with
      | None, None => [text_event (u_str update)]
      | _, _ => []
      end).

(** [_run_agent_stream]: [except Exception] turns an exception of the
    agent's stream into a last [error] event. *)
Definition _run_agent_stream (agent : Agent) (message : string)
    : Stream Event :=
  let (updates, raised) := agent message in
  match raised with
  | None => (flat_map update_events updates, Done)
  | Some e =>
      (flat_map update_events updates ++ [error_event (exn_str e)], Done)
  end.

(** [yield] the events [evs], then go on as [k]. *)
Definition yield_then (evs : list Event) (k : Stream Event) : Stream Event :=
  (evs ++ fst k, snd k).

(** [async for event in s: yield f(event)], then go on as [k]: an exception
    of [s] leaves the generator. *)
Definition for_each (f : Event -> Event) (s : Stream Event)
    (k : Stream Event) : Stream Event :=
  match snd s with
  | Done => (map f (fst s) ++ fst k, snd k)
  | out => (map f (fst s), out)
  end.

(** The order in which the events of concurrently running children reach
    the fan-in queue is not fixed by the program.  A schedule chooses it:
    [picks] names, event by event, the child whose next event arrives (a
    pick that names no child with a pending event is skipped; once the picks
    are used up the children are drained in order), and [subs] gives the
    schedules of the children. *)
Inductive Schedule :=
| Sched (picks : list nat) (subs : list Schedule).

Definition sched_picks (s : Schedule) : list nat :=
  match s with Sched p _ => p end.

Definition sched_subs (s : Schedule) : list Schedule :=
  match s with Sched _ l => l end.

Definition idle : Schedule := Sched [] [].

Fixpoint take_from {A : Type} (i : nat) (ss : list (list A)) {struct ss}
    : option (A * list (list A)) :=
  match ss with
  | [] => None
  | s :: r =>
      match i with
      | 0 => match s with
             | [] => None
             | x :: s' => Some (x, s' :: r)
             end
      | S i' => match take_from i' r with
                | Some (x, r') => Some (x, s :: r')
                | None => None
                end
      end
  end.

Fixpoint interleave {A : Type} (picks : list nat) (ss : list (list A))
    : list A :=
  match picks with
  | [] => concat ss
  | p :: ps =>
      match take_from p ss with
      | Some (x, ss') => x :: interleave ps ss'
      | None => interleave ps ss
      end
  end.

Section MapSched.
Variables (A B : Type) (f : A -> Schedule -> B).

(** [f] on each element with the schedule at its position. *)
Fixpoint map_sched (l : list A) (subs : list Schedule) : list B :=
  match l with
  | [] => []
  | a :: r => f a (hd idle subs) :: map_sched r (tl subs)
  end.
End MapSched.

Definition coordinating_notice (label strategy : string) (n : nat) : Event :=
  notice (label ++ " coordinating " ++ str_of_nat n ++ " member(s) via "
          ++ (if truthy strategy then strategy else "sequential")
          ++ " strategy").

Definition unrecognized_notice (label strategy : string) : Event :=
  notice (label ++ " does not recognize '" ++ strategy
          ++ "' strategy; defaulting to sequential execution").

(** [ManagerUnit._run_sequential]; each child comes with its own stream. *)
Fixpoint _run_sequential (tm : TeamManager) (self : ExecutionUnit)
    (children : list (ExecutionUnit * Stream Event)) (k : Stream Event)
    : Stream Event :=
  match children with
  | [] => k
  | (child, s) :: rest =>
      yield_then
        [_attach_context tm
           (notice (unit_label self ++ " delegating to " ++ unit_label child))
           (unit_id self) (unit_label self)]
        (for_each (fun event => _append_parent_context event self) s
           (_run_sequential tm self rest k))
  end.

(** [ManagerUnit._run_concurrent]: a child whose stream raises only ends its
    own pump task; [gather(..., return_exceptions=True)] keeps the exception
    from the manager. *)
Definition _run_concurrent (tm : TeamManager) (self : ExecutionUnit)
    (children : list (ExecutionUnit * Stream Event)) (picks : list nat)
    (k : Stream Event) : Stream Event :=
  yield_then
    (map (fun c : ExecutionUnit * Stream Event =>
            _attach_context tm
              (notice (unit_label self ++ " launching "
                       ++ unit_label (fst c) ++ " concurrently"))
              (unit_id self) (unit_label self))
         children)
    (yield_then
       (map (fun payload => _append_parent_context payload self)
            (interleave picks
               (map (fun c : ExecutionUnit * Stream Event => fst (snd c))
                    children)))
       k).

(** [AgentUnit.run_stream] and [ManagerUnit.run_stream] *)
Fixpoint run_unit (tm : TeamManager) (message : string)
    (u : ExecutionUnit) (sch : Schedule) {struct u} : Stream Event :=
  match u with
  | AgentU _ id label agent =>
      yield_then
        [_attach_context tm (notice (label ++ " starting execution")) id label]
        (for_each (fun event => _attach_context tm event id label)
           (_run_agent_stream agent message)
           ([_attach_context tm (notice (label ++ " finished")) id label],
            Done))
  | ManagerU _ id label _ strategy children =>
      let streams :=
        map_sched (fun c s => (c, run_unit tm message c s))
                  children (sched_subs sch) in
      let finished :=
        ([_attach_context tm (notice (label ++ " finished coordination"))
            id label], Done) in
      yield_then
        [_attach_context tm
           (coordinating_notice label strategy (length children)) id label]
        (match children with
         | [] =>
             ([_attach_context tm
                 (error_event (label ++ " has no assigned team members"))
                 id label], Done)
         | _ :: _ =>
             if String.eqb strategy "concurrent" then
               _run_concurrent tm u streams (sched_picks sch) finished
             else if str_in strategy ["sequential"; "sequence"] then
               _run_sequential tm u streams finished
             else
               yield_then
                 [_attach_context tm (unrecognized_notice label strategy)
                    id label]
                 (_run_sequential tm u streams finished)
         end)
  end.

(** ** [TeamManager.run_stream] *)

(** The streams of several top-level units one after the other. *)
Fixpoint run_in_turn (streams : list (Stream Event)) : Stream Event :=
  match streams with
  | [] => ([], Done)
  | s :: rest => for_each (fun event => event) s (run_in_turn rest)
  end.

Definition units_found (ids : list string) (d : dict ExecutionUnit)
    : list ExecutionUnit :=
  flat_map (fun i => match dict_get i d with
                     | Some u => [u]
                     | None => []
                     end) ids.

(** [_run_without_director] *)
Definition _run_without_director (tm : TeamManager) (message : string)
    (sch : Schedule) : Stream Event :=
  let units :=
    match root_manager_ids tm with
    | _ :: _ => units_found (root_manager_ids tm) (manager_units tm)
    | [] =>
        match manager_units tm with
        | _ :: _ => units_found (manager_node_ids tm) (manager_units tm)
        | [] => units_found (agent_node_ids tm) (agent_units tm)
        end
    end in
  run_in_turn (map_sched (fun u s => run_unit tm message u s)
                         units (sched_subs sch)).

Definition starting_notice : Event := notice "Starting team execution...".
Definition complete_notice : Event := notice "Execution complete".

(** What [run_stream] yields between its two notices once the hierarchy is
    built. *)
Definition dispatch (tm : TeamManager) (message target : string)
    (sch : Schedule) : Stream Event :=
  if String.eqb target "team" then
    yield_then [notice "Running team workflow"]
      (match director_unit tm with
       | Some director => run_unit tm message director sch
       | None =>
           let s := _run_without_director tm message sch in
           match fst s, snd s with
           | [], Done =>
               ([error_event "No agents or managers available"], Done)
           | _, _ => s
           end
       end)
  else
    match dict_get target (execution_units tm) with
    | Some unit => run_unit tm message unit sch
    | None => ([error_event ("Target " ++ target ++ " not found")], Done)
    end.

Definition run_stream (tm : TeamManager) (message target : string)
    (sch : Schedule) : Stream Event * TeamManager :=
  let (built, tm) :=
    if _built tm then (Ok tt, tm)
    else match build tm with
         | (Ok _, tm) => (Ok tt, tm)
         | (Raise e, tm) => (Raise e, tm)
         | (OutOfFuel, tm) => (OutOfFuel, tm)
         end in
  match built with
  | Ok _ =>
      (yield_then [starting_notice]
         (for_each (fun event => event) (dispatch tm message target sch)
            ([complete_notice], Done)),
       tm)
  | Raise e => (([starting_notice], Raised e), tm)
  | OutOfFuel => (([starting_notice], Unfinished), tm)
  end.

(** ** The evaluation runner ([evaluation_runner.py]) *)

(** What the text collection of [_collect_response] can raise. *)
Inductive text_error :=
| KeyError_data       (* [e["data"]]: the event has no "data" *)
| NoGetAttribute      (* [e["data"].get]: "data" is not a dictionary *)
| JoinTypeError.      (* ["".join]: an item is not a string *)

(** [e.get("type") == "text"] *)
Definition is_text (e : Event) : bool :=
  match dict_get "type" e with
  | Some v => pv_is_str "text" v
  | None => false
  end.

(** [[e["data"].get("delta", "") for e in events if e.get("type") == "text"]] *)
Fixpoint text_parts (events : list Event) : text_error + list pv :=
  match events with
  | [] => inr []
  | e :: rest =>
      if is_text e then
        match dict_get "data" e with
        | None => inl KeyError_data
        | Some (PDict data) =>
            match text_parts rest with
            | inl err => inl err
            | inr parts =>
                inr (match dict_get "delta" data with
                     | Some delta => delta
                     | None => PStr ""
                     end :: parts)
            end
        | Some _ => inl NoGetAttribute
        end
      else text_parts rest
  end.

(** ["".join(text_parts)] *)
Fixpoint join_parts (parts : list pv) : text_error + string :=
  match parts with
  | [] => inr ""
  | PStr s :: rest =>
      match join_parts rest with
      | inl err => inl err
      | inr text => inr (s ++ text)%string
      end
  | _ :: _ => inl JoinTypeError
  end.

Inductive collected :=
| Collected (final_text : string) (events : list Event)
| CollectRaised (e : exn)              (* the stream raised *)
| CollectTextError (e : text_error)
| CollectUnfinished.

(** [_collect_response] *)
Definition _collect_response (team_manager : TeamManager)
    (prompt target : string) (sch : Schedule) : collected * TeamManager :=
  let (stream, team_manager) := run_stream team_manager prompt target sch in
  match snd stream with
  | Raised e => (CollectRaised e, team_manager)
  | Unfinished => (CollectUnfinished, team_manager)
  | Done =>
      let events := fst stream in
      match text_parts events with
      | inl err => (CollectTextError err, team_manager)
      | inr parts =>
          match join_parts parts with
          | inl err => (CollectTextError err, team_manager)
          | inr final_text => (Collected final_text events, team_manager)
          end
      end
  end.

(** The pydantic models of [models/project.py], with the fields the
    orchestrator reads.  Every field of [NodeData] is [Optional[str] = None],
    and so are [Node.kind] and [Project.settings]; the source and the target
    of an edge are strings. *)
Record NodeDataModel := {
  nd_name : option string;
  nd_label : option string;
  nd_strategy : option string
}.

Record NodeModel := {
  nm_id : string;
  nm_kind : option string;
  nm_data : NodeDataModel
}.

Record EdgeModel := {
  em_source : string;
  em_target : string
}.

Record ProjectModel := {
  pm_settings : option Settings;
  pm_nodes : list NodeModel;
  pm_edges : list EdgeModel
}.

(** The dictionary [project.model_dump(mode="json")] returns.  Every
    declared field becomes a key and an unset field holds [None]: "strategy"
    is always present in the data of a node, and "settings" holds [None]
    when the project has none.  The model of a node has no field "name".  A
    kind of [None] is written as the empty string: the orchestrator only
    compares [node.get("kind")] with the names of the kinds. *)
Record ProjectDump := {
  dump_settings : option Settings;
  dump_nodes : list Node;
  dump_edges : list Edge
}.

Definition dump_node (node : NodeModel) : Node :=
  {| n_id := nm_id node;
     n_kind := match nm_kind node with Some k => k | None => "" end;
     n_name := None;
     n_data := {| d_label := nd_label (nm_data node);
                  d_name := nd_name (nm_data node);
                  d_strategy := Some (nd_strategy (nm_data node)) |} |}.

Definition dump_edge (edge : EdgeModel) : Edge :=
  {| e_source := Some (em_source edge); e_target := Some (em_target edge) |}.

Definition model_dump (project : ProjectModel) : ProjectDump :=
  {| dump_settings := pm_settings project;
     dump_nodes := map dump_node (pm_nodes project);
     dump_edges := map dump_edge (pm_edges project) |}.

(** [TeamManager(project)] on a dumped project.  [project.get("settings",
    {})] is [None] when the key holds [None], and then
    [self.settings.get("defaultProvider", "openai")] raises in [__init__];
    otherwise the state is the one [init] describes. *)
Definition new_TeamManager (project : ProjectDump)
    (agent_factory : Node -> list Tool -> option Agent)
    (tool_factory : Node -> ToolResult) : exn + TeamManager :=
  match dump_settings project with
  | None => inl (AttributeError "'NoneType' object has no attribute 'get'")
  | Some settings =>
      inr (init {| p_nodes := dump_nodes project;
                   p_edges := dump_edges project;
                   p_settings := settings |}
                agent_factory tool_factory)
  end.

(** [ScenarioAssertion]; [path] is not read by the runner.  [equals] is
    [Optional[Any]]: [Any] stands for the values it can hold. *)
Record ScenarioAssertion (Any : Type) := {
  a_description : string;
  a_equals : option Any;
  a_contains : option string;
  a_not_contains : option string
}.

Record ScenarioMessage := {
  m_role : string;
  m_content : string
}.

Record EvaluationScenario (Any : Type) := {
  sc_id : string;
  sc_target_agent : string;
  sc_messages : list ScenarioMessage;
  sc_assertions : list (ScenarioAssertion Any)
}.

Record EvaluationResult := {
  r_scenario_id : string;
  r_passed : bool;
  r_failures : list string;
  r_transcript : list ScenarioMessage;
  r_events : list Event;          (* metadata["events"] *)
  r_response : string             (* metadata["response"] *)
}.

(** [needle in hay] on strings. *)
Fixpoint str_contains (needle hay : string) : bool :=
  if String.prefix needle hay then true
  else match hay with
       | EmptyString => false
       | String _ rest => str_contains needle rest
       end.

Section Assertions.
(** [str(value)] and [str.strip()] of the Python runtime. *)
Variables (Any : Type) (str_of : Any -> string) (strip : string -> string).

(** The failures one assertion adds, in the order of the three checks. *)
Definition assertion_failures (text : string)
    (assertion : ScenarioAssertion Any) : list string :=
  let description :=
    if truthy (a_description assertion) then a_description assertion
    else "assertion" in
  (match a_equals assertion with
   | Some expected =>
       if String.eqb (strip text) (strip (str_of expected)) then []
       else [(description ++ ": expected exact match.")%string]
   | None => []
   end)
  ++ (match truthy_opt (a_contains assertion) with
      | Some needle =>
          if str_contains needle text then []
          else [(description ++ ": expected substring '" ++ needle
                 ++ "'.")%string]
      | None => []
      end)
  ++ (match truthy_opt (a_not_contains assertion) with
      | Some needle =>
          if str_contains needle text then
            [(description ++ ": forbidden substring '" ++ needle
              ++ "' present.")%string]
          else []
      | None => []
      end).

(** [_evaluate_assertions] *)
Definition _evaluate_assertions (text : string)
    (assertions : list (ScenarioAssertion Any)) : list string :=
  flat_map (assertion_failures text) assertions.

Inductive scenario_outcome :=
| ScenarioResult (r : EvaluationResult)
| HTTPException (status_code : nat) (detail : string)
| ScenarioRaised (e : exn)
| ScenarioTextError (e : text_error)
| ScenarioUnfinished.

(** [run_scenario].  The two factories are those [TeamManager.__init__]
    creates; an exception of the constructor or of [build] leaves
    [run_scenario] as it is. *)
Definition run_scenario (project : ProjectModel)
    (agent_factory : Node -> list Tool -> option Agent)
    (tool_factory : Node -> ToolResult)
    (scenario : EvaluationScenario Any) (sch : Schedule) : scenario_outcome :=
  match sc_messages scenario with
  | [] =>
      HTTPException 400 "Scenario requires at least one user message."
  | first :: others =>
      let prompt := m_content (last others first) in
      let target :=
        if truthy (sc_target_agent scenario) then sc_target_agent scenario
        else "team" in
      match new_TeamManager (model_dump project)
                            agent_factory tool_factory with
      | inl e => ScenarioRaised e
      | inr team_manager =>
          match build team_manager with
          | (Raise e, _) => ScenarioRaised e
          | (OutOfFuel, _) => ScenarioUnfinished
          | (Ok _, team_manager) =>
              match fst (_collect_response team_manager prompt target sch)
              with
              | CollectRaised e => ScenarioRaised e
              | CollectTextError e => ScenarioTextError e
              | CollectUnfinished => ScenarioUnfinished
              | Collected text events =>
                  let transcript :=
                    sc_messages scenario
                    ++ [{| m_role := "assistant"; m_content := text |}] in
                  let failures :=
                    _evaluate_assertions text (sc_assertions scenario) in
                  ScenarioResult
                    {| r_scenario_id := sc_id scenario;
                       r_passed := Nat.eqb (length failures) 0;
                       r_failures := failures;
                       r_transcript := transcript;
                       r_events := events;
                       r_response := text |}
              end
          end
      end
  end.
End Assertions.

(** The strategies [ManagerUnit.run_stream] dispatches on without a
    fallback notice. *)
Definition recognized (strategy : string) : bool :=
  str_in strategy ["concurrent"; "sequential"; "sequence"].

(** The part of the orchestrator state that [__init__] fixes and the
    resolver only reads (the director synthesis alone adds a node). *)
Definition graph_of (tm : TeamManager) :=
  (nodes tm, edges tm, settings tm, agent_node_ids tm, manager_node_ids tm,
   agent_nodes tm, manager_nodes tm, director_node tm,
   agent_factory tm, tool_factory tm, _incoming_index tm, _built tm).

(** ** Events as objects in a store

    On values a copy cannot be told from the original; what [_copy_event]
    copies and what it shares shows in a store of objects, where a
    dictionary holds references to the objects under its keys. *)
Module Aliasing.

Definition loc := nat.

Inductive val :=
| VNone
| VStr (s : string)
| VRef (l : loc).

Inductive obj :=
| ODict (d : dict val)
| OList (l : list val).

(** The store: the object at location [l] is the [l]-th element. *)
Definition heap := list obj.

Definition load (h : heap) (l : loc) : option obj := nth_error h l.

(** A new object. *)
Definition alloc (h : heap) (o : obj) : loc * heap := (length h, h ++ [o]).

(** The object at [l] is replaced in place. *)
Fixpoint store (h : heap) (l : loc) (o : obj) : heap :=
  match h, l with
  | [], _ => []
  | _ :: r, 0 => o :: r
  | x :: r, S l' => x :: store r l' o
  end.

(** [d.get(k)] on the dictionary at [l]. *)
Definition get_item (h : heap) (l : loc) (k : string) : option val :=
  match load h l with
  | Some (ODict d) => dict_get k d
  | _ => None
  end.

(** [d[k] = v] on the dictionary at [l]. *)
Definition set_item (h : heap) (l : loc) (k : string) (v : val) : heap :=
  match load h l with
  | Some (ODict d) => store h l (ODict (dict_set k v d))
  | _ => h
  end.

(** [d.setdefault(k, v)] on the dictionary at [l]. *)
Definition setdefault_item (h : heap) (l : loc) (k : string) (v : val)
    : heap :=
  match load h l with
  | Some (ODict d) => store h l (ODict (dict_setdefault k v d))
  | _ => h
  end.

(** [if k in cloned and isinstance(cloned[k], dict):
      cloned[k] = dict(cloned[k])] *)
Definition copy_under (h : heap) (cloned : loc) (k : string) : heap :=
  match get_item h cloned k with
  | Some (VRef l) =>
      match load h l with
      | Some (ODict d) =>
          let (l', h) := alloc h (ODict d) in
          set_item h cloned k (VRef l')
      | _ => h
      end
  | _ => h
  end.

(** [_copy_event]: [dict(event)] is a new dictionary with the same
    items; [None] when [event] is no dictionary. *)
Definition _copy_event (h : heap) (event : loc) : option (loc * heap) :=
  match load h event with
  | Some (ODict d) =>
      let (cloned, h) := alloc h (ODict d) in
      let h := copy_under h cloned "data" in
      let h := copy_under h cloned "context" in
      Some (cloned, h)
  | _ => None
  end.

(** [context = cloned.get("context")], replaced by a new [{}] when it is
    not a dictionary. *)
Definition context_object (h : heap) (cloned : loc) : loc * heap :=
  match get_item h cloned "context" with
  | Some (VRef l) =>
      match load h l with
      | Some (ODict _) => (l, h)
      | _ => alloc h (ODict [])
      end
  | _ => alloc h (ODict [])
  end.

(** [_attach_context] *)
Definition _attach_context (tm : TeamManager) (h : heap) (event : loc)
    (unit_id unit_label : string) : option (loc * heap) :=
  match _copy_event h event with
  | None => None
  | Some (cloned, h) =>
      let (context, h) := context_object h cloned in
      let h := setdefault_item h context "unitId" (VStr unit_id) in
      let h := setdefault_item h context "unitLabel" (VStr unit_label) in
      let h :=
        match dict_get unit_id (execution_units tm) with
        | Some unit =>
            setdefault_item h context "unitKind" (VStr (unit_kind unit))
        | None => h
        end in
      let h := set_item h cloned "context" (VRef context) in
      Some (cloned, h)
  end.

Definition val_is_str (s : string) (v : val) : bool :=
  match v with VStr s' => String.eqb s' s | _ => false end.

(** [_append_parent_context]; [list(...)] makes a new list.  As in
    [with_parent], the lineage read is one that is absent or a list. *)
Definition _append_parent_context (h : heap) (event : loc)
    (parent_unit : ExecutionUnit) : option (loc * heap) :=
  match _copy_event h event with
  | None => None
  | Some (cloned, h) =>
      let (context, h) := context_object h cloned in
      let items :=
        match get_item h context "lineage" with
        | Some (VRef l) =>
            match load h l with
            | Some (OList items) => items
            | _ => []
            end
        | _ => []
        end in
      let (lineage, h) := alloc h (OList items) in
      let h :=
        if existsb (val_is_str (unit_id parent_unit)) items then h
        else store h lineage (OList (items ++ [VStr (unit_id parent_unit)])) in
      let h := set_item h context "lineage" (VRef lineage) in
      let h := set_item h context "via" (VStr (unit_id parent_unit)) in
      let h :=
        set_item h context "viaLabel" (VStr (unit_label parent_unit)) in
      let h := set_item h context "viaKind" (VStr (unit_kind parent_unit)) in
      let h := set_item h cloned "context" (VRef context) in
      Some (cloned, h)
  end.

(** The value reached from the object at [l] along the keys [path]. *)
Fixpoint get_path (h : heap) (l : loc) (path : list string) : option val :=
  match path with
  | [] => Some (VRef l)
  | k :: rest =>
      match get_item h l k with
      | Some (VRef l') =>
          match rest with
          | [] => Some (VRef l')
          | _ :: _ => get_path h l' rest
          end
      | Some v => match rest with [] => Some v | _ :: _ => None end
      | None => None
      end
  end.

(** [h'] keeps every object of [h] as it is. *)
Definition extends (h h' : heap) : Prop :=
  length h <= length h' /\
  forall l, l < length h -> load h' l = load h l.

(** The entry [v] of a copy does not refer to a dictionary of the
    original store [h0]. *)
Definition not_aliased (h0 : heap) (v : option val) : Prop :=
  forall l d, v = Some (VRef l) -> l < length h0 ->
              load h0 l <> Some (ODict d).

(** While context is attached to the copy [cloned] of an event of [h0]:
    [h0] is kept, [cloned] exists, and its "data" entry is not a
    dictionary of [h0]. *)
Definition tracked (h0 : heap) (cloned : loc) (h : heap) : Prop :=
  extends h0 h /\ cloned < length h /\
  not_aliased h0 (get_item h cloned "data").

(** [cloned] is a one-level copy made in [h']: every object of [h] is as
    it was, [cloned] is new, and so are the dictionaries under its
    "data" and "context" keys. *)
Definition fresh_copy (h : heap) (cloned : loc) (h' : heap) : Prop :=
  extends h h' /\
  length h <= cloned /\
  forall k l d,
    In k ["data"; "context"] ->
    get_item h' cloned k = Some (VRef l) ->
    load h' l = Some (ODict d) ->
    length h <= l.

(** A [tool_call] event as [_run_agent_stream] yields it: the arguments
    of the call are a dictionary of their own. *)
Definition tool_call_heap : heap :=
  [ODict [("query", VStr "rocq")];
   ODict [("name", VStr "search"); ("args", VRef 0)];
   ODict [("type", VStr "tool_call"); ("data", VRef 1)]].

End Aliasing.

(** ** Vocabulary of the cycle check *)

(** [c] is a child on which [_ensure_manager_unit manager_id] recurses: a
    resolved child whose node is a team manager. *)
Definition child_rel (tm : TeamManager) (manager_id c : string) : Prop :=
  In c (_resolve_children tm manager_id ["agent"; "teamManager"]) /\
  exists node, dict_get c (nodes tm) = Some node /\
               n_kind node = "teamManager".

(** A teamManager-to-teamManager edge of the graph. *)
Definition manager_edge (tm : TeamManager) (a b : string) : Prop :=
  (exists e, In e (edges tm) /\ e_source e = Some a /\ e_target e = Some b) /\
  (exists na, dict_get a (nodes tm) = Some na /\ n_kind na = "teamManager") /\
  (exists nb, dict_get b (nodes tm) = Some nb /\ n_kind nb = "teamManager").

(** Each element of the list is related to the next one. *)
Fixpoint chain (R : string -> string -> Prop) (l : list string) : Prop :=
  match l with
  | [] => True
  | a :: r =>
      match r with
      | [] => True
      | b :: _ => R a b /\ chain R r
      end
  end.

(** A path that closes a cycle: its last element already occurs in it. *)
Definition closes_cycle (path : list string) (c : string) (cyc : list string)
    : Prop :=
  exists pre, path = pre ++ c :: cyc ++ [c].


(** Keys listed latest first, each with its children among the earlier
    ones. *)
Fixpoint children_first (R : string -> string -> Prop) (latest_first : list string)
    : Prop :=
  match latest_first with
  | [] => True
  | m :: earlier =>
      (forall c, R m c -> In c earlier) /\ children_first R earlier
  end.

(** [manager_nodes] holds keys of [nodes] only. *)
Definition graph_ok (tm : TeamManager) : Prop :=
  forall k n, dict_get k (manager_nodes tm) = Some n ->
              In k (dict_keys (nodes tm)).

(** No node holds [None] under "strategy". *)
Definition strategies_ok (tm : TeamManager) : Prop :=
  forall k n,
    dict_get k (nodes tm) = Some n \/ dict_get k (manager_nodes tm) = Some n ->
    d_strategy (n_data n) <> Some None.

(** The manager units of [tm] were constructed children first, for the
    children that [R] tells. *)
Definition ordered (R : string -> string -> Prop) (tm : TeamManager) : Prop :=
  children_first R (rev (dict_keys (manager_units tm))).

(** The two ways the resolver raises. *)
Definition cycle_error (tm0 : TeamManager) (e : exn) : Prop :=
  exists path c cyc,
    e = ValueError (cycle_message path) /\
    chain (child_rel tm0) path /\ closes_cycle path c cyc.

Definition strategy_error (tm0 : TeamManager) (e : exn) : Prop :=
  (exists msg, e = AttributeError msg) /\ ~ strategies_ok tm0.


(** What a call that starts in [tm] with the stack [stack] and ends in
    [tm'] with the stack [stack'] guarantees; [tm0] fixes the graph. *)
Definition ensure_post (A : Type) (tm0 : TeamManager)
    (R : string -> string -> Prop)
    (inserted : TeamManager -> Prop) (stack : list string) (tm : TeamManager)
    (r : result A) (stack' : list string) (tm' : TeamManager) : Prop :=
  graph_of tm' = graph_of tm0 /\
  incl (dict_keys (manager_units tm)) (dict_keys (manager_units tm')) /\
  match r with
  | Ok _ => stack' = stack /\ ordered R tm' /\ inserted tm'
  | Raise e => cycle_error tm0 e \/ strategy_error tm0 e
  | OutOfFuel => False
  end.

(** ** Vocabulary of the stream properties *)


(** The key "lineage" of the context of [e] is absent or holds a list. *)
Definition lineage_listed (e : Event) : bool :=
  match dict_get "lineage" (context_of e) with
  | None => true
  | Some (PList _) => true
  | Some _ => false
  end.

(** The ids in [context["lineage"]]. *)
Definition lineage_of (e : Event) : list pv :=
  match dict_get "lineage" (context_of e) with
  | Some (PList l) => l
  | _ => []
  end.

(** A unit and every unit below it. *)
Fixpoint subunits (u : ExecutionUnit) : list ExecutionUnit :=
  u :: match u with
       | AgentU _ _ _ _ => []
       | ManagerU _ _ _ _ _ children => flat_map subunits children
       end.

Definition is_manager (u : ExecutionUnit) : bool :=
  match u with ManagerU _ _ _ _ _ _ => true | AgentU _ _ _ _ => false end.

(** ** Vocabulary of the hierarchy properties *)

Definition unit_list (o : option ExecutionUnit) : list ExecutionUnit :=
  match o with Some u => [u] | None => [] end.

(** The unit registered for the child [c], looked up by the kind of its
    node. *)
Definition member (tm0 tm : TeamManager) (c : string) : list ExecutionUnit :=
  match dict_get c (nodes tm0) with
  | Some cn =>
      if String.eqb (n_kind cn) "agent" then
        unit_list (dict_get c (agent_units tm))
      else if String.eqb (n_kind cn) "teamManager" then
        unit_list (dict_get c (manager_units tm))
      else []
  | None => []
  end.

(** The units registered in [tm] for the agents and team managers that the
    edges leaving [m] reach in the graph of [tm0], in edge order. *)
Definition members (tm0 tm : TeamManager) (m : string) : list ExecutionUnit :=
  flat_map (member tm0 tm) (_resolve_children tm0 m ["agent"; "teamManager"]).

(** [tm] has the graph, the tools and the agent units of [tm0]. *)
Definition agents_fixed (tm0 tm : TeamManager) : Prop :=
  graph_of tm = graph_of tm0 /\ tools tm = tools tm0 /\
  agent_units tm = agent_units tm0.

(** Every agent of [tm0] has been tried: building it again returns what is
    registered. *)
Definition agents_settled (tm0 : TeamManager) : Prop :=
  forall c cn tm,
    dict_get c (nodes tm0) = Some cn -> n_kind cn = "agent" ->
    agents_fixed tm0 tm ->
    fst (_build_agent_unit c tm) = dict_get c (agent_units tm0).

(** Every registered manager unit was made from its node and the units of
    its children, and the managers among its children are registered. *)
Definition mirrored (tm0 tm : TeamManager) : Prop :=
  forall m u,
    dict_get m (manager_units tm) = Some u ->
    (exists node, dict_get m (nodes tm0) = Some node /\
                  ManagerUnit node (members tm0 tm m) "teamManager" = Ok u) /\
    forall c, child_rel tm0 m c -> dict_get c (manager_units tm) <> None.

Definition mirror_post (tm0 : TeamManager) (stack : list string)
    (tm : TeamManager) (stack' : list string) (tm' : TeamManager) : Prop :=
  stack' = stack /\ agents_fixed tm0 tm' /\ mirrored tm0 tm' /\
  (forall k v, dict_get k (manager_units tm) = Some v ->
               dict_get k (manager_units tm') = Some v) /\
  (forall k, In k stack ->
             dict_get k (manager_units tm') = dict_get k (manager_units tm)).

(** The unit [_build_agent_unit] makes for the agent node stored under
    [c]. *)
Definition expected_agent (tm : TeamManager) (c : string)
    : option ExecutionUnit :=
  match dict_get c (nodes tm) with
  | Some node =>
      match agent_factory tm node
              (flat_map (fun tool_id => match dict_get tool_id (tools tm) with
                                        | Some t => [t]
                                        | None => []
                                        end)
                        (_resolve_children tm c ["tool"])) with
      | Some agent => Some (AgentUnit node agent)
      | None => None
      end
  | None => None
  end.

(** The plain events the orchestrator makes. *)
Definition plain_event (raw : Event) : Prop :=
  (exists m, raw = notice m) \/ (exists s, raw = text_event s) \/
  (exists tc, raw = tool_call_event tc) \/ (exists m, raw = error_event m).

(** A text event carries its delta as a string. *)
Definition text_shaped (e : Event) : Prop :=
  is_text e = true ->
  exists s, dict_get "data" e = Some (PDict [("delta", PStr s)]).


(** What the three checks of [_evaluate_assertions] ask of the text. *)
Definition assertion_holds (Any : Type) (str_of : Any -> string)
    (strip : string -> string) (text : string)
    (assertion : ScenarioAssertion Any) : Prop :=
  (forall expected, a_equals assertion = Some expected ->
                    strip text = strip (str_of expected)) /\
  (forall needle, a_contains assertion = Some needle -> needle <> "" ->
                  exists a b, text = (a ++ needle ++ b)%string) /\
  (forall needle, a_not_contains assertion = Some needle -> needle <> "" ->
                  ~ exists a b, text = (a ++ needle ++ b)%string).

(** The response text of a list of events, or the error of its
    collection. *)
Definition final_text (events : list Event) : text_error + string :=
  match text_parts events with
  | inl err => inl err
  | inr parts => join_parts parts
  end.

(** ** Sample projects *)

Definition plain_node (i k : string) : Node :=
  {| n_id := i; n_kind := k; n_name := None;
     n_data := {| d_label := None; d_name := None; d_strategy := None |} |}.

Definition strategy_node (i k s : string) : Node :=
  {| n_id := i; n_kind := k; n_name := None;
     n_data := {| d_label := None; d_name := None;
                  d_strategy := Some (Some s) |} |}.

Definition edge (s t : string) : Edge :=
  {| e_source := Some s; e_target := Some t |}.

Definition no_settings : Settings :=
  {| teamDirectorLabel := None; teamDirectorStrategy := None;
     teamStrategy := None |}.

(** An agent that repeats the message as one text delta. *)
Definition echo_agent : Agent :=
  fun message =>
    ([{| u_delta := Some message; u_tool_calls := None; u_str := "" |}], None).

(** An agent whose stream raises after one text delta. *)
Definition failing_agent : Agent :=
  fun message =>
    ([{| u_delta := Some "partial"; u_tool_calls := None; u_str := "" |}],
     Some (RuntimeError "model unavailable")).

Definition echo_factory : Node -> list Tool -> option Agent :=
  fun _ _ => Some echo_agent.

Definition name_tool_factory : Node -> ToolResult :=
  fun node => ToolBuilt (n_id node).

(** One manager without any member. *)
Definition lonely_project : Project :=
  {| p_nodes := [plain_node "m" "teamManager"];
     p_edges := [];
     p_settings := no_settings |}.

Definition lonely_manager : ExecutionUnit :=
  ManagerU (plain_node "m" "teamManager") "m" "m" "teamManager"
           "sequential" [].

(** A declared director over one manager over one agent. *)
Definition two_level_project : Project :=
  {| p_nodes := [plain_node "director" "teamDirector";
                 plain_node "managerA" "teamManager";
                 plain_node "agentX" "agent"];
     p_edges := [edge "director" "managerA"; edge "managerA" "agentX"];
     p_settings := no_settings |}.

Definition agentX_unit : ExecutionUnit :=
  AgentU (plain_node "agentX" "agent") "agentX" "agentX" echo_agent.

Definition managerA_unit : ExecutionUnit :=
  ManagerU (plain_node "managerA" "teamManager") "managerA" "managerA"
           "teamManager" "sequential" [agentX_unit].

Definition two_level_director : ExecutionUnit :=
  ManagerU (plain_node "director" "teamDirector") "director" "director"
           "teamDirector" "sequential" [managerA_unit].

(** A tool wired to an agent the way the canvas generator writes it, and a
    manager over the agent. *)
Definition small_team_project : Project :=
  {| p_nodes := [plain_node "tool-1" "tool"; plain_node "agent-1" "agent";
                 plain_node "manager-1" "teamManager"];
     p_edges := [edge "tool-1" "agent-1"; edge "manager-1" "agent-1"];
     p_settings := no_settings |}.

(** Three managers that delegate in a circle. *)
Definition circular_project : Project :=
  {| p_nodes := [plain_node "A" "teamManager"; plain_node "B" "teamManager";
                 plain_node "C" "teamManager"];
     p_edges := [edge "A" "B"; edge "B" "C"; edge "C" "A"];
     p_settings := no_settings |}.




(** A project that holds a tool and nothing that could run. *)
Definition tools_only_project : Project :=
  {| p_nodes := [plain_node "tool-1" "tool"];
     p_edges := [edge "tool-1" "agent-9"];
     p_settings := no_settings |}.

(** * Properties *)

(** ** Dictionaries *)

Lemma dict_get_set_same : forall (V : Type) (k : string) (v : V) (d : dict V),
  dict_get k (dict_set k v d) = Some v.
Proof.
  induction d as [|[k' v'] r IH]; simpl.
  - now rewrite String.eqb_refl.
  - destruct (String.eqb k k') eqn:E; simpl; rewrite ?E, ?String.eqb_refl; auto.
Qed.

Lemma dict_get_set_other : forall (V : Type) (k k' : string) (v : V) (d : dict V),
  k <> k' -> dict_get k' (dict_set k v d) = dict_get k' d.
Proof.
  intros V k k' v d Hne. apply String.eqb_neq in Hne.
  assert (Hne' : String.eqb k' k = false) by (now rewrite String.eqb_sym).
  induction d as [|[k0 v0] r IH]; simpl.
  - now rewrite Hne'.
  - destruct (String.eqb k k0) eqn:E; simpl.
    + apply String.eqb_eq in E; subst k0. now rewrite Hne'.
    + now rewrite IH.
Qed.

Lemma dict_get_In : forall (V : Type) (k : string) (v : V) (d : dict V),
  dict_get k d = Some v -> In k (dict_keys d).
Proof.
  induction d as [|[k' v'] r IH]; simpl; [discriminate|].
  destruct (String.eqb k k') eqn:E; intros H.
  - apply String.eqb_eq in E; auto.
  - right; auto.
Qed.

Lemma dict_get_None : forall (V : Type) (k : string) (d : dict V),
  dict_get k d = None <-> ~ In k (dict_keys d).
Proof.
  induction d as [|[k' v'] r IH]; simpl.
  - tauto.
  - destruct (String.eqb k k') eqn:E.
    + apply String.eqb_eq in E. split; [discriminate | intros H; exfalso; auto].
    + apply String.eqb_neq in E. rewrite IH. split; intros H.
      * intros [H1|H1]; [congruence | auto].
      * intros H1; apply H; auto.
Qed.

Lemma dict_keys_set : forall (V : Type) (k : string) (v : V) (d : dict V),
  dict_keys (dict_set k v d) =
  if dict_mem k d then dict_keys d else dict_keys d ++ [k].
Proof.
  unfold dict_mem. induction d as [|[k' v'] r IH]; simpl; auto.
  destruct (String.eqb k k') eqn:E; simpl.
  - apply String.eqb_eq in E; now subst.
  - rewrite IH. now destruct (dict_get k r).
Qed.

Lemma str_in_In : forall x xs, str_in x xs = true <-> In x xs.
Proof.
  unfold str_in. intros x xs. rewrite existsb_exists. split.
  - intros [y [Hy E]]. apply String.eqb_eq in E. now subst.
  - intros H. exists x. split; auto. apply String.eqb_refl.
Qed.

(** ** Streams of a unit *)

Lemma unit_nested_ind : forall P : ExecutionUnit -> Prop,
  (forall n i l a, P (AgentU n i l a)) ->
  (forall n i l k s cs, Forall P cs -> P (ManagerU n i l k s cs)) ->
  forall u, P u.
Proof.
  intros P Hagent Hmanager. fix IH 1. intros [n i l a|n i l k s cs].
  - apply Hagent.
  - apply Hmanager. revert cs. fix IHcs 1. intros [|c cs].
    + constructor.
    + constructor; [apply IH|apply IHcs].
Qed.

Lemma _run_agent_stream_done : forall agent message,
  snd (_run_agent_stream agent message) = Done.
Proof.
  intros. unfold _run_agent_stream.
  destruct (agent message) as [us [e|]]; reflexivity.
Qed.

Lemma for_each_done : forall f s k,
  snd s = Done -> for_each f s k = (map f (fst s) ++ fst k, snd k).
Proof. intros f s k H. unfold for_each. now rewrite H. Qed.

Lemma map_sched_length : forall (A B : Type) (f : A -> Schedule -> B) l subs,
  length (map_sched f l subs) = length l.
Proof. induction l; simpl; intros; auto. Qed.

Lemma _run_sequential_done : forall tm self children k,
  Forall (fun c : ExecutionUnit * Stream Event => snd (snd c) = Done) children ->
  snd (_run_sequential tm self children k) = snd k.
Proof.
  induction children as [|[c s] r IH]; simpl; intros k H; auto.
  inversion H as [|? ? Hs Hr]; subst. simpl in Hs.
  rewrite for_each_done by assumption. simpl. now apply IH.
Qed.

Lemma map_sched_Forall : forall tm message (P : ExecutionUnit -> Schedule -> Prop)
    (Q : ExecutionUnit * Stream Event -> Prop) cs subs,
  Forall (fun c => forall s, Q (c, run_unit tm message c s)) cs ->
  Forall Q (map_sched (fun c s => (c, run_unit tm message c s)) cs subs).
Proof.
  induction cs as [|c r IH]; simpl; intros subs H; constructor;
    inversion H; subst; auto.
Qed.

(** No exception leaves the stream of a unit: the only source of one, the
    agent capability, is caught inside [_run_agent_stream]. *)
Lemma run_unit_done : forall tm message u sch,
  snd (run_unit tm message u sch) = Done.
Proof.
  intros tm message u. induction u as [n i l a | n i l k s cs IH]
    using unit_nested_ind; intros sch.
  - simpl. rewrite for_each_done by apply _run_agent_stream_done. reflexivity.
  - assert (Hall : Forall (fun c : ExecutionUnit * Stream Event =>
                             snd (snd c) = Done)
                     (map_sched (fun c s => (c, run_unit tm message c s))
                        cs (sched_subs sch))).
    { apply map_sched_Forall with (P := fun _ _ => True).
      eapply Forall_impl; [|exact IH]. intros c Hc s0. simpl. apply Hc. }
    destruct cs as [|c0 r]; [reflexivity|].
    cbn [run_unit yield_then snd].
    destruct (String.eqb s "concurrent"); [reflexivity|].
    destruct (str_in s ["sequential"; "sequence"]); cbn [yield_then snd];
      now rewrite _run_sequential_done.
Qed.

(** ** Failures of an agent capability *)

Lemma take_from_perm : forall (A : Type) i (ss ss' : list (list A)) x,
  take_from i ss = Some (x, ss') -> Permutation (concat ss) (x :: concat ss').
Proof.
  intros A i ss. revert i. induction ss as [|s r IH]; intros i ss' x H.
  - simpl in H. discriminate H.
  - destruct i as [|i]; simpl in H.
    + destruct s as [|y s']; [discriminate|]. inversion H; subst. reflexivity.
    + destruct (take_from i r) as [[y r']|] eqn:E; [|discriminate].
      inversion H; subst. simpl. apply IH in E.
      rewrite E. symmetry. apply Permutation_middle.
Qed.

(** Whatever the schedule, the merged sequence holds exactly the events of
    the children. *)
Lemma interleave_perm : forall (A : Type) picks (ss : list (list A)),
  Permutation (interleave picks ss) (concat ss).
Proof.
  induction picks as [|p ps IH]; intros ss; simpl.
  - reflexivity.
  - destruct (take_from p ss) as [[x ss']|] eqn:E.
    + rewrite (take_from_perm _ _ E). constructor. apply IH.
    + apply IH.
Qed.

Lemma map_sched_nth : forall (A B : Type) (f : A -> Schedule -> B) l subs j a,
  nth_error l j = Some a ->
  nth_error (map_sched f l subs) j = Some (f a (nth j subs idle)).
Proof.
  induction l as [|x r IH]; intros subs j a H.
  - destruct j; discriminate.
  - destruct j as [|j]; simpl in *.
    + inversion H; subst. now destruct subs.
    + rewrite (IH (tl subs) j a H).
      destruct subs; simpl; [destruct j|]; reflexivity.
Qed.

Lemma _run_sequential_forwards : forall tm self children k c st ev,
  Forall (fun c : ExecutionUnit * Stream Event => snd (snd c) = Done) children ->
  In (c, st) children -> In ev (fst st) ->
  In (_append_parent_context ev self) (fst (_run_sequential tm self children k)).
Proof.
  induction children as [|[c0 s0] r IH]; intros k c st ev Hall Hin Hev.
  - contradiction.
  - inversion Hall as [|? ? Hs Hr]; subst. simpl in Hs.
    simpl. rewrite for_each_done by assumption. simpl. right.
    apply in_or_app. destruct Hin as [Heq|Hin].
    + inversion Heq; subst. left.
      apply (in_map (fun event => _append_parent_context event self)), Hev.
    + right. eapply IH; eauto.
Qed.

Lemma _run_concurrent_forwards : forall tm self children picks k c st ev,
  In (c, st) children -> In ev (fst st) ->
  In (_append_parent_context ev self)
     (fst (_run_concurrent tm self children picks k)).
Proof.
  intros tm self children picks k c st ev Hin Hev.
  unfold _run_concurrent, yield_then. simpl.
  apply in_or_app; right. apply in_or_app; left.
  apply (in_map (fun payload => _append_parent_context payload self)).
  eapply Permutation_in; [symmetry; apply interleave_perm|].
  apply in_concat. exists (fst st). split; auto.
  apply (in_map (fun c : ExecutionUnit * Stream Event => fst (snd c)) _ _ Hin).
Qed.

(** Every event of every child reaches the stream of its manager, with the
    manager added to its context, whatever the strategy. *)
Lemma children_forwarded : forall tm message n i l k s cs sch j c ev,
  nth_error cs j = Some c ->
  In ev (fst (run_unit tm message c (nth j (sched_subs sch) idle))) ->
  In (_append_parent_context ev (ManagerU n i l k s cs))
     (fst (run_unit tm message (ManagerU n i l k s cs) sch)).
Proof.
  intros tm message n i l k s cs sch j c ev Hc Hev.
  set (streams := map_sched (fun c s => (c, run_unit tm message c s))
                            cs (sched_subs sch)).
  assert (Hin : In (c, run_unit tm message c (nth j (sched_subs sch) idle))
                   streams).
  { eapply nth_error_In. unfold streams.
    apply (map_sched_nth (fun c s => (c, run_unit tm message c s))
                         cs (sched_subs sch) j Hc). }
  assert (Hall : Forall (fun c : ExecutionUnit * Stream Event =>
                           snd (snd c) = Done) streams).
  { apply map_sched_Forall with (P := fun _ _ => True).
    apply Forall_forall. intros x _ s0. apply run_unit_done. }
  destruct cs as [|c0 r]; [destruct j; discriminate|].
  cbn [run_unit yield_then fst]. right. fold streams.
  destruct (String.eqb s "concurrent").
  - eapply _run_concurrent_forwards; eauto.
  - destruct (str_in s ["sequential"; "sequence"]).
    + eapply _run_sequential_forwards; eauto.
    + cbn [yield_then fst]. right.
      eapply _run_sequential_forwards; eauto.
Qed.

(** C6: when the stream of the agent capability raises after some updates,
    the exception does not leave the stream of the [AgentUnit]: the stream
    carries the translated updates, then one event of type [error] whose
    data holds the message of the exception ([str(exc)]) under "message",
    then the closing notice, and ends normally.  A manager that holds the
    unit ends normally too and forwards every event of every child, the
    siblings included. *)
Theorem agent_failure_contained :
  forall tm message node agent updates e sch,
    agent message = (updates, Some e) ->
    let attach := fun ev =>
      _attach_context tm ev (n_id node) (node_label node) in
    let err := attach (error_event (exn_str e)) in
    run_unit tm message (AgentUnit node agent) sch =
      (attach (notice (node_label node ++ " starting execution"))
       :: map attach (flat_map update_events updates
                      ++ [error_event (exn_str e)])
       ++ [attach (notice (node_label node ++ " finished"))],
       Done)
    /\ In err (fst (run_unit tm message (AgentUnit node agent) sch))
    /\ dict_get "type" err = Some (PStr "error")
    /\ dict_get "data" err = Some (PDict [("message", PStr (exn_str e))])
    /\ forall n i l k s cs sch' j,
         nth_error cs j = Some (AgentUnit node agent) ->
         let manager := ManagerU n i l k s cs in
         snd (run_unit tm message manager sch') = Done /\
         In (_append_parent_context err manager)
            (fst (run_unit tm message manager sch')) /\
         forall j' sibling ev,
           nth_error cs j' = Some sibling ->
           In ev (fst (run_unit tm message sibling
                         (nth j' (sched_subs sch') idle))) ->
           In (_append_parent_context ev manager)
              (fst (run_unit tm message manager sch')).
Proof.
  intros tm message node agent updates e sch Hrun attach err.
  assert (Hstream : forall sch0,
            run_unit tm message (AgentUnit node agent) sch0 =
            (attach (notice (node_label node ++ " starting execution"))
             :: map attach (flat_map update_events updates
                            ++ [error_event (exn_str e)])
             ++ [attach (notice (node_label node ++ " finished"))],
             Done)).
  { intros sch0. unfold AgentUnit. cbn [run_unit]. unfold _run_agent_stream.
    rewrite Hrun. reflexivity. }
  assert (Hin : forall sch0,
            In err (fst (run_unit tm message (AgentUnit node agent) sch0))).
  { intros sch0. rewrite Hstream. cbn [fst]. right.
    apply in_or_app. left. rewrite map_app. apply in_or_app. right.
    now left. }
  split; [apply Hstream|]. split; [apply Hin|].
  split.
  { unfold err, attach, _attach_context.
    rewrite dict_get_set_other by discriminate. reflexivity. }
  split.
  - unfold err, attach, _attach_context.
    rewrite dict_get_set_other by discriminate. reflexivity.
  - intros n i l k s cs sch' j Hj manager. split; [apply run_unit_done|].
    split.
    + eapply children_forwarded; [exact Hj|apply Hin].
    + intros j' sibling ev Hs Hev. eapply children_forwarded; eauto.
Qed.

Lemma agent_failure_contained_witness :
  let tm := init lonely_project echo_factory name_tool_factory in
  let node := plain_node "a" "agent" in
  let run := run_unit tm "hi" (AgentUnit node failing_agent) idle in
  let err := _attach_context tm (error_event "model unavailable") "a" "a" in
  snd run = Done /\
  In err (fst run) /\
  dict_get "type" err = Some (PStr "error") /\
  dict_get "data" err =
    Some (PDict [("message", PStr "model unavailable")]) /\
  fst run =
    [_attach_context tm (notice "a starting execution") "a" "a";
     _attach_context tm (text_event "partial") "a" "a";
     err;
     _attach_context tm (notice "a finished") "a" "a"].
Proof.
  intros tm node run err.
  pose proof (@agent_failure_contained tm "hi" node failing_agent
                _ _ idle eq_refl) as [H [Hin [Ht [Hd _]]]].
  split; [unfold run; rewrite H; reflexivity|].
  split; [exact Hin|]. split; [exact Ht|]. split; [exact Hd|].
  unfold run. rewrite H. reflexivity.
Defined.

(** ** Lineage *)

Lemma update_events_shape : forall update ev,
  In ev (update_events update) ->
  exists t d, ev = [("type", PStr t); ("data", PDict d)].
Proof.
  intros update ev H. unfold update_events in H.
  apply in_app_or in H. destruct H as [H|H].
  - destruct (u_delta update) as [delta|]; [|contradiction].
    destruct (truthy delta); [|contradiction].
    destruct H as [H|[]]. subst. unfold text_event. eauto.
  - apply in_app_or in H. destruct H as [H|H].
    + destruct (u_tool_calls update) as [tcs|]; [|contradiction].
      apply in_map_iff in H. destruct H as [tc [H _]]. subst.
      unfold tool_call_event. eauto.
    + destruct (u_delta update); [contradiction|].
      destruct (u_tool_calls update); [contradiction|].
      destruct H as [H|[]]. subst. unfold text_event. eauto.
Qed.

Lemma _run_agent_stream_shape : forall agent message ev,
  In ev (fst (_run_agent_stream agent message)) ->
  exists t d, ev = [("type", PStr t); ("data", PDict d)].
Proof.
  intros agent message ev. unfold _run_agent_stream.
  destruct (agent message) as [updates [e|]]; simpl; intros H.
  - apply in_app_or in H. destruct H as [H|[H|[]]].
    + apply in_flat_map in H. destruct H as [u [_ H]].
      eapply update_events_shape; eauto.
    + subst. unfold error_event. eauto.
  - apply in_flat_map in H. destruct H as [u [_ H]].
    eapply update_events_shape; eauto.
Qed.

(** The events of an agent unit are the plain events of its agent, each
    stamped with the context of the unit. *)
Lemma agent_unit_events : forall tm message n i l a sch ev,
  In ev (fst (run_unit tm message (AgentU n i l a) sch)) ->
  exists t d, ev = _attach_context tm [("type", PStr t); ("data", PDict d)] i l.
Proof.
  intros tm message n i l a sch ev H. cbn [run_unit] in H.
  rewrite for_each_done in H by apply _run_agent_stream_done.
  cbn [yield_then fst app] in H. destruct H as [H|H].
  - subst. unfold notice. eauto.
  - apply in_app_or in H. destruct H as [H|[H|[]]].
    + apply in_map_iff in H. destruct H as [raw [Hraw Hin]].
      apply _run_agent_stream_shape in Hin. destruct Hin as [t [d Hs]].
      subst. eauto.
    + subst. unfold notice. eauto.
Qed.

Lemma context_of_set : forall c e,
  context_of (dict_set "context" (PDict c) e) = c.
Proof. intros. unfold context_of. now rewrite dict_get_set_same. Qed.

Lemma context_of_copy : forall e, context_of (_copy_event e) = context_of e.
Proof.
  intros e. unfold _copy_event.
  assert (D : forall v, context_of (dict_set "data" v e) = context_of e).
  { intros v. unfold context_of.
    now rewrite dict_get_set_other by discriminate. }
  destruct (dict_get "data" e) as [[| | |d]|] eqn:Ed;
    destruct (dict_get "context" e) as [[| | |c]|] eqn:Ec;
    try (unfold context_of; rewrite Ec; reflexivity);
    try (rewrite dict_get_set_other by discriminate; rewrite Ec);
    try (unfold context_of; rewrite dict_get_set_other by discriminate;
         rewrite Ec; reflexivity);
    try (rewrite context_of_set; unfold context_of; now rewrite Ec).
Qed.

Lemma context_of_attach : forall tm e i l,
  context_of (_attach_context tm e i l) = stamp_unit tm (context_of e) i l.
Proof.
  intros. unfold _attach_context. rewrite context_of_set.
  now rewrite context_of_copy.
Qed.

Lemma context_of_forwarded : forall e parent,
  context_of (_append_parent_context e parent) =
  with_parent (context_of e) parent.
Proof.
  intros. unfold _append_parent_context. rewrite context_of_set.
  now rewrite context_of_copy.
Qed.

(** The context after two managers forwarded an event of an agent unit. *)
Lemma lineage_after_two_managers : forall tm t d i l A D,
  unit_id A <> unit_id D ->
  let ev := _attach_context tm [("type", PStr t); ("data", PDict d)] i l in
  let ev' := _append_parent_context (_append_parent_context ev A) D in
  dict_get "lineage" (context_of ev') =
    Some (PList [PStr (unit_id A); PStr (unit_id D)]) /\
  dict_get "unitId" (context_of ev') = Some (PStr i).
Proof.
  intros tm t d i l A D Hne ev ev'. subst ev ev'.
  apply String.eqb_neq in Hne.
  rewrite !context_of_forwarded, context_of_attach.
  change (context_of [("type", PStr t); ("data", PDict d)]) with (@nil (string * pv)).
  unfold stamp_unit, dict_setdefault.
  destruct (dict_get i (execution_units tm)); cbn; rewrite Hne; cbn;
    split; reflexivity.
Qed.

(** C5: in a hierarchy Director -> ManagerA -> AgentX, every event of
    AgentX reaches the stream of the director after both managers added
    themselves to its context; there its [lineage] is the chain of the two
    ancestors in the order the event passed through them, nearest first
    ([managerA; director], the reverse of [director; managerA]), and its
    [unitId] is still the id of AgentX. *)
Theorem lineage_accumulates :
  forall tm message sch
         nD idD lD kD sD csD nA idA lA kA sA csA nX idX lX aX a x ev,
    let agentX := AgentU nX idX lX aX in
    let managerA := ManagerU nA idA lA kA sA csA in
    let director := ManagerU nD idD lD kD sD csD in
    nth_error csD a = Some managerA ->
    nth_error csA x = Some agentX ->
    idA <> idD ->
    In ev (fst (run_unit tm message agentX
                  (nth x (sched_subs (nth a (sched_subs sch) idle)) idle))) ->
    let forwarded :=
      _append_parent_context (_append_parent_context ev managerA) director in
    In forwarded (fst (run_unit tm message director sch)) /\
    dict_get "lineage" (context_of forwarded) =
      Some (PList [PStr idA; PStr idD]) /\
    (match dict_get "lineage" (context_of forwarded) with
     | Some (PList l) => rev l = [PStr idD; PStr idA]
     | _ => False
     end) /\
    dict_get "unitId" (context_of forwarded) = Some (PStr idX).
Proof.
  intros tm message sch nD idD lD kD sD csD nA idA lA kA sA csA
         nX idX lX aX a x ev agentX managerA director HA HX Hne Hev forwarded.
  assert (Hin : In forwarded (fst (run_unit tm message director sch))).
  { eapply children_forwarded; [exact HA|].
    eapply children_forwarded; [exact HX|exact Hev]. }
  destruct (agent_unit_events Hev) as [t [d Hshape]].
  destruct (@lineage_after_two_managers tm t d idX lX managerA director Hne)
    as [Hl Hu].
  subst forwarded. rewrite Hshape. rewrite Hl.
  repeat split; auto. rewrite <- Hshape. exact Hin.
Qed.

Lemma lineage_accumulates_witness :
  let tm :=
    snd (build (init two_level_project echo_factory name_tool_factory)) in
  director_unit tm = Some two_level_director /\
  exists forwarded,
    In forwarded (fst (run_unit tm "hi" two_level_director idle)) /\
    dict_get "lineage" (context_of forwarded) =
      Some (PList [PStr "managerA"; PStr "director"]) /\
    dict_get "unitId" (context_of forwarded) = Some (PStr "agentX").
Proof.
  intros tm. split; [reflexivity|].
  assert (Hne : "managerA" <> "director") by discriminate.
  pose proof (@lineage_accumulates tm "hi" idle
    (plain_node "director" "teamDirector") "director" "director"
    "teamDirector" "sequential" [managerA_unit]
    (plain_node "managerA" "teamManager") "managerA" "managerA"
    "teamManager" "sequential" [agentX_unit]
    (plain_node "agentX" "agent") "agentX" "agentX" echo_agent 0 0
    (_attach_context tm (notice ("agentX" ++ " starting execution"))
       "agentX" "agentX")
    eq_refl eq_refl Hne (or_introl eq_refl)) as [H1 [H2 [_ H3]]].
  eexists. split; [exact H1|]. split; [exact H2|exact H3].
Defined.


(** ** Strategies *)

Lemma append_cancel_l : forall a b c : string, (a ++ b = a ++ c)%string -> b = c.
Proof.
  induction a as [|x a IH]; simpl; intros b c H; auto.
  injection H as H. auto.
Qed.

Lemma data_of_copy : forall e, dict_get "data" (_copy_event e) = dict_get "data" e.
Proof.
  intros e. unfold _copy_event.
  destruct (dict_get "data" e) as [[| | |d]|] eqn:Ed;
    destruct (dict_get "context" e) as [[| | |c]|] eqn:Ec;
    rewrite ?Ec;
    rewrite ?(@dict_get_set_other pv "data" "context") by discriminate;
    rewrite ?Ec;
    rewrite ?(@dict_get_set_other pv "context" "data") by discriminate;
    rewrite ?dict_get_set_same; auto.
Qed.

Lemma attach_notice_data : forall tm m i l,
  dict_get "data" (_attach_context tm (notice m) i l) =
  Some (PDict [("message", PStr m)]).
Proof.
  intros. unfold _attach_context.
  rewrite dict_get_set_other by discriminate.
  rewrite data_of_copy. reflexivity.
Qed.

Lemma attach_notice_inj : forall tm m1 m2 i l,
  _attach_context tm (notice m1) i l = _attach_context tm (notice m2) i l ->
  m1 = m2.
Proof.
  intros tm m1 m2 i l H.
  apply (f_equal (dict_get "data")) in H.
  rewrite !attach_notice_data in H. now inversion H.
Qed.

Lemma attach_notice_via : forall tm m i l,
  dict_get "via" (context_of (_attach_context tm (notice m) i l)) = None.
Proof.
  intros. rewrite context_of_attach.
  change (context_of (notice m)) with (@nil (string * pv)).
  unfold stamp_unit, dict_setdefault.
  destruct (dict_get i (execution_units tm)); reflexivity.
Qed.

Lemma forwarded_via : forall ev parent,
  dict_get "via" (context_of (_append_parent_context ev parent)) =
  Some (PStr (unit_id parent)).
Proof.
  intros. rewrite context_of_forwarded. unfold with_parent.
  rewrite !dict_get_set_other by discriminate.
  apply dict_get_set_same.
Qed.

(** What the stream of [_run_sequential] is made of. *)
Lemma _run_sequential_events : forall tm self children k e,
  In e (fst (_run_sequential tm self children k)) ->
  (exists c, e = _attach_context tm
                   (notice (unit_label self ++ " delegating to "
                            ++ unit_label c))
                   (unit_id self) (unit_label self))
  \/ (exists ev, e = _append_parent_context ev self)
  \/ In e (fst k).
Proof.
  induction children as [|[c s] r IH]; simpl; intros k e H; auto.
  destruct H as [H|H]; [left; eauto|].
  unfold for_each in H.
  destruct (snd s); simpl in H.
  - apply in_app_or in H. destruct H as [H|H].
    + apply in_map_iff in H. destruct H as [ev [H _]]. right; left; eauto.
    + auto.
  - apply in_map_iff in H. destruct H as [ev [H _]]. right; left; eauto.
  - apply in_map_iff in H. destruct H as [ev [H _]]. right; left; eauto.
Qed.

(** What the stream of [_run_concurrent] is made of. *)
Lemma _run_concurrent_events : forall tm self children picks k e,
  In e (fst (_run_concurrent tm self children picks k)) ->
  (exists c, e = _attach_context tm
                   (notice (unit_label self ++ " launching "
                            ++ unit_label c ++ " concurrently"))
                   (unit_id self) (unit_label self))
  \/ (exists ev, e = _append_parent_context ev self)
  \/ In e (fst k).
Proof.
  intros tm self children picks k e H.
  unfold _run_concurrent, yield_then in H. simpl in H.
  apply in_app_or in H. destruct H as [H|H].
  - apply in_map_iff in H. destruct H as [c [H _]]. subst e.
    left. exists (fst c). reflexivity.
  - apply in_app_or in H. destruct H as [H|H]; auto.
    apply in_map_iff in H. destruct H as [ev [H _]]. right; left; eauto.
Qed.

(** C9: the strategy a node declares is lowercased when the unit is
    constructed; a strategy that lowercases to "sequence" (or "sequential")
    runs [_run_sequential] right after the coordinating notice; and the
    stream of a manager with members holds the unrecognized-strategy notice
    exactly when the lowercased strategy is none of "concurrent",
    "sequential", "sequence". *)
Theorem strategy_matching :
  forall tm message node kind s c cs sch,
    d_strategy (n_data node) = Some (Some s) ->
    let label := node_label node in
    let unit :=
      ManagerU node (n_id node) label kind (lower s) (c :: cs) in
    let streams :=
      map_sched (fun c s => (c, run_unit tm message c s))
                (c :: cs) (sched_subs sch) in
    let finished :=
      ([_attach_context tm (notice (label ++ " finished coordination"))
          (n_id node) label], Done) in
    let fallback :=
      _attach_context tm (unrecognized_notice label (lower s))
                      (n_id node) label in
    ManagerUnit node (c :: cs) kind = Ok unit /\
    (In (lower s) ["sequential"; "sequence"] ->
     run_unit tm message unit sch =
       yield_then
         [_attach_context tm
            (coordinating_notice label (lower s) (length (c :: cs)))
            (n_id node) label]
         (_run_sequential tm unit streams finished)) /\
    (In fallback (fst (run_unit tm message unit sch)) <->
     recognized (lower s) = false).
Proof.
  intros tm message node kind s c cs sch Hs label unit streams finished
         fallback.
  split; [unfold ManagerUnit; now rewrite Hs|].
  subst unit. split.
  - intros Hin. cbn [run_unit]. fold streams. fold finished.
    assert (E1 : String.eqb (lower s) "concurrent" = false).
    { destruct Hin as [H|[H|[]]]; rewrite <- H; reflexivity. }
    assert (E2 : str_in (lower s) ["sequential"; "sequence"] = true).
    { now apply str_in_In. }
    rewrite E1, E2. reflexivity.
  - unfold recognized. cbn [run_unit]. fold streams. fold finished.
    cbn [str_in existsb].
    destruct (String.eqb (lower s) "concurrent") eqn:E1;
      [|destruct (str_in (lower s) ["sequential"; "sequence"]) eqn:E2];
      cbn [str_in existsb] in *; rewrite ?E2; cbn [orb].
    + split; [|discriminate]. intros H. exfalso.
      cbn [yield_then fst app] in H. destruct H as [H|H].
      * apply attach_notice_inj in H. apply append_cancel_l in H.
        discriminate H.
      * apply _run_concurrent_events in H.
        destruct H as [[c' H]|[[ev H]|[H|[]]]].
        -- apply attach_notice_inj in H. cbn [unit_label] in H.
           apply append_cancel_l in H. discriminate H.
        -- apply (f_equal (fun e => dict_get "via" (context_of e))) in H.
           rewrite forwarded_via in H. unfold fallback, unrecognized_notice in H.
           rewrite attach_notice_via in H. discriminate H.
        -- apply attach_notice_inj in H. apply append_cancel_l in H.
           discriminate H.
    + split; [|discriminate]. intros H. exfalso.
      cbn [yield_then fst app] in H. destruct H as [H|H].
      * apply attach_notice_inj in H. apply append_cancel_l in H.
        discriminate H.
      * apply _run_sequential_events in H.
        destruct H as [[c' H]|[[ev H]|[H|[]]]].
        -- apply attach_notice_inj in H. cbn [unit_label] in H.
           apply append_cancel_l in H. discriminate H.
        -- apply (f_equal (fun e => dict_get "via" (context_of e))) in H.
           rewrite forwarded_via in H. unfold fallback, unrecognized_notice in H.
           rewrite attach_notice_via in H. discriminate H.
        -- apply attach_notice_inj in H. apply append_cancel_l in H.
           discriminate H.
    + split; [reflexivity|]. intros _.
      cbn [yield_then fst app]. right. left. reflexivity.
Qed.

Lemma strategy_matching_witness :
  let tm := init lonely_project echo_factory name_tool_factory in
  let node := strategy_node "m" "teamManager" "Sequence" in
  ManagerUnit node [agentX_unit] "teamManager" =
    Ok (ManagerU node "m" "m" "teamManager" "sequence" [agentX_unit]) /\
  ~ In (_attach_context tm (unrecognized_notice "m" "sequence") "m" "m")
       (fst (run_unit tm "hi"
               (ManagerU node "m" "m" "teamManager" "sequence" [agentX_unit])
               idle)).
Proof.
  intros tm node.
  destruct (@strategy_matching tm "hi" node "teamManager" "Sequence"
              agentX_unit [] idle eq_refl) as [H1 [_ H3]].
  split; [exact H1|].
  intros Hin. apply H3 in Hin. discriminate Hin.
Defined.


(** ** Building once *)

(** C7: once [build] has returned a summary, a second call returns the
    same summary and leaves the whole state as it is, the record of factory
    calls included: no tool or agent is constructed again. *)
Theorem build_idempotent : forall tm s tm',
  build tm = (Ok s, tm') ->
  build tm' = (Ok s, tm') /\ calls (snd (build tm')) = calls tm'.
Proof.
  intros tm s tm' H.
  assert (G : build tm' = (Ok s, tm')).
  { unfold build in H. destruct (_built tm) eqn:B.
    - inversion H; subst. unfold build. now rewrite B.
    - destruct (build_managers _ _) as [[[]| |] tm1]; try discriminate.
      destruct (_build_director_unit _) as [[d| |] tm2]; try discriminate.
      inversion H; subst. reflexivity. }
  split; [exact G|]. now rewrite G.
Qed.

Lemma build_idempotent_witness :
  let tm := init small_team_project echo_factory name_tool_factory in
  let tm' := snd (build tm) in
  fst (build tm') =
    Ok {| s_agents := 1; s_team_managers := 1; s_tools := 1;
          s_director := true |} /\
  length (calls tm') = 2 /\
  calls (snd (build tm')) = calls tm'.
Proof.
  intros tm tm'.
  assert (H : build tm =
              (Ok {| s_agents := 1; s_team_managers := 1; s_tools := 1;
                     s_director := true |}, tm')).
  { vm_compute. reflexivity. }
  destruct (build_idempotent _ H) as [H1 H2].
  split; [rewrite H1; reflexivity|].
  split; [vm_compute; reflexivity|exact H2].
Defined.

(** ** What the resolver leaves alone *)

Lemma _build_tools_graph : forall tm, graph_of (_build_tools tm) = graph_of tm.
Proof.
  intros tm. unfold _build_tools.
  assert (G : forall l t, graph_of
            (fold_left
               (fun tm (item : string * Node) =>
                  let (node_id, node) := item in
                  if negb (String.eqb (n_kind node) "tool") then tm
                  else
                    let tm := log_call (CallBuildTool node) tm in
                    match tool_factory tm node with
                    | ToolBuilt tool =>
                        set_tools (dict_set node_id tool (tools tm)) tm
                    | ToolFalsy => tm
                    | ToolRaised => tm
                    end) l t) = graph_of t).
  { induction l as [|[i n] r IH]; intros t; simpl; auto.
    rewrite IH. destruct (negb _); auto.
    destruct (tool_factory _ _); reflexivity. }
  apply G.
Qed.

Lemma _build_agent_unit_graph : forall agent_id tm,
  graph_of (snd (_build_agent_unit agent_id tm)) = graph_of tm.
Proof.
  intros. unfold _build_agent_unit.
  destruct (dict_get agent_id (agent_units tm)); auto.
  destruct (or_node _ _); auto.
  destruct (agent_factory _ _ _); reflexivity.
Qed.

Lemma _build_agent_unit_manager_units : forall agent_id tm,
  manager_units (snd (_build_agent_unit agent_id tm)) = manager_units tm.
Proof.
  intros. unfold _build_agent_unit.
  destruct (dict_get agent_id (agent_units tm)); auto.
  destruct (or_node _ _); auto.
  destruct (agent_factory _ _ _); reflexivity.
Qed.

Lemma build_agents_graph : forall tm, graph_of (build_agents tm) = graph_of tm.
Proof.
  intros tm. unfold build_agents.
  generalize (agent_node_ids tm). intros l. revert tm.
  induction l as [|a r IH]; intros tm; simpl; auto.
  rewrite IH. apply _build_agent_unit_graph.
Qed.

Lemma _resolve_children_graph : forall tm tm' i kinds,
  graph_of tm' = graph_of tm ->
  _resolve_children tm' i kinds = _resolve_children tm i kinds.
Proof.
  intros tm tm' i kinds G. unfold graph_of in G.
  unfold _resolve_children. inversion G. reflexivity.
Qed.

Lemma child_rel_graph : forall tm tm' m c,
  graph_of tm' = graph_of tm -> child_rel tm' m c <-> child_rel tm m c.
Proof.
  intros tm tm' m c G. unfold child_rel.
  rewrite (_resolve_children_graph _ _ G).
  unfold graph_of in G. inversion G. reflexivity.
Qed.

Lemma graph_nodes : forall tm tm',
  graph_of tm' = graph_of tm -> nodes tm' = nodes tm.
Proof. intros tm tm' G. unfold graph_of in G. now inversion G. Qed.

Lemma graph_manager_nodes : forall tm tm',
  graph_of tm' = graph_of tm -> manager_nodes tm' = manager_nodes tm.
Proof. intros tm tm' G. unfold graph_of in G. now inversion G. Qed.

Lemma graph_ok_graph : forall tm tm',
  graph_of tm' = graph_of tm -> graph_ok tm -> graph_ok tm'.
Proof.
  intros tm tm' G W k n H. unfold graph_ok in W.
  rewrite (graph_nodes G). rewrite (graph_manager_nodes G) in H. eauto.
Qed.

(** ** Chains and the order of construction *)

Lemma chain_snoc : forall (R : string -> string -> Prop) l a b,
  chain R (l ++ [a]) -> R a b -> chain R ((l ++ [a]) ++ [b]).
Proof.
  induction l as [|x l IH]; intros a b H Hab.
  - simpl. auto.
  - simpl in *. destruct (l ++ [a]) as [|y r] eqn:E.
    + destruct l; discriminate.
    + simpl. destruct H as [Hxy Hr]. split; auto.
      specialize (IH a b). rewrite E in IH. apply IH; auto.
Qed.

Lemma chain_suffix : forall (R : string -> string -> Prop) pre l,
  chain R (pre ++ l) -> chain R l.
Proof.
  induction pre as [|x pre IH]; intros l H; auto.
  simpl in H. destruct (pre ++ l) as [|y r] eqn:E.
  - destruct pre; destruct l; try discriminate; exact I.
  - apply IH. rewrite E. tauto.
Qed.





(** ** The recursion of [_ensure_manager_unit] *)

Lemma ensure_post_weaken :
  forall (A : Type) tm0 R (P Q : TeamManager -> Prop) stack tm_a tm_b
         (r : result A) stack' tm',
    incl (dict_keys (manager_units tm_a)) (dict_keys (manager_units tm_b)) ->
    (ordered R tm' -> P tm' -> Q tm') ->
    ensure_post tm0 R P stack tm_b r stack' tm' ->
    ensure_post tm0 R Q stack tm_a r stack' tm'.
Proof.
  intros A tm0 R P Q stack tm_a tm_b r stack' tm' Hincl HPQ [G [I H]].
  unfold ensure_post. repeat split; auto.
  - eapply incl_tran; eauto.
  - destruct r; auto. destruct H as [Hs [Ho Hp]]. auto.
Qed.

Lemma ensure_children_spec :
  forall tm0 R rec m stack1,
    (forall c tm r stack' tm',
        graph_of tm = graph_of tm0 -> ordered R tm -> child_rel tm0 m c ->
        rec c stack1 tm = (r, stack', tm') ->
        ensure_post tm0 R
          (fun tm' => In c (dict_keys (manager_units tm')))
          stack1 tm r stack' tm') ->
    forall child_ids acc tm r stack' tm',
      incl child_ids (_resolve_children tm0 m ["agent"; "teamManager"]) ->
      graph_of tm = graph_of tm0 -> ordered R tm ->
      ensure_children rec child_ids acc stack1 tm = (r, stack', tm') ->
      ensure_post tm0 R
        (fun tm' => forall c, In c child_ids -> child_rel tm0 m c ->
                              In c (dict_keys (manager_units tm')))
        stack1 tm r stack' tm'.
Proof.
  intros tm0 R rec m stack1 Hrec.
  induction child_ids as [|c rest IH]; intros acc tm r stack' tm' Hres G O E.
  - simpl in E. inversion E; subst. unfold ensure_post.
    repeat split; auto using incl_refl. intros c [].
  - assert (Hrest : incl rest (_resolve_children tm0 m ["agent"; "teamManager"])).
    { intros x Hx. apply Hres. now right. }
    simpl in E. rewrite (graph_nodes G) in E.
    destruct (dict_get c (nodes tm0)) as [cn|] eqn:Ec.
    + destruct (String.eqb (n_kind cn) "agent") eqn:Ka.
      * (* an agent child *)
        apply String.eqb_eq in Ka.
        pose proof (_build_agent_unit_graph c tm) as G1.
        pose proof (_build_agent_unit_manager_units c tm) as M1.
        destruct (_build_agent_unit c tm) as [o tm1]. simpl in G1, M1.
        assert (G1' : graph_of tm1 = graph_of tm0) by congruence.
        assert (O1 : ordered R tm1) by (unfold ordered in *; now rewrite M1).
        eapply ensure_post_weaken with (tm_b := tm1);
          [rewrite M1; apply incl_refl| |destruct o; eapply IH; eauto].
        intros _ P c' [Hc|Hc] Hrel; [subst c'|auto].
        destruct Hrel as [_ [node [Hn Hk]]]. rewrite Ec in Hn.
        inversion Hn; subst. rewrite Ka in Hk. discriminate Hk.
      * destruct (String.eqb (n_kind cn) "teamManager") eqn:Km.
        -- (* a manager child *)
           apply String.eqb_eq in Km.
           assert (Hrel : child_rel tm0 m c).
           { split; [apply Hres; now left|eauto]. }
           destruct (rec c stack1 tm) as [[rc sc] tmc] eqn:Erec.
           pose proof (Hrec c tm rc sc tmc G O Hrel Erec) as Pc.
           destruct Pc as [Gc [Ic Pc]].
           destruct rc as [oc| |].
           ++ destruct Pc as [Sc [Oc Inc]]. subst sc.
              assert (P : ensure_post tm0 R
                        (fun tm' => forall c, In c rest -> child_rel tm0 m c ->
                                    In c (dict_keys (manager_units tm')))
                        stack1 tmc r stack' tm').
              { destruct oc; eapply IH; eauto. }
              pose proof P as [_ [Ifin _]].
              eapply ensure_post_weaken with (tm_b := tmc); [exact Ic| |exact P].
              intros _ Q c' [Hc|Hc] Hr; [subst c'; auto|auto].
           ++ inversion E; subst. unfold ensure_post. auto.
           ++ contradiction.
        -- (* a node of another kind *)
           apply String.eqb_neq in Km.
           eapply ensure_post_weaken with (tm_b := tm);
             [apply incl_refl| |eapply IH; eauto].
           intros _ P c' [Hc|Hc] Hrel; [subst c'|auto].
           destruct Hrel as [_ [node [Hn Hk]]]. rewrite Ec in Hn.
           inversion Hn; subst. contradiction.
    + (* no such node *)
      eapply ensure_post_weaken with (tm_b := tm);
        [apply incl_refl| |eapply IH; eauto].
      intros _ P c' [Hc|Hc] Hrel; [subst c'|auto].
      destruct Hrel as [_ [node [Hn Hk]]]. rewrite Ec in Hn. discriminate Hn.
Qed.

Lemma or_node_found : forall tm0 m node,
  graph_ok tm0 ->
  or_node (dict_get m (manager_nodes tm0)) (dict_get m (nodes tm0)) = Some node ->
  In m (dict_keys (nodes tm0)) /\
  (dict_get m (nodes tm0) = Some node \/
   dict_get m (manager_nodes tm0) = Some node).
Proof.
  intros tm0 m node W1 H. unfold or_node in H.
  destruct (dict_get m (manager_nodes tm0)) as [n|] eqn:E.
  - inversion H; subst. split; [eapply W1; eauto|auto].
  - split; [eapply dict_get_In; eauto|auto].
Qed.

Lemma or_node_missing : forall tm0 m,
  or_node (dict_get m (manager_nodes tm0)) (dict_get m (nodes tm0)) = None ->
  dict_get m (nodes tm0) = None.
Proof.
  intros tm0 m H. unfold or_node in H.
  destruct (dict_get m (manager_nodes tm0)); [discriminate|auto].
Qed.

Lemma stack_bound : forall (V : Type) m stack (d : dict V) fuel,
  NoDup stack -> ~ In m stack -> incl stack (dict_keys d) ->
  In m (dict_keys d) -> length d <= fuel + length stack -> fuel <> 0.
Proof.
  intros V m stack d fuel ND Hm Hincl Hin Hlen Hf. subst fuel.
  assert (H : length (m :: stack) <= length (dict_keys d)).
  { apply NoDup_incl_length; [now constructor|].
    intros x [Hx|Hx]; [now subst|auto]. }
  unfold dict_keys in H. rewrite length_map in H. simpl in *. lia.
Qed.

Lemma ensure_spec :
  forall tm0 (R : string -> string -> Prop),
  graph_ok tm0 -> (forall a b, R a b -> child_rel tm0 a b) ->
  forall fuel m stack tm r stack' tm',
    graph_of tm = graph_of tm0 -> ordered R tm ->
    chain (child_rel tm0) (stack ++ [m]) ->
    NoDup stack -> incl stack (dict_keys (nodes tm0)) ->
    length (nodes tm0) <= fuel + length stack ->
    _ensure_manager_unit fuel m stack tm = (r, stack', tm') ->
    ensure_post tm0 R
      (fun tm' => dict_get m (nodes tm0) <> None ->
                  In m (dict_keys (manager_units tm')))
      stack tm r stack' tm'.
Proof.
  intros tm0 R Wok HR.
  induction fuel as [|fuel IH];
    intros m stack tm r stack' tm' G O C ND Hincl Hlen E.
  all: cbn [_ensure_manager_unit] in E.
  all: destruct (dict_get m (manager_units tm)) as [u|] eqn:Em;
    [inversion E; subst; unfold ensure_post;
     repeat split; auto using incl_refl;
     intros _; eapply dict_get_In; eauto|].
  all: rewrite (graph_manager_nodes G), (graph_nodes G) in E.
  all: destruct (or_node (dict_get m (manager_nodes tm0))
                         (dict_get m (nodes tm0))) as [node|] eqn:En;
    [|inversion E; subst; unfold ensure_post;
      repeat split; auto using incl_refl;
      intros H; apply or_node_missing in En; contradiction].
  all: pose proof (or_node_found _ Wok En) as [Hkey Hnode].
  all: destruct (str_in m stack) eqn:Es;
    [inversion E; subst; unfold ensure_post;
     repeat split; auto using incl_refl;
     apply str_in_In in Es; apply in_split in Es;
     destruct Es as [pre [cyc Es]]; left;
     exists (stack' ++ [m]), m, cyc; repeat split; auto;
     exists pre; rewrite Es; rewrite <- app_assoc; reflexivity|].
  - exfalso.
    assert (Hm : ~ In m stack).
    { intros Hin. apply str_in_In in Hin. congruence. }
    exact (@stack_bound _ m stack (nodes tm0) 0 ND Hm Hincl Hkey Hlen eq_refl).
  - assert (Hm : ~ In m stack).
    { intros Hin. apply str_in_In in Hin. congruence. }
    rewrite (_resolve_children_graph m ["agent"; "teamManager"] G) in E.
    destruct (ensure_children (_ensure_manager_unit fuel)
                (_resolve_children tm0 m ["agent"; "teamManager"]) []
                (stack ++ [m]) tm) as [[rc sc] tmc] eqn:Ech.
    assert (Pc : ensure_post tm0 R
              (fun tm' =>
                 forall c,
                   In c (_resolve_children tm0 m ["agent"; "teamManager"]) ->
                   child_rel tm0 m c ->
                   In c (dict_keys (manager_units tm')))
              (stack ++ [m]) tm rc sc tmc).
    { eapply ensure_children_spec;
        [|apply incl_refl|exact G|exact O|exact Ech].
      intros c tmx rx sx tmx' Gx Ox Hrel Ex.
      eapply ensure_post_weaken with (tm_b := tmx);
        [apply incl_refl| |eapply IH; eauto].
      - intros _ P. apply P.
        destruct Hrel as [_ [node' [Hn _]]]. congruence.
      - apply chain_snoc; auto.
      - apply NoDup_app; auto.
        + constructor; [intros []|constructor].
        + intros x Hx [Hx'|[]]. subst x. contradiction.
      - intros x Hx. apply in_app_or in Hx. destruct Hx as [Hx|[Hx|[]]].
        + auto.
        + subst x. exact Hkey.
      - rewrite length_app. simpl. lia. }
    destruct Pc as [Gc [Ic Pc]]. destruct rc as [units|e|].
    + destruct Pc as [Sc [Oc Inc]]. subst sc.
      rewrite removelast_last in E.
      destruct (ManagerUnit node units "teamManager") as [unit|e|] eqn:EM.
      * inversion E; subst r stack' tm'. clear E.
        unfold ensure_post. split; [exact Gc|].
        unfold ordered.
        cbn [manager_units set_execution_units set_manager_units].
        rewrite dict_keys_set.
        destruct (dict_mem m (manager_units tmc)) eqn:Emem.
        -- repeat split; auto. intros _.
           unfold dict_mem in Emem.
           destruct (dict_get m (manager_units tmc)) eqn:Eg; [|discriminate].
           eapply dict_get_In; eauto.
        -- split; [intros x Hx; apply in_or_app; left; auto|].
           split; [reflexivity|]. split.
           ++ rewrite rev_unit. split; [|exact Oc].
              intros c Hrel. apply HR in Hrel.
              apply -> in_rev. apply Inc; auto.
              now destruct Hrel.
           ++ intros _. apply in_or_app. right. now left.
      * inversion E; subst r stack' tm'. clear E.
        unfold ensure_post. repeat split; auto.
        right. unfold ManagerUnit in EM.
        destruct (d_strategy (n_data node)) as [[x|]|] eqn:Ed;
          try discriminate.
        inversion EM; subst e. split; [eauto|].
        intros W2. apply (W2 _ _ Hnode). exact Ed.
      * exfalso. unfold ManagerUnit in EM.
        destruct (d_strategy (n_data node)) as [[x|]|]; discriminate.
    + inversion E; subst. unfold ensure_post. auto.
    + contradiction.
Qed.

(** ** The loop over the manager nodes *)

Lemma children_first_none : forall l, children_first (fun _ _ => False) l.
Proof. induction l; simpl; auto. split; [intros c []|auto]. Qed.

Lemma build_managers_spec :
  forall tm0 (R : string -> string -> Prop),
  graph_ok tm0 -> (forall a b, R a b -> child_rel tm0 a b) ->
  forall ids tm r tm',
    graph_of tm = graph_of tm0 -> ordered R tm ->
    build_managers ids tm = (r, tm') ->
    ensure_post tm0 R
      (fun tm' => forall m, In m ids -> dict_get m (nodes tm0) <> None ->
                            In m (dict_keys (manager_units tm')))
      [] tm r [] tm'.
Proof.
  intros tm0 R Wok HR.
  induction ids as [|m rest IH]; intros tm r tm' G O E.
  - simpl in E. inversion E; subst. unfold ensure_post.
    repeat split; auto using incl_refl. intros m [].
  - simpl in E. unfold ensure_fuel in E. rewrite (graph_nodes G) in E.
    destruct (_ensure_manager_unit (length (nodes tm0)) m [] tm)
      as [[rm sm] tmm] eqn:Em.
    assert (Pm : ensure_post tm0 R
              (fun tm' => dict_get m (nodes tm0) <> None ->
                          In m (dict_keys (manager_units tm')))
              [] tm rm sm tmm).
    { eapply ensure_spec; eauto.
      - exact I.
      - constructor.
      - intros x [].
      - simpl. lia. }
    destruct Pm as [Gm [Im Pm]]. destruct rm as [o|e|].
    + destruct Pm as [Sm [Om Inm]].
      pose proof (IH _ _ _ Gm Om E) as P.
      pose proof P as [_ [Ifin _]].
      eapply ensure_post_weaken with (tm_b := tmm); [exact Im| |exact P].
      intros _ Q m' [Hm|Hm] Hn; [subst m'; auto|auto].
    + inversion E; subst. unfold ensure_post. auto.
    + contradiction.
Qed.

(** ** The state [__init__] leaves *)

Lemma nodes_of_list : forall ns d0 k n,
  dict_get k (fold_left (fun d n => dict_set (n_id n) n d) ns d0) = Some n ->
  (In n ns /\ n_id n = k) \/ dict_get k d0 = Some n.
Proof.
  induction ns as [|a r IH]; intros d0 k n H; simpl in H; auto.
  apply IH in H. destruct H as [[H1 H2]|H].
  - left. split; [now right|auto].
  - destruct (String.eqb (n_id a) k) eqn:E.
    + apply String.eqb_eq in E. subst k. rewrite dict_get_set_same in H.
      inversion H; subst. left. split; [now left|auto].
    + apply String.eqb_neq in E. rewrite dict_get_set_other in H by auto.
      auto.
Qed.

Lemma sub_dict_get : forall (all : dict Node) ids (d0 : dict Node) k n,
  dict_get k
    (fold_left (fun d i => match dict_get i all with
                           | Some n => dict_set i n d
                           | None => d
                           end) ids d0) = Some n ->
  dict_get k all = Some n \/ dict_get k d0 = Some n.
Proof.
  induction ids as [|i r IH]; intros d0 k n H; simpl in H; auto.
  apply IH in H. destruct H as [H|H]; auto.
  destruct (dict_get i all) as [ni|] eqn:Ei; auto.
  destruct (String.eqb i k) eqn:E.
  - apply String.eqb_eq in E. subst k. rewrite dict_get_set_same in H.
    inversion H; subst. auto.
  - apply String.eqb_neq in E. rewrite dict_get_set_other in H by auto. auto.
Qed.

Lemma init_node : forall project af tf k n,
  dict_get k (nodes (init project af tf)) = Some n ->
  In n (p_nodes project) /\ n_id n = k.
Proof.
  intros project af tf k n H. cbn [init nodes] in H.
  apply nodes_of_list in H. destruct H as [H|H]; [auto|discriminate H].
Qed.

Lemma init_manager_node : forall project af tf k n,
  dict_get k (manager_nodes (init project af tf)) = Some n ->
  dict_get k (nodes (init project af tf)) = Some n.
Proof.
  intros project af tf k n H. cbn [init nodes manager_nodes] in *.
  unfold sub_dict in H. apply sub_dict_get in H.
  destruct H as [H|H]; [auto|discriminate H].
Qed.

Lemma init_graph_ok : forall project af tf, graph_ok (init project af tf).
Proof.
  intros project af tf k n H. apply init_manager_node in H.
  eapply dict_get_In; eauto.
Qed.

Lemma init_strategies_ok : forall project af tf,
  (forall n, In n (p_nodes project) -> d_strategy (n_data n) <> Some None) ->
  strategies_ok (init project af tf).
Proof.
  intros project af tf Hs k n [H|H].
  - apply init_node in H. now apply Hs.
  - apply init_manager_node, init_node in H. now apply Hs.
Qed.

Lemma init_manager_ids : forall project af tf k n,
  dict_get k (nodes (init project af tf)) = Some n ->
  n_kind n = "teamManager" ->
  In k (manager_node_ids (init project af tf)).
Proof.
  intros project af tf k n H Hk. apply init_node in H.
  destruct H as [Hin Hid]. cbn [init manager_node_ids].
  unfold ids_of_kind. rewrite <- Hid. apply in_map.
  apply filter_In. split; auto. rewrite Hk. reflexivity.
Qed.

Lemma _build_tools_frame : forall (X : Type) (f : TeamManager -> X),
  (forall c t, f (log_call c t) = f t) ->
  (forall v t, f (set_tools v t) = f t) ->
  forall tm, f (_build_tools tm) = f tm.
Proof.
  intros X f Hlog Hset tm. unfold _build_tools.
  generalize (nodes tm) at 1. intros l. revert tm.
  induction l as [|[i n] r IH]; intros tm; simpl; auto.
  rewrite IH. destruct (negb _); auto.
  destruct (tool_factory _ _); rewrite ?Hset, ?Hlog; auto.
Qed.


(** ** Edges and resolved children *)

Lemma truthy_opt_Some : forall o s, truthy_opt o = Some s -> o = Some s.
Proof.
  intros [x|] s H; simpl in H; [|discriminate].
  destruct (truthy x); [auto|discriminate].
Qed.

Lemma _resolve_children_edge : forall tm a kinds b,
  In b (_resolve_children tm a kinds) ->
  exists e, In e (edges tm) /\ e_source e = Some a /\ e_target e = Some b.
Proof.
  intros tm a kinds b H. unfold _resolve_children in H.
  apply in_flat_map in H. destruct H as [e [He H]].
  exists e. split; auto.
  destruct (e_source e) as [s|]; [|contradiction].
  destruct (String.eqb s a) eqn:Es; [|contradiction]. simpl in H.
  apply String.eqb_eq in Es. subst s. split; auto.
  destruct (truthy_opt (e_target e)) as [t|] eqn:Et; [|contradiction].
  apply truthy_opt_Some in Et. rewrite Et.
  destruct (dict_get t (nodes tm)); [|contradiction].
  destruct kinds; [|destruct (str_in _ _)];
    try contradiction; destruct H as [H|[]]; now subst.
Qed.



Lemma chain_targets : forall (R : string -> string -> Prop) l x y,
  chain R (x :: l) -> In y l -> exists z, R z y.
Proof.
  induction l as [|a r IH]; intros x y H Hy; [contradiction|].
  simpl in H. destruct H as [Hxa Hr]. destruct Hy as [Hy|Hy].
  - subst. eauto.
  - eapply IH; eauto.
Qed.

Lemma chain_impl : forall (R R' : string -> string -> Prop) l,
  (forall a b, In a l -> R a b -> R' a b) -> chain R l -> chain R' l.
Proof.
  induction l as [|a r IH]; intros Himp H; simpl in *; auto.
  destruct r as [|b r']; auto. destruct H as [Hab Hr]. split.
  - apply Himp; auto.
  - apply IH; [|exact Hr]. intros x y Hx. apply Himp. now right.
Qed.

(** A chain of resolved manager children that returns to its first element
    is a cycle of teamManager-to-teamManager edges. *)
Lemma cycle_of_manager_edges : forall tm c cyc,
  chain (child_rel tm) (c :: cyc ++ [c]) ->
  chain (manager_edge tm) (c :: cyc ++ [c]).
Proof.
  intros tm c cyc H.
  assert (Hnode : forall a, In a (c :: cyc ++ [c]) ->
            exists na, dict_get a (nodes tm) = Some na /\
                       n_kind na = "teamManager").
  { intros a Ha.
    assert (Ha' : In a (cyc ++ [c])).
    { destruct Ha as [Ha|Ha]; auto. subst a.
      apply in_or_app. right. now left. }
    destruct (@chain_targets _ _ _ _ H Ha') as [z [_ Hz]]. exact Hz. }
  eapply chain_impl; [|exact H].
  intros a b Ha [Hres Hb]. split; [|split; auto].
  eapply _resolve_children_edge; eauto.
Qed.

(** ** The message of the cycle error *)

Lemma append_assoc' : forall a b c : string,
  ((a ++ b) ++ c = a ++ (b ++ c))%string.
Proof. induction a; simpl; intros; [auto|now rewrite IHa]. Qed.




(** ** Cycles among the managers *)

Lemma graph_manager_node_ids : forall tm tm',
  graph_of tm' = graph_of tm -> manager_node_ids tm' = manager_node_ids tm.
Proof. intros tm tm' G. unfold graph_of in G. now inversion G. Qed.



(** ** Where an exception of the resolver comes from *)







(** ** [build] always ends *)

Lemma ManagerUnit_fuel : forall node children kind,
  ManagerUnit node children kind <> OutOfFuel.
Proof.
  intros. unfold ManagerUnit.
  destruct (d_strategy (n_data node)) as [[x|]|]; discriminate.
Qed.

Lemma director_children_spec :
  forall tm0, graph_ok tm0 ->
  forall ids acc tm r tm',
    graph_of tm = graph_of tm0 ->
    director_children ids acc tm = (r, tm') ->
    graph_of tm' = graph_of tm0 /\ r <> OutOfFuel.
Proof.
  intros tm0 Wok. induction ids as [|c rest IH]; intros acc tm r tm' G E.
  - simpl in E. inversion E; subst. split; [auto|discriminate].
  - simpl in E.
    destruct (dict_get c (execution_units tm)); [eapply IH; eauto|].
    destruct (dict_get c (nodes tm)) as [cn|]; [|eapply IH; eauto].
    destruct (String.eqb (n_kind cn) "agent").
    + pose proof (_build_agent_unit_graph c tm) as G1.
      destruct (_build_agent_unit c tm) as [o tm1]. simpl in G1.
      assert (G1' : graph_of tm1 = graph_of tm0) by congruence.
      destruct o; eapply IH; eauto.
    + destruct (String.eqb (n_kind cn) "teamManager"); [|eapply IH; eauto].
      unfold ensure_fuel in E. rewrite (graph_nodes G) in E.
      destruct (_ensure_manager_unit (length (nodes tm0)) c [] tm)
        as [[rc sc] tmc] eqn:Ec.
      assert (P : ensure_post tm0 (fun _ _ => False)
                (fun tm' => dict_get c (nodes tm0) <> None ->
                            In c (dict_keys (manager_units tm')))
                [] tm rc sc tmc).
      { eapply ensure_spec; eauto.
        - intros a b [].
        - apply children_first_none.
        - exact I.
        - constructor.
        - intros x [].
        - simpl. lia. }
      destruct P as [Gc [_ P]]. destruct rc as [[u|]|e|].
      * eapply IH; eauto.
      * eapply IH; eauto.
      * inversion E; subst. split; [auto|discriminate].
      * contradiction.
Qed.

Lemma graph_ok_set_nodes : forall tm k node,
  graph_ok tm -> graph_ok (set_nodes (dict_set k node (nodes tm)) tm).
Proof.
  intros tm k node W k' n H. cbn [set_nodes nodes manager_nodes] in *.
  apply W in H. rewrite dict_keys_set.
  destruct (dict_mem k (nodes tm)); [auto|apply in_or_app; auto].
Qed.

Lemma _build_director_unit_total : forall tm,
  graph_ok tm -> fst (_build_director_unit tm) <> OutOfFuel.
Proof.
  intros tm W. unfold _build_director_unit.
  set (pair := match director_node tm with
               | Some node => (node, tm)
               | None =>
                   (synthesized_director (settings tm),
                    set_nodes
                      (dict_set (n_id (synthesized_director (settings tm)))
                         (synthesized_director (settings tm)) (nodes tm)) tm)
               end).
  assert (W5 : graph_ok (snd pair)).
  { unfold pair. destruct (director_node tm); simpl; auto.
    now apply graph_ok_set_nodes. }
  destruct pair as [node tm5]. simpl in W5.
  match goal with
  | |- context [director_children ?ids [] tm5] =>
      destruct (director_children ids [] tm5) as [r tm6] eqn:E
  end.
  destruct (@director_children_spec tm5 W5 _ _ tm5 _ _ eq_refl E) as [_ Hr].
  destruct r as [[|u us]|e|]; simpl; try discriminate; try contradiction.
  pose proof (ManagerUnit_fuel node (u :: us) (n_kind node)) as HM.
  destruct (ManagerUnit node (u :: us) (n_kind node)); simpl;
    try discriminate; contradiction.
Qed.

(** [build] takes the early return, returns a summary or raises; it never
    reaches the recursion bound. *)
Lemma build_total : forall tm, graph_ok tm -> fst (build tm) <> OutOfFuel.
Proof.
  intros tm W. unfold build. destruct (_built tm); [discriminate|].
  set (tm2 := build_agents (_build_tools tm)).
  assert (G2 : graph_of tm2 = graph_of tm).
  { unfold tm2. rewrite build_agents_graph. apply _build_tools_graph. }
  cbv zeta. fold tm2.
  destruct (build_managers (manager_node_ids tm2) tm2) as [r tm3] eqn:E.
  assert (P : ensure_post tm (fun _ _ => False)
            (fun tm' => forall m, In m (manager_node_ids tm2) ->
                        dict_get m (nodes tm) <> None ->
                        In m (dict_keys (manager_units tm')))
            [] tm2 r [] tm3).
  { eapply build_managers_spec; eauto.
    - intros a b [].
    - apply children_first_none. }
  destruct P as [G3 [_ P]].
  destruct r as [o|e|]; [|discriminate|contradiction].
  set (tm4 := set_root_manager_ids (_compute_root_manager_ids tm3) tm3).
  assert (W4 : graph_ok tm4).
  { apply graph_ok_graph with (tm := tm); auto. }
  pose proof (_build_director_unit_total W4) as Hd.
  destruct (_build_director_unit tm4) as [[d|e|] tm5]; simpl in *;
    try discriminate; contradiction.
Qed.

(** ** The notices around a run *)

Lemma run_in_turn_done : forall streams,
  Forall (fun s : Stream Event => snd s = Done) streams ->
  snd (run_in_turn streams) = Done.
Proof.
  induction streams as [|s r IH]; intros H; simpl; auto.
  inversion H; subst. rewrite for_each_done by assumption. simpl. auto.
Qed.

Lemma run_units_done : forall tm message units subs,
  Forall (fun s : Stream Event => snd s = Done)
         (map_sched (fun u s => run_unit tm message u s) units subs).
Proof.
  induction units as [|u r IH]; intros subs; simpl; constructor.
  - apply run_unit_done.
  - apply IH.
Qed.

Lemma dispatch_done : forall tm message target sch,
  snd (dispatch tm message target sch) = Done.
Proof.
  intros. unfold dispatch. destruct (String.eqb target "team").
  - cbn [yield_then snd]. destruct (director_unit tm).
    + apply run_unit_done.
    + assert (H : snd (_run_without_director tm message sch) = Done).
      { unfold _run_without_director. apply run_in_turn_done, run_units_done. }
      destruct (_run_without_director tm message sch) as [evs out].
      simpl in *. subst out. destruct evs; reflexivity.
  - destruct (dict_get target (execution_units tm)).
    + apply run_unit_done.
    + reflexivity.
Qed.

(** C2, as amended: when the hierarchy is already built, or the build the
    run performs succeeds, the stream of [run_stream] begins with the
    starting notice and ends with the complete notice, whatever the target
    and whatever the units report in between, and no exception leaves it;
    when that build raises, the stream is the starting notice alone and the
    exception leaves the generator.  The build always ends.  The
    orchestrator is one whose [manager_nodes] holds keys of [nodes] only,
    as [__init__] leaves it ([init_graph_ok]). *)
Theorem run_stream_framing :
  forall tm message target sch,
    graph_ok tm ->
    let stream := fst (run_stream tm message target sch) in
    let framed :=
      exists mid, stream = (starting_notice :: mid ++ [complete_notice], Done) in
    if _built tm then framed
    else match fst (build tm) with
         | Ok _ => framed
         | Raise e => stream = ([starting_notice], Raised e)
         | OutOfFuel => False
         end.
Proof.
  intros tm message target sch W stream framed.
  assert (F : forall tm1,
            exists mid,
              yield_then [starting_notice]
                (for_each (fun event => event)
                   (dispatch tm1 message target sch)
                   ([complete_notice], Done)) =
              (starting_notice :: mid ++ [complete_notice], Done)).
  { intros tm1. rewrite for_each_done by apply dispatch_done.
    exists (fst (dispatch tm1 message target sch)).
    unfold yield_then. simpl. now rewrite map_id. }
  subst stream framed. unfold run_stream.
  destruct (_built tm) eqn:B.
  - simpl. apply F.
  - pose proof (build_total W) as T.
    destruct (build tm) as [[s|e|] tm1]; simpl in *.
    + apply F.
    + reflexivity.
    + contradiction.
Qed.

Lemma run_stream_framing_witness :
  let tm := init small_team_project echo_factory name_tool_factory in
  exists mid,
    fst (run_stream tm "hello" "team" idle) =
    (starting_notice :: mid ++ [complete_notice], Done).
Proof.
  intros tm.
  pose proof (@run_stream_framing tm "hello" "team" idle
                (init_graph_ok small_team_project echo_factory
                   name_tool_factory)) as H.
  change (_built tm) with false in H. cbv beta zeta in H.
  assert (E : fst (build tm) =
              Ok {| s_agents := 1; s_team_managers := 1; s_tools := 1;
                    s_director := true |}) by (vm_compute; reflexivity).
  rewrite E in H. exact H.
Defined.

(** C2 as stated fails: on a graph with a manager cycle the build inside
    the run raises, the stream holds the starting notice only, and the
    error leaves [run_stream] without the complete notice. *)
Lemma run_stream_unframed_on_cycle :
  let run :=
    fst (run_stream (init circular_project echo_factory name_tool_factory)
                    "hello" "team" idle) in
  fst run = [starting_notice] /\
  snd run =
    Raised (ValueError
              "Circular team manager dependency detected: A -> B -> C -> A") /\
  last (fst run) starting_notice <> complete_notice.
Proof.
  vm_compute. repeat split. discriminate.
Qed.

(** ** The synthesized director as a target *)






Lemma graph_director_node : forall tm tm',
  graph_of tm' = graph_of tm -> director_node tm' = director_node tm.
Proof. intros tm tm' G. unfold graph_of in G. now inversion G. Qed.



(** ** Copies and sharing in the store *)

Lemma load_alloc_old : forall h o l,
  l < length h -> Aliasing.load (h ++ [o]) l = Aliasing.load h l.
Proof. intros. unfold Aliasing.load. now apply nth_error_app1. Qed.

Lemma load_alloc_new : forall h o,
  Aliasing.load (h ++ [o]) (length h) = Some o.
Proof.
  intros. unfold Aliasing.load. rewrite nth_error_app2 by lia.
  now rewrite Nat.sub_diag.
Qed.

Lemma load_valid : forall h l o, Aliasing.load h l = Some o -> l < length h.
Proof.
  intros h l o H. unfold Aliasing.load in H.
  apply nth_error_Some. congruence.
Qed.

Lemma length_store : forall h l o,
  length (Aliasing.store h l o) = length h.
Proof.
  induction h as [|x r IH]; intros [|l] o; simpl; auto.
Qed.

Lemma load_store_other : forall h l l' o,
  l <> l' -> Aliasing.load (Aliasing.store h l o) l' = Aliasing.load h l'.
Proof.
  unfold Aliasing.load.
  induction h as [|x r IH]; intros [|l] [|l'] o Hne; simpl; auto;
    try congruence.
Qed.

Lemma load_store_same : forall h l o,
  l < length h -> Aliasing.load (Aliasing.store h l o) l = Some o.
Proof.
  unfold Aliasing.load.
  induction h as [|x r IH]; intros [|l] o Hl; simpl in *; try lia; auto.
  apply IH. lia.
Qed.

Lemma extends_refl : forall h, Aliasing.extends h h.
Proof. intros h. split; auto. Qed.

Lemma extends_alloc : forall h0 h o,
  Aliasing.extends h0 h -> Aliasing.extends h0 (h ++ [o]).
Proof.
  intros h0 h o [Hl Hh]. split.
  - rewrite length_app. lia.
  - intros l Hlt. rewrite load_alloc_old by lia. auto.
Qed.

Lemma extends_store : forall h0 h l o,
  Aliasing.extends h0 h -> length h0 <= l ->
  Aliasing.extends h0 (Aliasing.store h l o).
Proof.
  intros h0 h l o [Hl Hh] Hge. split.
  - now rewrite length_store.
  - intros l' Hlt. rewrite load_store_other by lia. auto.
Qed.

Lemma extends_set_item : forall h0 h l k v,
  Aliasing.extends h0 h -> length h0 <= l ->
  Aliasing.extends h0 (Aliasing.set_item h l k v).
Proof.
  intros h0 h l k v He Hge. unfold Aliasing.set_item.
  destruct (Aliasing.load h l) as [[d|x]|]; auto using extends_store.
Qed.

Lemma extends_setdefault_item : forall h0 h l k v,
  Aliasing.extends h0 h -> length h0 <= l ->
  Aliasing.extends h0 (Aliasing.setdefault_item h l k v).
Proof.
  intros h0 h l k v He Hge. unfold Aliasing.setdefault_item.
  destruct (Aliasing.load h l) as [[d|x]|]; auto using extends_store.
Qed.

Lemma length_set_item : forall h l k v,
  length (Aliasing.set_item h l k v) = length h.
Proof.
  intros. unfold Aliasing.set_item.
  destruct (Aliasing.load h l) as [[d|x]|]; auto using length_store.
Qed.

Lemma length_setdefault_item : forall h l k v,
  length (Aliasing.setdefault_item h l k v) = length h.
Proof.
  intros. unfold Aliasing.setdefault_item.
  destruct (Aliasing.load h l) as [[d|x]|]; auto using length_store.
Qed.

(** Writing one key of a dictionary leaves the other keys of every
    dictionary as they are. *)
Lemma get_item_set_item : forall h l k v c k',
  k <> k' ->
  Aliasing.get_item (Aliasing.set_item h l k v) c k' = Aliasing.get_item h c k'.
Proof.
  intros h l k v c k' Hne. unfold Aliasing.set_item.
  destruct (Aliasing.load h l) as [[d|x]|] eqn:El; auto.
  unfold Aliasing.get_item. destruct (Nat.eq_dec l c) as [->|Hlc].
  - rewrite load_store_same by (eapply load_valid; eauto).
    rewrite El. now apply dict_get_set_other.
  - now rewrite load_store_other.
Qed.

Lemma dict_get_setdefault_other : forall (V : Type) k k' (v : V) d,
  k <> k' -> dict_get k' (dict_setdefault k v d) = dict_get k' d.
Proof.
  intros. unfold dict_setdefault. destruct (dict_get k d); auto.
  now apply dict_get_set_other.
Qed.

Lemma get_item_setdefault_item : forall h l k v c k',
  k <> k' ->
  Aliasing.get_item (Aliasing.setdefault_item h l k v) c k' =
  Aliasing.get_item h c k'.
Proof.
  intros h l k v c k' Hne. unfold Aliasing.setdefault_item.
  destruct (Aliasing.load h l) as [[d|x]|] eqn:El; auto.
  unfold Aliasing.get_item. destruct (Nat.eq_dec l c) as [->|Hlc].
  - rewrite load_store_same by (eapply load_valid; eauto).
    rewrite El. now apply dict_get_setdefault_other.
  - now rewrite load_store_other.
Qed.

Lemma get_item_set_item_same : forall h l k v d,
  Aliasing.load h l = Some (Aliasing.ODict d) ->
  Aliasing.get_item (Aliasing.set_item h l k v) l k = Some v.
Proof.
  intros h l k v d El. unfold Aliasing.set_item, Aliasing.get_item.
  rewrite El. rewrite load_store_same by (eapply load_valid; eauto).
  apply dict_get_set_same.
Qed.

Lemma get_item_alloc : forall h o c k,
  c < length h ->
  Aliasing.get_item (h ++ [o]) c k = Aliasing.get_item h c k.
Proof.
  intros. unfold Aliasing.get_item. now rewrite load_alloc_old.
Qed.

Lemma copy_under_spec : forall h0 h cloned k,
  Aliasing.extends h0 h -> length h0 <= cloned -> cloned < length h ->
  Aliasing.extends h0 (Aliasing.copy_under h cloned k) /\
  cloned < length (Aliasing.copy_under h cloned k) /\
  Aliasing.not_aliased h0
    (Aliasing.get_item (Aliasing.copy_under h cloned k) cloned k) /\
  forall k', k <> k' ->
    Aliasing.get_item (Aliasing.copy_under h cloned k) cloned k' =
    Aliasing.get_item h cloned k'.
Proof.
  intros h0 h cloned k He Hge Hlt. unfold Aliasing.copy_under.
  assert (Hsame : forall v,
            Aliasing.get_item h cloned k = v ->
            (forall l, v = Some (Aliasing.VRef l) ->
                       forall d, Aliasing.load h l <> Some (Aliasing.ODict d)) ->
            Aliasing.extends h0 h /\ cloned < length h /\
            Aliasing.not_aliased h0 v /\
            forall k', k <> k' ->
              Aliasing.get_item h cloned k' = Aliasing.get_item h cloned k').
  { intros v Hv Hnd. split; [auto|]. split; [auto|]. split; [|auto].
    intros l0 d0 H Hl0 Hd. destruct He as [_ He].
    rewrite <- (He l0 Hl0) in Hd. now apply (Hnd l0 H d0). }
  destruct (Aliasing.get_item h cloned k) as [[| |l]|] eqn:Eg;
    try (apply (Hsame _ (eq_sym Eg)); intros l0 H;
         rewrite Eg in H; discriminate H).
  destruct (Aliasing.load h l) as [[d|x]|] eqn:El;
    try (apply (Hsame _ (eq_sym Eg)); intros l0 H d0;
         rewrite Eg in H; inversion H; subst l0; congruence).
  cbn [Aliasing.alloc].
  assert (Hc : exists dc, Aliasing.load h cloned = Some (Aliasing.ODict dc)).
  { unfold Aliasing.get_item in Eg.
    destruct (Aliasing.load h cloned) as [[dc|y]|]; try discriminate.
    eauto. }
  destruct Hc as [dc Hc].
  split; [|split; [|split]].
  - apply extends_set_item; auto. apply extends_alloc; auto.
  - rewrite length_set_item, length_app. lia.
  - rewrite (@get_item_set_item_same _ _ _ _ dc)
      by (rewrite load_alloc_old; auto).
    intros l0 d0 H Hl0. inversion H; subst l0. destruct He as [Hlen _]. lia.
  - intros k' Hne. rewrite get_item_set_item by auto.
    now apply get_item_alloc.
Qed.

Lemma _copy_event_spec : forall h0 event cloned h,
  Aliasing._copy_event h0 event = Some (cloned, h) ->
  cloned = length h0 /\
  Aliasing.tracked h0 cloned h /\
  Aliasing.not_aliased h0 (Aliasing.get_item h cloned "context").
Proof.
  intros h0 event cloned h H. unfold Aliasing._copy_event in H.
  destruct (Aliasing.load h0 event) as [[d|x]|]; try discriminate.
  cbn [Aliasing.alloc] in H. inversion H; subst cloned h. clear H.
  set (h1 := h0 ++ [Aliasing.ODict d]).
  assert (E1 : Aliasing.extends h0 h1).
  { apply extends_alloc, extends_refl. }
  assert (L1 : length h0 < length h1).
  { unfold h1. rewrite length_app. simpl. lia. }
  destruct (@copy_under_spec h0 h1 (length h0) "data" E1 (le_n _) L1)
    as [E2 [L2 [D2 _]]].
  set (h2 := Aliasing.copy_under h1 (length h0) "data") in *.
  destruct (@copy_under_spec h0 h2 (length h0) "context" E2 (le_n _) L2)
    as [E3 [L3 [C3 K3]]].
  split; [reflexivity|]. split; [|exact C3].
  split; [exact E3|]. split; [exact L3|].
  rewrite K3 by discriminate. exact D2.
Qed.

Lemma context_object_spec : forall h0 cloned h context h',
  Aliasing.tracked h0 cloned h ->
  Aliasing.not_aliased h0 (Aliasing.get_item h cloned "context") ->
  Aliasing.context_object h cloned = (context, h') ->
  Aliasing.tracked h0 cloned h' /\ length h0 <= context.
Proof.
  intros h0 cloned h context h' [He [Hlt Hd]] Hc H.
  assert (Hnew : forall o,
            Aliasing.alloc h o = (context, h') ->
            Aliasing.tracked h0 cloned h' /\ length h0 <= context).
  { intros o Ho. cbn [Aliasing.alloc] in Ho. inversion Ho; subst context h'.
    split; [|apply He]. split; [now apply extends_alloc|].
    split; [rewrite length_app; lia|].
    now rewrite get_item_alloc. }
  unfold Aliasing.context_object in H.
  destruct (Aliasing.get_item h cloned "context") as [[| |l]|] eqn:Eg;
    try (eapply Hnew; eauto; fail).
  destruct (Aliasing.load h l) as [[d|x]|] eqn:El;
    try (eapply Hnew; eauto; fail).
  inversion H; subst context h'. split; [split; auto|].
  destruct (le_lt_dec (length h0) l) as [Hge|Hl]; auto.
  exfalso. destruct He as [_ He]. rewrite (He l Hl) in El.
  apply (Hc l d eq_refl Hl El).
Qed.

Lemma tracked_set_item : forall h0 cloned h l k v,
  Aliasing.tracked h0 cloned h -> length h0 <= l -> k <> "data" ->
  Aliasing.tracked h0 cloned (Aliasing.set_item h l k v).
Proof.
  intros h0 cloned h l k v [He [Hlt Hd]] Hge Hk.
  split; [now apply extends_set_item|].
  split; [now rewrite length_set_item|].
  now rewrite get_item_set_item.
Qed.

Lemma tracked_setdefault_item : forall h0 cloned h l k v,
  Aliasing.tracked h0 cloned h -> length h0 <= l -> k <> "data" ->
  Aliasing.tracked h0 cloned (Aliasing.setdefault_item h l k v).
Proof.
  intros h0 cloned h l k v [He [Hlt Hd]] Hge Hk.
  split; [now apply extends_setdefault_item|].
  split; [now rewrite length_setdefault_item|].
  now rewrite get_item_setdefault_item.
Qed.

Lemma tracked_alloc : forall h0 cloned h o,
  Aliasing.tracked h0 cloned h -> Aliasing.tracked h0 cloned (h ++ [o]).
Proof.
  intros h0 cloned h o [He [Hlt Hd]].
  split; [now apply extends_alloc|].
  split; [rewrite length_app; lia|].
  now rewrite get_item_alloc.
Qed.

Lemma tracked_store : forall h0 cloned h l o,
  Aliasing.tracked h0 cloned h -> length h0 <= l -> l <> cloned ->
  Aliasing.tracked h0 cloned (Aliasing.store h l o).
Proof.
  intros h0 cloned h l o [He [Hlt Hd]] Hge Hne.
  split; [now apply extends_store|].
  split; [now rewrite length_store|].
  unfold Aliasing.get_item in *. now rewrite load_store_other.
Qed.

(** The last assignment, [cloned["context"] = context]. *)
Lemma tracked_finish : forall h0 cloned h context,
  Aliasing.tracked h0 cloned h -> length h0 <= cloned ->
  length h0 <= context ->
  Aliasing.fresh_copy h0 cloned
    (Aliasing.set_item h cloned "context" (Aliasing.VRef context)).
Proof.
  intros h0 cloned h context T Hc Hctx.
  assert (T' : Aliasing.tracked h0 cloned
                 (Aliasing.set_item h cloned "context" (Aliasing.VRef context))).
  { apply tracked_set_item; auto. discriminate. }
  destruct T' as [He [Hlt Hd]].
  split; [exact He|]. split; [exact Hc|].
  intros k l d Hk Hg Hl.
  destruct (le_lt_dec (length h0) l) as [Hge|Hlo]; auto. exfalso.
  destruct Hk as [Hk|[Hk|[]]]; subst k.
  - destruct He as [_ He]. rewrite (He l Hlo) in Hl.
    apply (Hd l d Hg Hlo Hl).
  - unfold Aliasing.set_item in Hg.
    destruct (Aliasing.load h cloned) as [[dc|x]|] eqn:Ec.
    + unfold Aliasing.get_item in Hg.
      rewrite load_store_same in Hg by (eapply load_valid; eauto).
      rewrite dict_get_set_same in Hg. inversion Hg; subst l. lia.
    + unfold Aliasing.get_item in Hg. rewrite Ec in Hg. discriminate Hg.
    + unfold Aliasing.get_item in Hg. rewrite Ec in Hg. discriminate Hg.
Qed.

(** C8, as amended: [_attach_context] and [_append_parent_context] work on
    a copy of the event that is one level deep.  The objects of the store
    they start from are all left as they were, the copy is a new
    dictionary, and the dictionaries under its "data" and "context" keys
    are new as well; what lies deeper is not copied, the original and the
    copy share it. *)
Theorem copies_are_one_level :
  forall tm h event unit_id unit_label parent_unit,
    (forall cloned h',
        Aliasing._attach_context tm h event unit_id unit_label =
          Some (cloned, h') ->
        Aliasing.fresh_copy h cloned h') /\
    (forall cloned h',
        Aliasing._append_parent_context h event parent_unit =
          Some (cloned, h') ->
        Aliasing.fresh_copy h cloned h').
Proof.
  intros tm h0 event unit_id unit_label parent_unit. split.
  - intros cloned h' H. unfold Aliasing._attach_context in H.
    destruct (Aliasing._copy_event h0 event) as [[c h1]|] eqn:Ecopy;
      [|discriminate].
    destruct (_copy_event_spec _ _ Ecopy) as [Hc [T1 C1]].
    destruct (Aliasing.context_object h1 c) as [context h2] eqn:Ectx.
    destruct (context_object_spec T1 C1 Ectx) as [T2 Hctx].
    inversion H; subst cloned h'. clear H.
    apply tracked_finish; [|lia|exact Hctx].
    assert (T3 : Aliasing.tracked h0 c
              (Aliasing.setdefault_item
                 (Aliasing.setdefault_item h2 context "unitId"
                    (Aliasing.VStr unit_id))
                 context "unitLabel" (Aliasing.VStr unit_label))).
    { repeat apply tracked_setdefault_item; auto; discriminate. }
    destruct (dict_get unit_id (execution_units tm)); auto.
    apply tracked_setdefault_item; auto. discriminate.
  - intros cloned h' H. unfold Aliasing._append_parent_context in H.
    destruct (Aliasing._copy_event h0 event) as [[c h1]|] eqn:Ecopy;
      [|discriminate].
    destruct (_copy_event_spec _ _ Ecopy) as [Hc [T1 C1]].
    destruct (Aliasing.context_object h1 c) as [context h2] eqn:Ectx.
    destruct (context_object_spec T1 C1 Ectx) as [T2 Hctx].
    cbn [Aliasing.alloc] in H.
    inversion H; subst cloned h'. clear H.
    apply tracked_finish; [|lia|exact Hctx].
    repeat (apply tracked_set_item; [|exact Hctx|discriminate]).
    match goal with
    | |- context [existsb ?f ?items] => destruct (existsb f items)
    end.
    + now apply tracked_alloc.
    + pose proof T2 as [He2 [Hlt2 _]].
      apply tracked_store; [now apply tracked_alloc| |lia].
      destruct He2 as [Hlen _]. lia.
Qed.

(** C8 as stated fails: the copy is not deep.  For a [tool_call] event the
    dictionary of arguments under [data] is the same object in the event
    and in the copy that received the context, so a write through the copy
    is seen through the original. *)
Lemma nested_payload_shared :
  let tm := init lonely_project echo_factory name_tool_factory in
  exists cloned h',
    Aliasing._attach_context tm Aliasing.tool_call_heap 2 "a" "A" =
      Some (cloned, h') /\
    cloned <> 2 /\
    Aliasing.get_path h' cloned ["data"; "args"] = Some (Aliasing.VRef 0) /\
    Aliasing.get_path h' 2 ["data"; "args"] = Some (Aliasing.VRef 0) /\
    Aliasing.get_path
      (Aliasing.set_item h' 0 "query" (Aliasing.VStr "changed"))
      2 ["data"; "args"; "query"] = Some (Aliasing.VStr "changed").
Proof.
  intros tm. eexists. eexists. split; [vm_compute; reflexivity|].
  split; [discriminate|]. repeat split; vm_compute; reflexivity.
Qed.

Lemma copies_are_one_level_witness :
  let tm := init lonely_project echo_factory name_tool_factory in
  exists cloned h',
    Aliasing._attach_context tm Aliasing.tool_call_heap 2 "a" "A" =
      Some (cloned, h') /\
    Aliasing.fresh_copy Aliasing.tool_call_heap cloned h'.
Proof.
  intros tm. eexists. eexists. split; [vm_compute; reflexivity|].
  apply (proj1 (@copies_are_one_level tm Aliasing.tool_call_heap 2 "a" "A"
                  lonely_manager)).
  vm_compute. reflexivity.
Defined.

(** ** Tools bound to an agent *)


(** ** A manager without members *)

Lemma type_of_copy : forall e, dict_get "type" (_copy_event e) = dict_get "type" e.
Proof.
  intros e. unfold _copy_event.
  destruct (dict_get "data" e) as [[| | |d]|] eqn:Ed;
    destruct (dict_get "context" e) as [[| | |c]|] eqn:Ec;
    rewrite ?(@dict_get_set_other pv "data" "context") by discriminate;
    rewrite ?Ec;
    rewrite ?(@dict_get_set_other pv "context" "type") by discriminate;
    rewrite ?(@dict_get_set_other pv "data" "type") by discriminate; auto.
Qed.

Lemma type_of_attach : forall tm e i l,
  dict_get "type" (_attach_context tm e i l) = dict_get "type" e.
Proof.
  intros. unfold _attach_context.
  rewrite dict_get_set_other by discriminate. apply type_of_copy.
Qed.

(** C4, as amended: a manager unit with zero children yields its
    coordinating notice, then one [error] event whose message names the
    manager, and ends there; the "finished coordination" notice is not in
    its stream. *)
Theorem empty_manager_stream :
  forall tm message node id label kind strategy sch,
    let unit := ManagerU node id label kind strategy [] in
    let attach := fun ev => _attach_context tm ev id label in
    let err := attach (error_event (label ++ " has no assigned team members")) in
    run_unit tm message unit sch =
      ([attach (coordinating_notice label strategy 0); err], Done) /\
    dict_get "type" err = Some (PStr "error") /\
    ~ In (attach (notice (label ++ " finished coordination")))
         (fst (run_unit tm message unit sch)).
Proof.
  intros tm message node id label kind strategy sch unit attach err.
  split; [reflexivity|]. split.
  - unfold err, attach. now rewrite type_of_attach.
  - cbn [run_unit unit yield_then fst app]. intros [H|[H|[]]].
    + apply attach_notice_inj in H. apply append_cancel_l in H.
      discriminate H.
    + apply (f_equal (dict_get "type")) in H. unfold attach in H.
      rewrite !type_of_attach in H. discriminate H.
Qed.

(** C4 as stated fails: built from a graph with one manager and no edges,
    the manager's stream is not "coordinating notice, error, finished
    coordination notice"; it has two events only. *)
Lemma empty_manager_no_finished_notice :
  let tm := snd (build (init lonely_project echo_factory name_tool_factory)) in
  dict_get "m" (execution_units tm) = Some lonely_manager /\
  ~ (exists coordinating err,
       fst (run_unit tm "hello" lonely_manager idle) =
       [coordinating; err;
        _attach_context tm (notice ("m" ++ " finished coordination"))
                        "m" "m"]).
Proof.
  split; [vm_compute; reflexivity|].
  intros [c [e H]]. vm_compute in H. discriminate H.
Qed.

(** * Further properties of the orchestrator *)

(** ** Copies and contexts on values *)

Lemma dict_set_same_value : forall (V : Type) k (v : V) d,
  dict_get k d = Some v -> dict_set k v d = d.
Proof.
  induction d as [|[k' v'] r IH]; simpl; intros H; [discriminate|].
  destruct (String.eqb k k') eqn:E.
  - apply String.eqb_eq in E. inversion H; subst. reflexivity.
  - now rewrite IH.
Qed.

(** On values [_copy_event] gives back an equal dictionary: same keys, same
    order, same items. *)
Lemma copy_event_id : forall e, _copy_event e = e.
Proof.
  intros e. unfold _copy_event.
  destruct (dict_get "data" e) as [[| | |d]|] eqn:Ed;
    destruct (dict_get "context" e) as [[| | |c]|] eqn:Ec;
    rewrite ?(dict_set_same_value _ _ Ed);
    rewrite ?Ec; rewrite ?(dict_set_same_value _ _ Ec); reflexivity.
Qed.

Lemma dict_get_setdefault_keep : forall (V : Type) k k' (v v' : V) d,
  dict_get k d = Some v -> dict_get k (dict_setdefault k' v' d) = Some v.
Proof.
  intros V k k' v v' d H. unfold dict_setdefault.
  destruct (dict_get k' d) eqn:E; auto.
  destruct (String.eqb k' k) eqn:Ek.
  - apply String.eqb_eq in Ek. subst. congruence.
  - apply String.eqb_neq in Ek. now rewrite dict_get_set_other.
Qed.

Lemma dict_get_setdefault_new : forall (V : Type) k (v : V) d,
  dict_get k d = None -> dict_get k (dict_setdefault k v d) = Some v.
Proof.
  intros V k v d H. unfold dict_setdefault. rewrite H.
  apply dict_get_set_same.
Qed.

Lemma attach_context_keeps : forall tm e i l k v,
  dict_get k (context_of e) = Some v ->
  dict_get k (context_of (_attach_context tm e i l)) = Some v.
Proof.
  intros tm e i l k v H. rewrite context_of_attach. unfold stamp_unit.
  destruct (dict_get i (execution_units tm));
    repeat apply dict_get_setdefault_keep; exact H.
Qed.

Lemma attach_unit_id_new : forall tm e i l,
  dict_get "unitId" (context_of e) = None ->
  dict_get "unitId" (context_of (_attach_context tm e i l)) = Some (PStr i).
Proof.
  intros tm e i l H. rewrite context_of_attach. unfold stamp_unit.
  destruct (dict_get i (execution_units tm));
    [apply dict_get_setdefault_keep|];
    apply dict_get_setdefault_keep; now apply dict_get_setdefault_new.
Qed.

Lemma attach_other_keys : forall tm e i l k,
  k <> "context" -> dict_get k (_attach_context tm e i l) = dict_get k e.
Proof.
  intros tm e i l k Hk. unfold _attach_context. rewrite copy_event_id.
  apply dict_get_set_other. congruence.
Qed.

(** X1.  [_attach_context] merges, it does not overwrite: whatever the context
    of an event already holds under a key stays; the key [unitId] is filled
    in only when it is absent.  So a unit that attaches its context to an
    event that already carries one leaves the origin of the event in
    place. *)
Theorem _attach_context_merges : forall tm e i l,
  (forall k v, dict_get k (context_of e) = Some v ->
               dict_get k (context_of (_attach_context tm e i l)) = Some v) /\
  (dict_get "unitId" (context_of e) = None ->
   dict_get "unitId" (context_of (_attach_context tm e i l)) = Some (PStr i)) /\
  (forall k, k <> "context" ->
             dict_get k (_attach_context tm e i l) = dict_get k e).
Proof.
  intros tm e i l. split; [|split].
  - intros k v. apply attach_context_keeps.
  - apply attach_unit_id_new.
  - intros k. apply attach_other_keys.
Qed.

Lemma with_parent_lineage : forall ctx parent,
  dict_get "lineage" (with_parent ctx parent) =
  Some (PList
          (let l := match dict_get "lineage" ctx with
                    | Some (PList l) => l
                    | _ => []
                    end in
           if existsb (pv_is_str (unit_id parent)) l then l
           else l ++ [PStr (unit_id parent)])).
Proof.
  intros. unfold with_parent.
  rewrite !dict_get_set_other by discriminate.
  apply dict_get_set_same.
Qed.

Lemma lineage_of_forwarded : forall e parent,
  lineage_of (_append_parent_context e parent) =
  if existsb (pv_is_str (unit_id parent)) (lineage_of e) then lineage_of e
  else lineage_of e ++ [PStr (unit_id parent)].
Proof.
  intros. unfold lineage_of at 1. rewrite context_of_forwarded.
  rewrite with_parent_lineage. reflexivity.
Qed.

Lemma existsb_pv_is_str : forall i l,
  existsb (pv_is_str i) l = true <-> In (PStr i) l.
Proof.
  intros i l. rewrite existsb_exists. split.
  - intros [x [Hx E]]. destruct x; try discriminate. simpl in E.
    apply String.eqb_eq in E. now subst.
  - intros H. exists (PStr i). split; auto. simpl. apply String.eqb_refl.
Qed.

Lemma attached_lineage_listed : forall tm t d i l,
  lineage_listed
    (_attach_context tm [("type", PStr t); ("data", PDict d)] i l) = true.
Proof.
  intros tm t d i l. unfold lineage_listed. rewrite context_of_attach.
  unfold stamp_unit. destruct (dict_get i (execution_units tm)); reflexivity.
Qed.

Lemma forwarded_lineage_listed : forall e parent,
  lineage_listed (_append_parent_context e parent) = true.
Proof.
  intros e parent. unfold lineage_listed.
  rewrite context_of_forwarded, with_parent_lineage. reflexivity.
Qed.

(** X2.  Forwarding an event through the same manager a second time changes
    nothing: the id is already in the lineage and the [via] entries are
    those the first forwarding wrote.  The event is one whose lineage is
    absent or a list, as every event of a unit's stream is. *)
Theorem _append_parent_context_idempotent : forall e parent,
  lineage_listed e = true ->
  _append_parent_context (_append_parent_context e parent) parent =
  _append_parent_context e parent.
Proof.
  intros e parent _.
  set (e1 := _append_parent_context e parent).
  unfold _append_parent_context at 1. rewrite copy_event_id.
  assert (Hc : dict_get "context" e1 = Some (PDict (context_of e1))).
  { unfold e1, _append_parent_context. rewrite context_of_set.
    apply dict_get_set_same. }
  assert (Hw : with_parent (context_of e1) parent = context_of e1).
  { assert (Hl : dict_get "lineage" (context_of e1) =
                 Some (PList (lineage_of e1))).
    { unfold e1 at 1. rewrite context_of_forwarded, with_parent_lineage.
      unfold lineage_of at 1. fold e1.
      unfold e1 at 1. rewrite context_of_forwarded, with_parent_lineage.
      reflexivity. }
    assert (Hin : existsb (pv_is_str (unit_id parent)) (lineage_of e1) = true).
    { unfold e1. rewrite lineage_of_forwarded.
      destruct (existsb (pv_is_str (unit_id parent)) (lineage_of e)) eqn:E;
        auto.
      apply existsb_pv_is_str. apply in_or_app. right. now left. }
    unfold with_parent. rewrite Hl, Hin.
    rewrite (dict_set_same_value _ _ Hl).
    assert (Hv : dict_get "via" (context_of e1) =
                 Some (PStr (unit_id parent))).
    { unfold e1. apply forwarded_via. }
    rewrite (dict_set_same_value _ _ Hv).
    assert (Hvl : dict_get "viaLabel" (context_of e1) =
                  Some (PStr (unit_label parent))).
    { unfold e1. rewrite context_of_forwarded. unfold with_parent.
      rewrite dict_get_set_other by discriminate. apply dict_get_set_same. }
    rewrite (dict_set_same_value _ _ Hvl).
    assert (Hvk : dict_get "viaKind" (context_of e1) =
                  Some (PStr (unit_kind parent))).
    { unfold e1. rewrite context_of_forwarded. unfold with_parent.
      apply dict_get_set_same. }
    now rewrite (dict_set_same_value _ _ Hvk). }
  rewrite Hw. now apply dict_set_same_value.
Qed.

Lemma _append_parent_context_idempotent_witness :
  let tm := init two_level_project echo_factory name_tool_factory in
  let e := _attach_context tm (text_event "hi") "agentX" "agentX" in
  lineage_listed e = true /\
  _append_parent_context (_append_parent_context e managerA_unit)
                         managerA_unit =
  _append_parent_context e managerA_unit.
Proof.
  intros tm e. split; [reflexivity|].
  apply (@_append_parent_context_idempotent e managerA_unit).
  reflexivity.
Defined.

(** ** The order of a manager's stream *)

Lemma _run_sequential_stream : forall tm self children k,
  Forall (fun c : ExecutionUnit * Stream Event => snd (snd c) = Done) children ->
  fst (_run_sequential tm self children k) =
  concat (map (fun c : ExecutionUnit * Stream Event =>
                 _attach_context tm
                   (notice (unit_label self ++ " delegating to "
                            ++ unit_label (fst c)))
                   (unit_id self) (unit_label self)
                 :: map (fun event => _append_parent_context event self)
                        (fst (snd c)))
              children)
  ++ fst k.
Proof.
  intros tm self children k H. induction H as [|[c s] r Hd _ IH]; auto.
  cbn [_run_sequential]. rewrite for_each_done by exact Hd.
  cbn [yield_then fst snd map concat app]. rewrite IH.
  now rewrite <- app_assoc.
Qed.

Lemma map_map_sched : forall (A B C : Type) (f : A -> Schedule -> B)
    (g : B -> C) l subs,
  map g (map_sched f l subs) = map_sched (fun a s => g (f a s)) l subs.
Proof. induction l; simpl; intros; f_equal; auto. Qed.

Lemma streams_done : forall tm message cs subs,
  Forall (fun c : ExecutionUnit * Stream Event => snd (snd c) = Done)
         (map_sched (fun c s => (c, run_unit tm message c s)) cs subs).
Proof.
  intros tm message cs. induction cs as [|c r IH]; intros subs; simpl;
    constructor; auto.
  apply run_unit_done.
Qed.

(** X3.  A manager whose strategy is not [concurrent] runs its members one
    after the other, in the order of its member list: its stream is the
    coordinating notice (followed by the fallback notice when the strategy
    is not a sequential one), then for each member the delegating notice
    followed by all events of that member, forwarded, and last the
    finished notice.  No event of a later member comes before an event of
    an earlier one. *)
Theorem sequential_members_run_in_order :
  forall tm message n i l k s c cs sch,
    String.eqb s "concurrent" = false ->
    let self := ManagerU n i l k s (c :: cs) in
    let attach := fun ev => _attach_context tm ev i l in
    run_unit tm message self sch =
      (attach (coordinating_notice l s (length (c :: cs)))
       :: (if str_in s ["sequential"; "sequence"] then []
           else [attach (unrecognized_notice l s)])
       ++ concat
            (map_sched
               (fun child sub =>
                  attach (notice (l ++ " delegating to " ++ unit_label child))
                  :: map (fun ev => _append_parent_context ev self)
                         (fst (run_unit tm message child sub)))
               (c :: cs) (sched_subs sch))
       ++ [attach (notice (l ++ " finished coordination"))],
       Done).
Proof.
  intros tm message n i l k s c cs sch Hs self attach.
  apply injective_projections.
  - subst self. cbn [run_unit]. rewrite Hs.
    cbn [yield_then fst app].
    destruct (str_in s ["sequential"; "sequence"]);
      cbn [yield_then fst app];
      rewrite _run_sequential_stream by apply streams_done;
      rewrite map_map_sched; reflexivity.
  - rewrite run_unit_done. reflexivity.
Qed.

Lemma sequential_members_run_in_order_witness :
  let tm := init lonely_project echo_factory name_tool_factory in
  snd (run_unit tm "hi" managerA_unit idle) = Done /\
  length (fst (run_unit tm "hi" managerA_unit idle)) = 6.
Proof.
  intros tm. unfold managerA_unit.
  rewrite (@sequential_members_run_in_order tm "hi"
             (plain_node "managerA" "teamManager") "managerA" "managerA"
             "teamManager" "sequential" agentX_unit [] idle eq_refl).
  split; [reflexivity|vm_compute; reflexivity].
Defined.











(** ** The shape of the events of a unit *)

Lemma update_events_typed : forall update ev,
  In ev (update_events update) ->
  exists t d, In t ["text"; "tool_call"] /\
              ev = [("type", PStr t); ("data", PDict d)].
Proof.
  intros update ev H. unfold update_events in H.
  apply in_app_or in H. destruct H as [H|H].
  - destruct (u_delta update) as [delta|]; [|contradiction].
    destruct (truthy delta); [|contradiction].
    destruct H as [H|[]]. subst. unfold text_event.
    do 2 eexists. split; [|reflexivity]. simpl; auto.
  - apply in_app_or in H. destruct H as [H|H].
    + destruct (u_tool_calls update) as [tcs|]; [|contradiction].
      apply in_map_iff in H. destruct H as [tc [H _]]. subst.
      unfold tool_call_event.
      do 2 eexists. split; [|reflexivity]. simpl; auto.
    + destruct (u_delta update); [contradiction|].
      destruct (u_tool_calls update); [contradiction|].
      destruct H as [H|[]]. subst. unfold text_event.
      do 2 eexists. split; [|reflexivity]. simpl; auto.
Qed.

Lemma _run_agent_stream_typed : forall agent message ev,
  In ev (fst (_run_agent_stream agent message)) ->
  exists t d, In t ["text"; "tool_call"; "error"] /\
              ev = [("type", PStr t); ("data", PDict d)].
Proof.
  intros agent message ev. unfold _run_agent_stream.
  assert (U : forall updates, In ev (flat_map update_events updates) ->
            exists t d, In t ["text"; "tool_call"; "error"] /\
                        ev = [("type", PStr t); ("data", PDict d)]).
  { intros updates H. apply in_flat_map in H. destruct H as [u [_ H]].
    destruct (update_events_typed _ _ H) as [t [d [Ht He]]].
    exists t, d. split; auto. simpl in *. intuition. }
  destruct (agent message) as [updates [e|]]; simpl; intros H;
    [|exact (U _ H)].
  apply in_app_or in H. destruct H as [H|[H|[]]]; [exact (U _ H)|].
  subst. unfold error_event. do 2 eexists. split; [|reflexivity].
  simpl; auto.
Qed.

Lemma _run_sequential_sources : forall tm self children k e,
  In e (fst (_run_sequential tm self children k)) ->
  (exists m, e = _attach_context tm (notice m) (unit_id self) (unit_label self))
  \/ (exists c ev, In c children /\ In ev (fst (snd c)) /\
                   e = _append_parent_context ev self)
  \/ In e (fst k).
Proof.
  intros tm self children k e. induction children as [|[c s] r IH]; simpl.
  - auto.
  - intros [H|H]; [left; eauto|].
    unfold for_each in H.
    assert (F : In e (map (fun event => _append_parent_context event self)
                          (fst s)) ->
                exists c0 ev, ((c, s) = c0 \/ In c0 r) /\
                              In ev (fst (snd c0)) /\
                              e = _append_parent_context ev self).
    { intros Hm. apply in_map_iff in Hm. destruct Hm as [ev [He Hin]].
      exists (c, s), ev. auto. }
    destruct (snd s); cbn [fst] in H.
    + apply in_app_or in H. destruct H as [H|H]; [right; left; auto|].
      destruct (IH H) as [H'|[[c0 [ev [H1 H2]]]|H']]; auto.
      right; left. exists c0, ev. tauto.
    + right; left; auto.
    + right; left; auto.
Qed.

Lemma _run_concurrent_sources : forall tm self children picks k e,
  In e (fst (_run_concurrent tm self children picks k)) ->
  (exists m, e = _attach_context tm (notice m) (unit_id self) (unit_label self))
  \/ (exists c ev, In c children /\ In ev (fst (snd c)) /\
                   e = _append_parent_context ev self)
  \/ In e (fst k).
Proof.
  intros tm self children picks k e H. unfold _run_concurrent in H.
  cbn [yield_then fst] in H. apply in_app_or in H. destruct H as [H|H].
  - apply in_map_iff in H. destruct H as [c [He _]]. left; eauto.
  - apply in_app_or in H. destruct H as [H|H]; auto.
    apply in_map_iff in H. destruct H as [ev [He Hin]].
    eapply Permutation_in in Hin; [|apply interleave_perm].
    apply in_concat in Hin. destruct Hin as [s [Hs Hev]].
    apply in_map_iff in Hs. destruct Hs as [c [Hc Hin]]. subst s.
    right; left. exists c, ev. auto.
Qed.

Lemma map_sched_In : forall (A B : Type) (f : A -> Schedule -> B) l subs b,
  In b (map_sched f l subs) -> exists a s, In a l /\ b = f a s.
Proof.
  induction l as [|a r IH]; simpl; intros subs b H; [contradiction|].
  destruct H as [H|H]; [eauto|].
  destruct (IH _ _ H) as [a' [s [H1 H2]]]. eauto.
Qed.

(** What an agent unit yields: plain events stamped by the unit. *)
Lemma agent_unit_sources : forall tm message n i l a sch e,
  In e (fst (run_unit tm message (AgentU n i l a) sch)) ->
  exists t d, In t ["notice"; "text"; "tool_call"; "error"] /\
              e = _attach_context tm [("type", PStr t); ("data", PDict d)] i l.
Proof.
  intros tm message n i l a sch e H. cbn [run_unit] in H.
  rewrite for_each_done in H by apply _run_agent_stream_done.
  cbn [yield_then fst app] in H.
  assert (N : forall m, exists t d,
            In t ["notice"; "text"; "tool_call"; "error"] /\
            _attach_context tm (notice m) i l =
            _attach_context tm [("type", PStr t); ("data", PDict d)] i l).
  { intros m. unfold notice. do 2 eexists. split; [|reflexivity].
    simpl; auto. }
  destruct H as [H|H]; [subst; apply N|].
  apply in_app_or in H. destruct H as [H|[H|[]]]; [|subst; apply N].
  apply in_map_iff in H. destruct H as [raw [Hraw Hin]].
  apply _run_agent_stream_typed in Hin.
  destruct Hin as [t [d [Ht Hs]]]. subst. exists t, d. split; auto.
  simpl in *. intuition.
Qed.

(** What a manager yields: its own notices and errors, stamped by itself,
    and events of its members, forwarded. *)
Lemma manager_unit_sources : forall tm message n i l k s cs sch e,
  In e (fst (run_unit tm message (ManagerU n i l k s cs) sch)) ->
  (exists t d, In t ["notice"; "error"] /\
               e = _attach_context tm [("type", PStr t); ("data", PDict d)] i l)
  \/ (exists c sub ev,
        In c cs /\ In ev (fst (run_unit tm message c sub)) /\
        e = _append_parent_context ev (ManagerU n i l k s cs)).
Proof.
  intros tm message n i l k s cs sch e H.
  assert (N : forall m,
            (exists t d, In t ["notice"; "error"] /\
               _attach_context tm (notice m) i l =
               _attach_context tm [("type", PStr t); ("data", PDict d)] i l)
            \/ (exists c sub ev,
                  In c cs /\ In ev (fst (run_unit tm message c sub)) /\
                  _attach_context tm (notice m) i l =
                  _append_parent_context ev (ManagerU n i l k s cs))).
  { intros m. left. unfold notice. do 2 eexists. split; [|reflexivity].
    simpl; auto. }
  assert (S : forall picks k0,
             (In e (fst (_run_sequential tm (ManagerU n i l k s cs)
                (map_sched (fun c s => (c, run_unit tm message c s))
                           cs (sched_subs sch)) k0))
              \/ In e (fst (_run_concurrent tm (ManagerU n i l k s cs)
                (map_sched (fun c s => (c, run_unit tm message c s))
                           cs (sched_subs sch)) picks k0))) ->
             (exists m, e = _attach_context tm (notice m) i l)
             \/ (exists c sub ev,
                   In c cs /\ In ev (fst (run_unit tm message c sub)) /\
                   e = _append_parent_context ev (ManagerU n i l k s cs))
             \/ In e (fst k0)).
  { intros picks k0 He.
    assert (He' :
      (exists m, e = _attach_context tm (notice m) i l)
      \/ (exists c ev,
            In c (map_sched (fun c s => (c, run_unit tm message c s))
                            cs (sched_subs sch)) /\
            In ev (fst (snd c)) /\
            e = _append_parent_context ev (ManagerU n i l k s cs))
      \/ In e (fst k0)).
    { destruct He as [He|He].
      - apply _run_sequential_sources in He. exact He.
      - apply _run_concurrent_sources in He. exact He. }
    destruct He' as [He'|[[c [ev [Hc [Hev He']]]]|He']]; auto.
    right; left.
    apply map_sched_In in Hc. destruct Hc as [c0 [s0 [Hin Hc]]]. subst c.
    exists c0, s0, ev. auto. }
  assert (F : (exists m, e = _attach_context tm (notice m) i l)
              \/ (exists c sub ev,
                    In c cs /\ In ev (fst (run_unit tm message c sub)) /\
                    e = _append_parent_context ev (ManagerU n i l k s cs))
              \/ In e [_attach_context tm
                         (notice (l ++ " finished coordination")) i l] ->
              (exists t d, In t ["notice"; "error"] /\
                 e = _attach_context tm
                       [("type", PStr t); ("data", PDict d)] i l)
              \/ (exists c sub ev,
                    In c cs /\ In ev (fst (run_unit tm message c sub)) /\
                    e = _append_parent_context ev (ManagerU n i l k s cs))).
  { intros [[m Hm]|[Hf|[Hl|[]]]]; auto; subst e; apply N. }
  cbn [run_unit yield_then fst app] in H.
  destruct H as [H|H]; [subst e; apply N|].
  destruct cs as [|c0 r].
  - destruct H as [H|[]]. subst e. left. unfold error_event.
    do 2 eexists. split; [|reflexivity]. simpl; auto.
  - destruct (String.eqb s "concurrent").
    + apply F. apply (S (sched_picks sch) _ (or_intror H)).
    + destruct (str_in s ["sequential"; "sequence"]).
      * apply F. apply (S [] _ (or_introl H)).
      * cbn [yield_then fst app] in H.
        destruct H as [H|H]; [subst e; apply N|].
        apply F. apply (S [] _ (or_introl H)).
Qed.

(** Every event of the stream of a unit has a lineage that is absent or a
    list: the events [_append_parent_context] is applied to are of the form
    the model of [with_parent] covers. *)
Lemma run_unit_lineage_listed : forall tm message u sch e,
  In e (fst (run_unit tm message u sch)) -> lineage_listed e = true.
Proof.
  intros tm message u. induction u as [n i l a|n i l k s cs IH]
    using unit_nested_ind; intros sch e H.
  - apply agent_unit_sources in H. destruct H as [t [d [_ He]]]. subst e.
    apply attached_lineage_listed.
  - apply manager_unit_sources in H.
    destruct H as [[t [d [_ He]]]|[c [sub [ev [_ [_ He]]]]]]; subst e.
    + apply attached_lineage_listed.
    + apply forwarded_lineage_listed.
Qed.

Lemma plain_attach : forall tm t d i l,
  let e := _attach_context tm [("type", PStr t); ("data", PDict d)] i l in
  dict_get "type" e = Some (PStr t) /\
  dict_get "data" e = Some (PDict d) /\
  dict_get "unitId" (context_of e) = Some (PStr i) /\
  dict_get "unitLabel" (context_of e) = Some (PStr l) /\
  lineage_of e = [].
Proof.
  intros tm t d i l e.
  pose proof (@attach_unit_id_new tm [("type", PStr t); ("data", PDict d)] i l)
    as Hid.
  pose proof (@attach_other_keys tm [("type", PStr t); ("data", PDict d)] i l)
    as Hk.
  split; [|split; [|split; [|split]]].
  - unfold e. rewrite Hk by discriminate. reflexivity.
  - unfold e. rewrite Hk by discriminate. reflexivity.
  - apply Hid. reflexivity.
  - unfold e. rewrite context_of_attach. unfold stamp_unit.
    destruct (dict_get i (execution_units tm)); reflexivity.
  - unfold lineage_of, e. rewrite context_of_attach. unfold stamp_unit.
    destruct (dict_get i (execution_units tm)); reflexivity.
Qed.

Lemma forwarded_keeps : forall e parent,
  dict_get "type" (_append_parent_context e parent) = dict_get "type" e /\
  dict_get "data" (_append_parent_context e parent) = dict_get "data" e /\
  dict_get "unitId" (context_of (_append_parent_context e parent)) =
    dict_get "unitId" (context_of e) /\
  dict_get "unitLabel" (context_of (_append_parent_context e parent)) =
    dict_get "unitLabel" (context_of e).
Proof.
  intros e parent. rewrite context_of_forwarded.
  unfold _append_parent_context. rewrite copy_event_id.
  rewrite !dict_get_set_other by discriminate.
  unfold with_parent. rewrite !dict_get_set_other by discriminate.
  auto.
Qed.

Lemma subunits_self : forall u, In u (subunits u).
Proof. destruct u; simpl; auto. Qed.

Lemma subunits_child : forall n i l k s cs c o,
  In c cs -> In o (subunits c) -> In o (subunits (ManagerU n i l k s cs)).
Proof.
  intros. cbn [subunits]. right. apply in_flat_map. eauto.
Qed.

(** X5.  Every event a unit yields is one of the four kinds of events, has
    a [data] dictionary, and names in its context the unit that produced
    it: [unitId] and [unitLabel] are the id and label of the unit itself or
    of a unit below it.  Forwarding by managers never changes them. *)
Theorem events_name_their_origin :
  forall tm message u sch e,
    In e (fst (run_unit tm message u sch)) ->
    exists o t d,
      In o (subunits u) /\
      In t ["notice"; "text"; "tool_call"; "error"] /\
      dict_get "type" e = Some (PStr t) /\
      dict_get "data" e = Some (PDict d) /\
      dict_get "unitId" (context_of e) = Some (PStr (unit_id o)) /\
      dict_get "unitLabel" (context_of e) = Some (PStr (unit_label o)).
Proof.
  intros tm message u. induction u as [n i l a|n i l k s cs IH]
    using unit_nested_ind; intros sch e H.
  - apply agent_unit_sources in H. destruct H as [t [d [Ht He]]]. subst e.
    destruct (plain_attach tm t d i l) as [H1 [H2 [H3 [H4 _]]]].
    exists (AgentU n i l a), t, d. split; [apply subunits_self|]. auto.
  - apply manager_unit_sources in H.
    destruct H as [[t [d [Ht He]]]|[c [sub [ev [Hc [Hev He]]]]]]; subst e.
    + destruct (plain_attach tm t d i l) as [H1 [H2 [H3 [H4 _]]]].
      exists (ManagerU n i l k s cs), t, d.
      split; [apply subunits_self|]. split; [simpl in *; intuition|]. auto.
    + rewrite Forall_forall in IH.
      destruct (IH _ Hc _ _ Hev) as [o [t [d [Ho [Ht [H1 [H2 [H3 H4]]]]]]]].
      destruct (forwarded_keeps ev (ManagerU n i l k s cs))
        as [K1 [K2 [K3 K4]]].
      exists o, t, d. split; [eapply subunits_child; eauto|].
      rewrite K1, K2, K3, K4. auto.
Qed.

Lemma events_name_their_origin_witness :
  let tm := init lonely_project echo_factory name_tool_factory in
  let e := _append_parent_context
             (_attach_context tm (notice "agentX starting execution")
                              "agentX" "agentX")
             managerA_unit in
  In e (fst (run_unit tm "hi" managerA_unit idle)) /\
  exists o t d,
    In o (subunits managerA_unit) /\
    In t ["notice"; "text"; "tool_call"; "error"] /\
    dict_get "type" e = Some (PStr t) /\
    dict_get "data" e = Some (PDict d) /\
    dict_get "unitId" (context_of e) = Some (PStr (unit_id o)) /\
    dict_get "unitLabel" (context_of e) = Some (PStr (unit_label o)).
Proof.
  intros tm e.
  assert (H : In e (fst (run_unit tm "hi" managerA_unit idle))).
  { vm_compute. right; right; left. reflexivity. }
  split; [exact H|].
  exact (@events_name_their_origin tm "hi" managerA_unit idle e H).
Defined.

(** X6.  The lineage of an event names managers only, each at most once:
    every entry is the id of a manager of the tree the event went through,
    and no id is entered twice, even when two managers on the path carry
    the same id. *)
Theorem lineage_names_managers_once :
  forall tm message u sch e,
    In e (fst (run_unit tm message u sch)) ->
    NoDup (lineage_of e) /\
    forall x, In x (lineage_of e) ->
      exists m, In m (subunits u) /\ is_manager m = true /\
                x = PStr (unit_id m).
Proof.
  intros tm message u. induction u as [n i l a|n i l k s cs IH]
    using unit_nested_ind; intros sch e H.
  - apply agent_unit_sources in H. destruct H as [t [d [Ht He]]]. subst e.
    destruct (plain_attach tm t d i l) as [_ [_ [_ [_ H5]]]].
    rewrite H5. split; [constructor|intros x []].
  - apply manager_unit_sources in H.
    destruct H as [[t [d [Ht He]]]|[c [sub [ev [Hc [Hev He]]]]]]; subst e.
    + destruct (plain_attach tm t d i l) as [_ [_ [_ [_ H5]]]].
      rewrite H5. split; [constructor|intros x []].
    + rewrite Forall_forall in IH.
      destruct (IH _ Hc _ _ Hev) as [Hnd Hm].
      assert (Hm' : forall x, In x (lineage_of ev) ->
                exists m, In m (subunits (ManagerU n i l k s cs)) /\
                          is_manager m = true /\ x = PStr (unit_id m)).
      { intros x Hx. destruct (Hm _ Hx) as [m [H1 H2]].
        exists m. split; auto. eapply subunits_child; eauto. }
      rewrite lineage_of_forwarded.
      destruct (existsb (pv_is_str (unit_id (ManagerU n i l k s cs)))
                        (lineage_of ev)) eqn:E; [auto|].
      split.
      * apply NoDup_app; [exact Hnd|repeat constructor; intros []|].
        intros x Hx [Hx'|[]]. subst x.
        apply existsb_pv_is_str in Hx. congruence.
      * intros x Hx. apply in_app_or in Hx. destruct Hx as [Hx|[Hx|[]]]; auto.
        subst x. exists (ManagerU n i l k s cs).
        split; [apply subunits_self|]. auto.
Qed.

Lemma lineage_names_managers_once_witness :
  let tm := init lonely_project echo_factory name_tool_factory in
  let e := _append_parent_context
             (_attach_context tm (notice "agentX starting execution")
                              "agentX" "agentX")
             managerA_unit in
  In e (fst (run_unit tm "hi" managerA_unit idle)) /\
  NoDup (lineage_of e).
Proof.
  intros tm e.
  assert (H : In e (fst (run_unit tm "hi" managerA_unit idle))).
  { vm_compute. right; right; left. reflexivity. }
  split; [exact H|].
  exact (proj1 (@lineage_names_managers_once tm "hi" managerA_unit idle e H)).
Defined.

(** ** When [build] raises *)

Lemma director_children_raise :
  forall tm0, graph_ok tm0 ->
  forall ids acc tm e tm',
    graph_of tm = graph_of tm0 ->
    director_children ids acc tm = (Raise e, tm') ->
    cycle_error tm0 e \/ strategy_error tm0 e.
Proof.
  intros tm0 Wok. induction ids as [|c rest IH]; intros acc tm e tm' G E.
  - simpl in E. discriminate.
  - simpl in E.
    destruct (dict_get c (execution_units tm)); [eapply IH; eauto|].
    destruct (dict_get c (nodes tm)) as [cn|]; [|eapply IH; eauto].
    destruct (String.eqb (n_kind cn) "agent").
    + pose proof (_build_agent_unit_graph c tm) as G1.
      destruct (_build_agent_unit c tm) as [o tm1]. simpl in G1.
      assert (G1' : graph_of tm1 = graph_of tm0) by congruence.
      destruct o; eapply IH; eauto.
    + destruct (String.eqb (n_kind cn) "teamManager"); [|eapply IH; eauto].
      unfold ensure_fuel in E. rewrite (graph_nodes G) in E.
      destruct (_ensure_manager_unit (length (nodes tm0)) c [] tm)
        as [[rc sc] tmc] eqn:Ec.
      assert (P : ensure_post tm0 (fun _ _ => False)
                (fun tm' => dict_get c (nodes tm0) <> None ->
                            In c (dict_keys (manager_units tm')))
                [] tm rc sc tmc).
      { eapply ensure_spec; eauto.
        - intros a b [].
        - apply children_first_none.
        - exact I.
        - constructor.
        - intros x [].
        - simpl. lia. }
      destruct P as [Gc [_ P]]. destruct rc as [[u|]|e0|].
      * eapply IH; eauto.
      * eapply IH; eauto.
      * inversion E; subst. exact P.
      * contradiction.
Qed.

Lemma manager_edge_graph : forall tm tm' a b,
  graph_of tm' = graph_of tm -> manager_edge tm' a b -> manager_edge tm a b.
Proof.
  intros tm tm' a b G H. unfold manager_edge in *.
  assert (Hn := graph_nodes G).
  assert (He : edges tm' = edges tm) by (unfold graph_of in G; now inversion G).
  now rewrite Hn, He in H.
Qed.

Lemma manager_edge_director : forall tm node a b,
  n_kind node = "teamDirector" ->
  manager_edge (set_nodes (dict_set (n_id node) node (nodes tm)) tm) a b ->
  manager_edge tm a b.
Proof.
  intros tm node a b Hk [He [[na [Ha Ka]] [nb [Hb Kb]]]].
  cbn [set_nodes nodes edges] in *.
  assert (K : forall k n, dict_get k (dict_set (n_id node) node (nodes tm))
                          = Some n ->
                          n_kind n = "teamManager" ->
                          dict_get k (nodes tm) = Some n).
  { intros k n H Hn. destruct (String.eqb (n_id node) k) eqn:E.
    - apply String.eqb_eq in E. subst k. rewrite dict_get_set_same in H.
      inversion H; subst. congruence.
    - apply String.eqb_neq in E. now rewrite dict_get_set_other in H. }
  split; [exact He|]. split; [exists na|exists nb]; auto.
Qed.

Lemma cycle_error_cycle : forall tm e,
  cycle_error tm e ->
  exists path pre c cyc,
    e = ValueError (cycle_message path) /\ path = pre ++ c :: cyc ++ [c] /\
    chain (manager_edge tm) (c :: cyc ++ [c]).
Proof.
  intros tm e [path [c [cyc [He [Hch [pre Hpath]]]]]].
  exists path, pre, c, cyc. split; [auto|]. split; [auto|].
  apply cycle_of_manager_edges. rewrite Hpath in Hch.
  eapply chain_suffix; eauto.
Qed.

Lemma strategies_ok_graph : forall tm tm',
  graph_of tm' = graph_of tm -> strategies_ok tm -> strategies_ok tm'.
Proof.
  intros tm tm' G S k n H. apply (S k n).
  now rewrite (graph_nodes G), (graph_manager_nodes G) in H.
Qed.

Lemma build_raise_is_cycle :
  forall project af tf e tm',
    (forall n, In n (p_nodes project) -> d_strategy (n_data n) <> Some None) ->
    let tm := init project af tf in
    build tm = (Raise e, tm') ->
    exists path pre c cyc,
      e = ValueError (cycle_message path) /\
      path = pre ++ c :: cyc ++ [c] /\
      chain (manager_edge tm) (c :: cyc ++ [c]).
Proof.
  intros project af tf e tm' Hstr tm B.
  assert (S0 : strategies_ok tm) by now apply init_strategies_ok.
  assert (W0 : graph_ok tm) by apply init_graph_ok.
  unfold build in B. change (_built tm) with false in B. cbv zeta in B.
  set (tm2 := build_agents (_build_tools tm)) in *.
  assert (G2 : graph_of tm2 = graph_of tm).
  { unfold tm2. rewrite build_agents_graph. apply _build_tools_graph. }
  destruct (build_managers (manager_node_ids tm2) tm2) as [r tm3] eqn:E.
  assert (P : ensure_post tm (fun _ _ => False)
            (fun tm' => forall m, In m (manager_node_ids tm2) ->
                        dict_get m (nodes tm) <> None ->
                        In m (dict_keys (manager_units tm')))
            [] tm2 r [] tm3).
  { eapply build_managers_spec; eauto.
    - intros a b [].
    - apply children_first_none. }
  destruct P as [G3 [_ P]].
  destruct r as [o|e0|]; [|inversion B; subst|contradiction].
  - set (tm4 := set_root_manager_ids (_compute_root_manager_ids tm3) tm3) in *.
    assert (G4 : graph_of tm4 = graph_of tm) by exact G3.
    destruct (_build_director_unit tm4) as [[d|e1|] tm5] eqn:D;
      try discriminate.
    inversion B; subst e1 tm5. clear B.
    unfold _build_director_unit in D.
    set (pair := match director_node tm4 with
                 | Some node => (node, tm4)
                 | None =>
                     (synthesized_director (settings tm4),
                      set_nodes
                        (dict_set (n_id (synthesized_director (settings tm4)))
                           (synthesized_director (settings tm4)) (nodes tm4))
                        tm4)
                 end) in *.
    assert (Q : graph_ok (snd pair) /\ strategies_ok (snd pair) /\
                d_strategy (n_data (fst pair)) <> Some None /\
                forall a b, manager_edge (snd pair) a b -> manager_edge tm a b).
    { unfold pair. destruct (director_node tm4) as [dn|] eqn:Edn;
        cbn [fst snd].
      - split; [exact (graph_ok_graph G4 W0)|].
        split; [exact (strategies_ok_graph G4 S0)|]. split.
        + rewrite (graph_director_node G4) in Edn.
          cbn [init director_node] in Edn. apply find_some in Edn.
          apply Hstr. tauto.
        + intros a b. now apply manager_edge_graph.
      - split; [apply graph_ok_set_nodes; exact (graph_ok_graph G4 W0)|].
        split; [|split; [discriminate|]].
        + intros k n H. cbn [set_nodes nodes manager_nodes] in H.
          destruct H as [H|H].
          * destruct (String.eqb "teamDirector" k) eqn:Ek.
            -- apply String.eqb_eq in Ek. subst k.
               cbn [synthesized_director n_id] in H.
               rewrite dict_get_set_same in H. inversion H; subst.
               discriminate.
            -- apply String.eqb_neq in Ek.
               cbn [synthesized_director n_id] in H.
               rewrite dict_get_set_other in H by exact Ek.
               apply (@strategies_ok_graph _ _ G4 S0 k n). auto.
          * apply (@strategies_ok_graph _ _ G4 S0 k n). auto.
        + intros a b H. apply manager_edge_director in H; [|reflexivity].
          now apply (manager_edge_graph G4). }
    destruct pair as [node tm5]. cbn [fst snd] in Q.
    destruct Q as [W5 [S5 [Hn Hedge]]].
    match type of D with
    | context [director_children ?ids [] tm5] =>
        destruct (director_children ids [] tm5) as [r tm6] eqn:Ed
    end.
    assert (C : forall e', cycle_error tm5 e' \/ strategy_error tm5 e' ->
              exists path pre c cyc,
                e' = ValueError (cycle_message path) /\
                path = pre ++ c :: cyc ++ [c] /\
                chain (manager_edge tm) (c :: cyc ++ [c])).
    { intros e' [Hc|[_ Hs]]; [|contradiction].
      destruct (cycle_error_cycle Hc) as [path [pre [c [cyc [H1 [H2 H3]]]]]].
      exists path, pre, c, cyc. split; [auto|]. split; [auto|].
      eapply chain_impl; [|exact H3]. intros; auto. }
    destruct r as [[|u us]|e1|]; try discriminate.
    + unfold ManagerUnit in D.
      destruct (d_strategy (n_data node)) as [[x|]|]; try discriminate.
      congruence.
    + inversion D; subst. apply C.
      eapply director_children_raise; [exact W5| |exact Ed]. reflexivity.
  - destruct P as [Hc|[_ Hs]]; [|contradiction].
    apply cycle_error_cycle. exact Hc.
Qed.

Lemma chain_clos_trans : forall (R : string -> string -> Prop) l a b,
  chain R (a :: l ++ [b]) -> clos_trans string R a b.
Proof.
  intros R. induction l as [|x r IH]; intros a b H.
  - destruct H as [H _]. now apply t_step.
  - destruct H as [H1 H2]. apply t_trans with x; [now apply t_step|].
    now apply IH.
Qed.

(** X7.  [build] fails for one reason only.  On a project in which no node
    holds [None] as its strategy, [build] either returns its summary and
    marks the hierarchy as built, or raises the cycle error, and then the
    path in the message ends with a real cycle of teamManager-to-teamManager
    edges of the graph.  A tool or an agent that cannot be constructed
    never makes [build] fail, and on a graph without such a cycle [build]
    returns. *)
Theorem build_fails_only_on_a_cycle :
  forall project af tf,
    (forall n, In n (p_nodes project) -> d_strategy (n_data n) <> Some None) ->
    let tm := init project af tf in
    (exists s tm', build tm = (Ok s, tm') /\ _built tm' = true) \/
    (exists path pre c cyc tm',
       build tm = (Raise (ValueError (cycle_message path)), tm') /\
       path = pre ++ c :: cyc ++ [c] /\
       chain (manager_edge tm) (c :: cyc ++ [c]) /\
       clos_trans string (manager_edge tm) c c).
Proof.
  intros project af tf Hstr tm.
  pose proof (@build_total tm (init_graph_ok project af tf)) as T.
  destruct (build tm) as [[s|e|] tm'] eqn:B.
  - left. exists s, tm'. split; [reflexivity|].
    unfold build in B. change (_built tm) with false in B. cbv zeta in B.
    destruct (build_managers _ _) as [[o|e|] tm3]; try discriminate.
    destruct (_build_director_unit _) as [[d|e|] tm5]; try discriminate.
    inversion B. reflexivity.
  - right.
    destruct (@build_raise_is_cycle project af tf e tm' Hstr B)
      as [path [pre [c [cyc [He [Hp H]]]]]].
    exists path, pre, c, cyc, tm'. subst e. split; [reflexivity|].
    split; [exact Hp|]. split; [exact H|].
    eapply chain_clos_trans; eauto.
  - exfalso. apply T. reflexivity.
Qed.

Lemma build_fails_only_on_a_cycle_witness :
  (exists s tm',
     build (init two_level_project echo_factory name_tool_factory) = (Ok s, tm')
     /\ _built tm' = true) \/
  (exists path pre c cyc tm',
     build (init two_level_project echo_factory name_tool_factory) =
       (Raise (ValueError (cycle_message path)), tm') /\
     path = pre ++ c :: cyc ++ [c] /\
     chain (manager_edge (init two_level_project echo_factory
                               name_tool_factory)) (c :: cyc ++ [c]) /\
     clos_trans string
       (manager_edge (init two_level_project echo_factory name_tool_factory))
       c c).
Proof.
  apply (@build_fails_only_on_a_cycle two_level_project echo_factory
           name_tool_factory).
  intros n [H|[H|[H|[]]]]; subst n; discriminate.
Defined.

(** ** Tools and agents *)

Lemma dict_set_NoDup : forall (V : Type) k (v : V) d,
  NoDup (dict_keys d) -> NoDup (dict_keys (dict_set k v d)).
Proof.
  intros V k v d H. rewrite dict_keys_set. unfold dict_mem.
  destruct (dict_get k d) eqn:E; auto.
  apply dict_get_None in E.
  apply NoDup_app; auto.
  - repeat constructor. intros [].
  - intros x Hx [Hk|[]]. subst. contradiction.
Qed.

Lemma init_nodes_NoDup : forall project af tf,
  NoDup (dict_keys (nodes (init project af tf))).
Proof.
  intros project af tf. cbn [init nodes].
  assert (H : forall ns (d : dict Node), NoDup (dict_keys d) ->
            NoDup (dict_keys
                     (fold_left (fun d n => dict_set (n_id n) n d) ns d))).
  { induction ns as [|n r IH]; simpl; intros d Hd; auto.
    apply IH. now apply dict_set_NoDup. }
  apply H. constructor.
Qed.

Lemma _build_tools_fold : forall items tm,
  NoDup (map fst items) ->
  let tm' :=
    fold_left
      (fun tm (item : string * Node) =>
         let (node_id, node) := item in
         if negb (String.eqb (n_kind node) "tool") then tm
         else
           let tm := log_call (CallBuildTool node) tm in
           match tool_factory tm node with
           | ToolBuilt tool => set_tools (dict_set node_id tool (tools tm)) tm
           | ToolFalsy => tm
           | ToolRaised => tm
           end)
      items tm in
  (forall i,
     dict_get i (tools tm') =
     match dict_get i items with
     | Some n =>
         if String.eqb (n_kind n) "tool" then
           match tool_factory tm n with
           | ToolBuilt t => Some t
           | _ => dict_get i (tools tm)
           end
         else dict_get i (tools tm)
     | None => dict_get i (tools tm)
     end) /\
  calls tm' =
    calls tm ++ map CallBuildTool
                    (filter (fun n => String.eqb (n_kind n) "tool")
                            (map snd items)) /\
  tool_factory tm' = tool_factory tm.
Proof.
  induction items as [|[k n] r IH]; intros tm Hnd.
  - simpl. split; [auto|]. split; [now rewrite app_nil_r|auto].
  - inversion Hnd as [|x l Hk Hr]; subst. cbn [fold_left].
    set (tm1 := if negb (String.eqb (n_kind n) "tool") then tm
                else match tool_factory (log_call (CallBuildTool n) tm) n with
                     | ToolBuilt tool =>
                         set_tools
                           (dict_set k tool
                              (tools (log_call (CallBuildTool n) tm)))
                           (log_call (CallBuildTool n) tm)
                     | ToolFalsy => log_call (CallBuildTool n) tm
                     | ToolRaised => log_call (CallBuildTool n) tm
                     end).
    destruct (IH tm1 Hr) as [I1 [I2 I3]].
    assert (F1 : tool_factory tm1 = tool_factory tm).
    { unfold tm1. destruct (String.eqb (n_kind n) "tool"); simpl; auto.
      destruct (tool_factory tm n); reflexivity. }
    assert (C1 : calls tm1 =
                 calls tm ++ (if String.eqb (n_kind n) "tool"
                              then [CallBuildTool n] else [])).
    { unfold tm1. destruct (String.eqb (n_kind n) "tool"); simpl.
      - destruct (tool_factory tm n); reflexivity.
      - now rewrite app_nil_r. }
    assert (T1 : forall i,
               dict_get i (tools tm1) =
               if String.eqb i k then
                 (if String.eqb (n_kind n) "tool" then
                    match tool_factory tm n with
                    | ToolBuilt t => Some t
                    | _ => dict_get i (tools tm)
                    end
                  else dict_get i (tools tm))
               else dict_get i (tools tm)).
    { intros i. unfold tm1.
      destruct (String.eqb (n_kind n) "tool"); simpl.
      - destruct (tool_factory tm n); simpl;
          destruct (String.eqb i k) eqn:Ei; auto.
        + apply String.eqb_eq in Ei. subst. apply dict_get_set_same.
        + apply String.eqb_neq in Ei. apply dict_get_set_other. congruence.
      - destruct (String.eqb i k); auto. }
    split; [|split].
    + intros i. refine (eq_trans (I1 i) _). rewrite F1, T1. cbn [dict_get].
      destruct (String.eqb i k) eqn:Ei; auto.
      apply String.eqb_eq in Ei. subst i.
      assert (Hn : dict_get k r = None).
      { apply dict_get_None. exact Hk. }
      rewrite Hn. reflexivity.
    + refine (eq_trans I2 _). rewrite C1. cbn [map snd filter].
      destruct (String.eqb (n_kind n) "tool"); simpl;
        now rewrite <- app_assoc.
    + exact (eq_trans I3 F1).
Qed.

(** X8.  [_build_tools] leaves in [tools] exactly the tool nodes the
    factory built: the entry of an id is the factory's tool for the node of
    that id when the node is a tool and the factory returned a tool, and
    absent otherwise (not a tool, falsy result, exception).  The factory is
    called once per tool node, in the order of the node dictionary, and for
    no other node. *)
Theorem tools_built_per_tool_node :
  forall project af tf,
    let tm := init project af tf in
    (forall i,
       dict_get i (tools (_build_tools tm)) =
       match dict_get i (nodes tm) with
       | Some n =>
           if String.eqb (n_kind n) "tool" then
             match tf n with
             | ToolBuilt t => Some t
             | ToolFalsy => None
             | ToolRaised => None
             end
           else None
       | None => None
       end) /\
    calls (_build_tools tm) =
      map CallBuildTool
          (filter (fun n => String.eqb (n_kind n) "tool")
                  (map snd (nodes tm))).
Proof.
  intros project af tf tm.
  destruct (@_build_tools_fold (nodes tm) tm (init_nodes_NoDup project af tf))
    as [H1 [H2 _]].
  split.
  - intros i. unfold _build_tools. rewrite H1.
    change (tool_factory tm) with tf. change (tools tm) with (@nil (string * Tool)).
    destruct (dict_get i (nodes tm)) as [n|]; [|reflexivity].
    destruct (String.eqb (n_kind n) "tool"); [|reflexivity].
    destruct (tf n); reflexivity.
  - exact H2.
Qed.

Lemma _build_agent_unit_calls : forall a tm,
  dict_get a (agent_units tm) = None ->
  _build_agent_unit a tm =
  match or_node (dict_get a (agent_nodes tm)) (dict_get a (nodes tm)) with
  | None => (None, tm)
  | Some node =>
      let agent_tools :=
        flat_map (fun tool_id => match dict_get tool_id (tools tm) with
                                 | Some t => [t]
                                 | None => []
                                 end)
                 (_resolve_children tm a ["tool"]) in
      match agent_factory tm node agent_tools with
      | None => (None, log_call (CallCreateAgent node agent_tools) tm)
      | Some agent =>
          let tm1 := log_call (CallCreateAgent node agent_tools) tm in
          (Some (AgentUnit node agent),
           set_execution_units
             (dict_set a (AgentUnit node agent) (execution_units tm1))
             (set_agent_units
                (dict_set a (AgentUnit node agent) (agent_units tm1))
                (set_agents (dict_set a agent (agents tm1)) tm1)))
      end
  end.
Proof.
  intros a tm H. unfold _build_agent_unit. rewrite H.
  destruct (or_node _ _) as [node|]; [|reflexivity].
  reflexivity.
Qed.

(** X9.  An agent unit is constructed once; a failure is not remembered.
    After [_build_agent_unit] has returned a unit, a further call returns
    the same unit and leaves the state as it is, so the factory is not
    called again.  After it has returned [None], nothing is registered and
    a further call does the same work again: it calls the factory with the
    same node and tools once more and returns [None] again. *)
Theorem agent_units_are_memoized :
  forall a tm r tm',
    _build_agent_unit a tm = (r, tm') ->
    match r with
    | Some u =>
        _build_agent_unit a tm' = (Some u, tm') /\
        dict_get a (agent_units tm') = Some u
    | None =>
        agent_units tm' = agent_units tm /\
        execution_units tm' = execution_units tm /\
        exists new,
          calls tm' = calls tm ++ new /\
          fst (_build_agent_unit a tm') = None /\
          calls (snd (_build_agent_unit a tm')) = calls tm' ++ new
    end.
Proof.
  intros a tm r tm' H.
  destruct (dict_get a (agent_units tm)) as [u0|] eqn:E.
  - unfold _build_agent_unit in H. rewrite E in H. inversion H; subst.
    split; [|exact E]. unfold _build_agent_unit. now rewrite E.
  - rewrite (_build_agent_unit_calls _ _ E) in H.
    destruct (or_node (dict_get a (agent_nodes tm)) (dict_get a (nodes tm)))
      as [node|] eqn:En.
    + cbv zeta in H.
      destruct (agent_factory tm node _) as [agent|] eqn:Ef;
        injection H as Hr Htm; subst r.
      * assert (Hu : dict_get a (agent_units tm') =
                     Some (AgentUnit node agent)).
        { rewrite <- Htm.
          cbn [agent_units set_execution_units set_agent_units].
          apply dict_get_set_same. }
        split; [|exact Hu].
        unfold _build_agent_unit. rewrite Hu. reflexivity.
      * subst tm'. split; [reflexivity|]. split; [reflexivity|].
        eexists. split; [reflexivity|].
        rewrite _build_agent_unit_calls by exact E.
        cbn [agent_nodes nodes log_call]. rewrite En. cbv zeta.
        change (_resolve_children (log_call ?c tm) a ["tool"])
          with (_resolve_children tm a ["tool"]).
        cbn [tools agent_factory log_call]. rewrite Ef.
        split; reflexivity.
    + injection H as Hr Htm; subst r tm'.
      split; [reflexivity|]. split; [reflexivity|].
      exists []. rewrite app_nil_r. split; [reflexivity|].
      rewrite _build_agent_unit_calls by exact E. rewrite En.
      split; reflexivity.
Qed.

Lemma agent_units_are_memoized_witness :
  let tm := init two_level_project echo_factory name_tool_factory in
  exists u tm',
    _build_agent_unit "agentX" tm = (Some u, tm') /\
    _build_agent_unit "agentX" tm' = (Some u, tm').
Proof.
  intros tm.
  destruct (_build_agent_unit "agentX" tm) as [r tm'] eqn:E.
  assert (Hr : r = Some agentX_unit).
  { change r with (fst (r, tm')). rewrite <- E. vm_compute. reflexivity. }
  pose proof (@agent_units_are_memoized "agentX" tm r tm' E) as H.
  subst r. exists agentX_unit, tm'. split; [reflexivity|exact (proj1 H)].
Defined.

(** ** Targets that cannot run *)

(** X10.  A target that is neither ["team"] nor the id of a unit of the
    built hierarchy is reported inside the stream: between the starting and
    the complete notice there is the one error event that names the target.
    No unit runs and nothing is raised. *)
Theorem unknown_target_reported :
  forall tm message target sch s tm',
    build tm = (Ok s, tm') ->
    target <> "team" ->
    dict_get target (execution_units tm') = None ->
    run_stream tm message target sch =
      (([starting_notice;
         error_event ("Target " ++ target ++ " not found");
         complete_notice], Done), tm').
Proof.
  intros tm message target sch s tm' B Ht Hu.
  assert (R : (if _built tm then (Ok tt, tm)
               else match build tm with
                    | (Ok _, tm) => (Ok tt, tm)
                    | (Raise e, tm) => (Raise e, tm)
                    | (OutOfFuel, tm) => (OutOfFuel, tm)
                    end) = (Ok tt, tm')).
  { destruct (_built tm) eqn:Eb.
    - unfold build in B. rewrite Eb in B. now inversion B.
    - now rewrite B. }
  unfold run_stream. rewrite R.
  unfold dispatch. apply String.eqb_neq in Ht. rewrite Ht, Hu.
  reflexivity.
Qed.

Lemma unknown_target_reported_witness :
  fst (run_stream (init two_level_project echo_factory name_tool_factory)
                  "hi" "nobody" idle) =
    ([starting_notice; error_event "Target nobody not found";
      complete_notice], Done).
Proof.
  set (tm := init two_level_project echo_factory name_tool_factory).
  assert (B : build tm =
              (Ok {| s_agents := 1; s_team_managers := 1; s_tools := 0;
                     s_director := true |}, snd (build tm))).
  { vm_compute. reflexivity. }
  rewrite (@unknown_target_reported tm "hi" "nobody" idle _ _ B).
  - reflexivity.
  - discriminate.
  - vm_compute. reflexivity.
Defined.

Lemma ids_of_kind_nil : forall k ns,
  (forall n, In n ns -> n_kind n <> k) -> ids_of_kind k ns = [].
Proof.
  intros k ns H. unfold ids_of_kind.
  induction ns as [|n r IH]; simpl; auto.
  destruct (String.eqb (n_kind n) k) eqn:E.
  - apply String.eqb_eq in E. exfalso. apply (H n); simpl; auto.
  - apply IH. intros n' Hn'. apply H. simpl; auto.
Qed.

Lemma _resolve_children_kind : forall tm a k0 ks b,
  In b (_resolve_children tm a (k0 :: ks)) ->
  exists nb, dict_get b (nodes tm) = Some nb /\
             str_in (n_kind nb) (k0 :: ks) = true.
Proof.
  intros tm a k0 ks b H. unfold _resolve_children in H.
  apply in_flat_map in H. destruct H as [e [_ H]].
  destruct (negb _); [contradiction|].
  destruct (truthy_opt (e_target e)) as [t|]; [|contradiction].
  destruct (dict_get t (nodes tm)) as [nt|] eqn:En; [|contradiction].
  destruct (str_in (n_kind nt) (k0 :: ks)) eqn:Ek; [|contradiction].
  destruct H as [H|[]]. subst t. eauto.
Qed.

Lemma graph_agent_node_ids : forall tm tm',
  graph_of tm' = graph_of tm -> agent_node_ids tm' = agent_node_ids tm.
Proof. intros tm tm' G. unfold graph_of in G. now inversion G. Qed.

(** What [build] leaves on a project without agent and manager nodes. *)
Lemma build_nothing_to_run : forall project af tf,
  (forall n, In n (p_nodes project) ->
             n_kind n <> "agent" /\ n_kind n <> "teamManager") ->
  exists tmF,
    build (init project af tf) = (Ok (summary tmF), tmF) /\
    director_unit tmF = None /\ root_manager_ids tmF = [] /\
    manager_units tmF = [] /\ agent_node_ids tmF = [] /\
    agent_units tmF = [].
Proof.
  intros project af tf Hk. set (tm := init project af tf).
  assert (A0 : agent_node_ids tm = []).
  { cbn [tm init agent_node_ids]. apply ids_of_kind_nil.
    intros n Hn. apply Hk; auto. }
  assert (M0 : manager_node_ids tm = []).
  { cbn [tm init manager_node_ids]. apply ids_of_kind_nil.
    intros n Hn. apply Hk; auto. }
  set (tm1 := _build_tools tm).
  assert (G1 : graph_of tm1 = graph_of tm) by apply _build_tools_graph.
  assert (A1 : agent_node_ids tm1 = []).
  { now rewrite (graph_agent_node_ids G1). }
  assert (M1 : manager_node_ids tm1 = []).
  { now rewrite (graph_manager_node_ids G1). }
  assert (MU1 : manager_units tm1 = []).
  { unfold tm1. now rewrite (_build_tools_frame manager_units). }
  assert (AU1 : agent_units tm1 = []).
  { unfold tm1. now rewrite (_build_tools_frame agent_units). }
  assert (K : forall b nb, dict_get b (nodes tm1) = Some nb ->
                           str_in (n_kind nb) ["teamManager"; "agent"] = false).
  { intros b nb H. rewrite (graph_nodes G1) in H. apply init_node in H.
    destruct H as [Hin _]. destruct (Hk _ Hin) as [H1 H2].
    unfold str_in. cbn [existsb].
    apply String.eqb_neq in H1. apply String.eqb_neq in H2.
    now rewrite H1, H2. }
  set (tm4 := set_root_manager_ids [] tm1).
  set (tm5 := match director_node tm4 with
              | Some node => tm4
              | None =>
                  set_nodes
                    (dict_set (n_id (synthesized_director (settings tm4)))
                       (synthesized_director (settings tm4)) (nodes tm4)) tm4
              end).
  assert (D : _build_director_unit tm4 = (Ok None, tm5)).
  { unfold _build_director_unit, tm5.
    destruct (director_node tm4) as [dn|] eqn:Edn.
    - destruct (_resolve_children tm4 (n_id dn) ["teamManager"; "agent"])
        as [|b l] eqn:R.
      + cbn [tm4 root_manager_ids manager_node_ids agent_node_ids
             set_root_manager_ids].
        rewrite M1, A1. reflexivity.
      + exfalso.
        assert (Hb : In b (_resolve_children tm4 (n_id dn)
                             ["teamManager"; "agent"])).
        { rewrite R. now left. }
        apply _resolve_children_kind in Hb. destruct Hb as [nb [Hb1 Hb2]].
        cbn [tm4 nodes set_root_manager_ids] in Hb1.
        rewrite (K _ _ Hb1) in Hb2. discriminate.
    - match goal with
      | |- context [_resolve_children ?t ?i ["teamManager"; "agent"]] =>
          destruct (_resolve_children t i ["teamManager"; "agent"])
            as [|b l] eqn:R
      end.
      + cbn [tm4 root_manager_ids manager_node_ids agent_node_ids
             set_root_manager_ids set_nodes].
        rewrite M1, A1. reflexivity.
      + exfalso.
        match type of R with
        | _resolve_children ?t ?i _ = _ =>
            assert (Hb : In b (_resolve_children t i ["teamManager"; "agent"]))
        end.
        { rewrite R. now left. }
        apply _resolve_children_kind in Hb. destruct Hb as [nb [Hb1 Hb2]].
        cbn [tm4 nodes set_root_manager_ids set_nodes] in Hb1.
        destruct (String.eqb (n_id (synthesized_director (settings tm1))) b)
          eqn:Eb.
        * apply String.eqb_eq in Eb. rewrite <- Eb in Hb1.
          rewrite dict_get_set_same in Hb1. inversion Hb1; subst nb.
          discriminate.
        * apply String.eqb_neq in Eb.
          rewrite dict_get_set_other in Hb1 by exact Eb.
          rewrite (K _ _ Hb1) in Hb2. discriminate. }
  exists (set_built true (set_director_unit None tm5)).
  split.
  - unfold build. change (_built tm) with false. cbv zeta. fold tm1.
    unfold build_agents. rewrite A1. cbn [fold_left].
    rewrite M1. cbn [build_managers].
    unfold _compute_root_manager_ids. rewrite M1. cbn [filter].
    fold tm4. rewrite D. reflexivity.
  - unfold tm5. destruct (director_node tm4);
      cbn [director_unit root_manager_ids manager_units agent_node_ids
           agent_units set_built set_director_unit set_nodes tm4
           set_root_manager_ids];
      rewrite MU1, A1, AU1; auto.
Qed.

(** X11.  A project without any agent and any team manager has nothing to
    run: [build] returns, and a run of the team yields, between the
    starting and the complete notice, the workflow notice and the error
    event that says so.  Tool nodes and edges do not change this. *)
Theorem empty_team_reported :
  forall project af tf message sch,
    (forall n, In n (p_nodes project) ->
               n_kind n <> "agent" /\ n_kind n <> "teamManager") ->
    fst (run_stream (init project af tf) message "team" sch) =
      ([starting_notice; notice "Running team workflow";
        error_event "No agents or managers available";
        complete_notice], Done).
Proof.
  intros project af tf message sch Hk.
  destruct (@build_nothing_to_run project af tf Hk)
    as [tmF [B [HD [HR [HM [HA HU]]]]]].
  unfold run_stream.
  change (_built (init project af tf)) with false. cbv iota.
  rewrite B. cbn [fst].
  unfold dispatch. rewrite String.eqb_refl, HD.
  unfold _run_without_director. rewrite HR, HM, HA.
  reflexivity.
Qed.

Lemma empty_team_reported_witness :
  fst (run_stream (init tools_only_project echo_factory name_tool_factory)
                  "hi" "team" idle) =
    ([starting_notice; notice "Running team workflow";
      error_event "No agents or managers available";
      complete_notice], Done).
Proof.
  apply empty_team_reported.
  intros n [H|[]]; subst n; split; discriminate.
Defined.

(** ** The hierarchy mirrors the graph *)

Lemma graph_of_log_call : forall c tm, graph_of (log_call c tm) = graph_of tm.
Proof. reflexivity. Qed.

Lemma agents_fixed_refl : forall tm, agents_fixed tm tm.
Proof. intros tm. unfold agents_fixed. auto. Qed.

Lemma members_same : forall tm0 tm tm' m,
  agent_units tm' = agent_units tm ->
  (forall c, child_rel tm0 m c ->
             dict_get c (manager_units tm') = dict_get c (manager_units tm)) ->
  members tm0 tm' m = members tm0 tm m.
Proof.
  intros tm0 tm tm' m HA HM. unfold members.
  assert (H : forall l,
            incl l (_resolve_children tm0 m ["agent"; "teamManager"]) ->
            flat_map (member tm0 tm') l = flat_map (member tm0 tm) l).
  { induction l as [|c r IH]; intros Hl; simpl; auto.
    rewrite IH by (intros x Hx; apply Hl; now right). f_equal.
    unfold member. destruct (dict_get c (nodes tm0)) as [cn|] eqn:Ec; auto.
    rewrite HA. destruct (String.eqb (n_kind cn) "agent"); auto.
    destruct (String.eqb (n_kind cn) "teamManager") eqn:Km; auto.
    apply String.eqb_eq in Km. rewrite HM; auto.
    split; [apply Hl; now left|eauto]. }
  apply H. apply incl_refl.
Qed.

Lemma mirrored_same : forall tm0 tm tm',
  agent_units tm' = agent_units tm -> manager_units tm' = manager_units tm ->
  mirrored tm0 tm -> mirrored tm0 tm'.
Proof.
  intros tm0 tm tm' HA HM Mi m u H. rewrite HM in H.
  destruct (Mi m u H) as [[node [Hn Hu]] Hc]. split.
  - exists node. split; auto.
    rewrite (@members_same tm0 tm tm' m); auto.
    intros c _. now rewrite HM.
  - intros c Hrel. rewrite HM. auto.
Qed.

Lemma agent_child_fixed : forall tm0 c cn tm o tm1,
  agents_settled tm0 ->
  dict_get c (nodes tm0) = Some cn -> n_kind cn = "agent" ->
  agents_fixed tm0 tm -> _build_agent_unit c tm = (o, tm1) ->
  o = dict_get c (agent_units tm0) /\ agents_fixed tm0 tm1 /\
  manager_units tm1 = manager_units tm.
Proof.
  intros tm0 c cn tm o tm1 S Hc Hk F E.
  assert (Ho : o = dict_get c (agent_units tm0)).
  { rewrite <- (S c cn tm Hc Hk F). now rewrite E. }
  split; [exact Ho|].
  destruct F as [G [T A]].
  unfold _build_agent_unit in E. rewrite A in E.
  destruct (dict_get c (agent_units tm0)) as [u|] eqn:Eu.
  - inversion E; subst. unfold agents_fixed. auto.
  - destruct (or_node _ _) as [node|].
    + destruct (agent_factory _ _ _) as [agent|];
        injection E as E1 E2; [congruence|].
      subst tm1. unfold agents_fixed. auto.
    + inversion E; subst. unfold agents_fixed. auto.
Qed.

Lemma ensure_children_mirror :
  forall tm0 rec stack1,
    agents_settled tm0 ->
    (forall c tm r stack' tm',
        agents_fixed tm0 tm -> mirrored tm0 tm ->
        rec c stack1 tm = (Ok r, stack', tm') ->
        mirror_post tm0 stack1 tm stack' tm' /\
        match r with
        | Some u => dict_get c (manager_units tm') = Some u
        | None => dict_get c (nodes tm0) = None
        end) ->
    forall child_ids acc tm units stack' tm',
      agents_fixed tm0 tm -> mirrored tm0 tm ->
      ensure_children rec child_ids acc stack1 tm = (Ok units, stack', tm') ->
      mirror_post tm0 stack1 tm stack' tm' /\
      units = acc ++ flat_map (member tm0 tm') child_ids /\
      forall c cn, In c child_ids -> dict_get c (nodes tm0) = Some cn ->
                   n_kind cn = "teamManager" ->
                   dict_get c (manager_units tm') <> None.
Proof.
  intros tm0 rec stack1 S Hrec.
  induction child_ids as [|c rest IH]; intros acc tm units stack' tm' F Mi E.
  - simpl in E. inversion E; subst. split; [|split].
    + unfold mirror_post. auto.
    + simpl. now rewrite app_nil_r.
    + intros c cn [].
  - simpl in E. rewrite (graph_nodes (proj1 F)) in E.
    destruct (dict_get c (nodes tm0)) as [cn|] eqn:Ec.
    + destruct (String.eqb (n_kind cn) "agent") eqn:Ka.
      * apply String.eqb_eq in Ka.
        destruct (_build_agent_unit c tm) as [o tm1] eqn:Eb.
        destruct (@agent_child_fixed tm0 c cn tm o tm1 S Ec Ka F Eb)
          as [Ho [F1 M1]].
        assert (Mi1 : mirrored tm0 tm1).
        { eapply mirrored_same; [|exact M1|exact Mi].
          destruct F as [_ [_ A]]. destruct F1 as [_ [_ A1]]. congruence. }
        assert (R : exists acc1,
                  ensure_children rec rest acc1 stack1 tm1 =
                    (Ok units, stack', tm') /\
                  acc1 = acc ++ unit_list (dict_get c (agent_units tm0))).
        { destruct o as [u|]; rewrite <- Ho; simpl; eexists; split; eauto.
          now rewrite app_nil_r. }
        destruct R as [acc1 [E1 Hacc]].
        destruct (IH _ _ _ _ _ F1 Mi1 E1) as [P [Hu Hb]].
        destruct P as [P1 [P2 [P3 [P4 P5]]]].
        split; [|split].
        -- unfold mirror_post. rewrite <- M1. auto.
        -- rewrite Hu, Hacc. simpl. rewrite <- app_assoc. f_equal. f_equal.
           unfold member. rewrite Ec. rewrite Ka. simpl.
           destruct P2 as [_ [_ A']]. now rewrite A'.
        -- intros c' cn' [Hc|Hc] Hn Hkm; [|eauto].
           subst c'. rewrite Ec in Hn. inversion Hn; subst. congruence.
      * destruct (String.eqb (n_kind cn) "teamManager") eqn:Km.
        -- destruct (rec c stack1 tm) as [[rc sc] tmc] eqn:Er.
           destruct rc as [[u|]|e|]; try discriminate.
           ++ destruct (Hrec _ _ _ _ _ F Mi Er)
                as [[Q1 [Q2 [Q3 [Q4 Q5]]]] Q6]. subst sc.
              destruct (IH _ _ _ _ _ Q2 Q3 E) as [P [Hu Hb]].
              destruct P as [P1 [P2 [P3 [P4 P5]]]].
              split; [|split].
              ** unfold mirror_post. split; [auto|]. split; [auto|].
                 split; [auto|]. split; [auto|].
                 intros k Hk. rewrite P5, Q5; auto.
              ** rewrite Hu. simpl. rewrite <- app_assoc. f_equal. f_equal.
                 unfold member. rewrite Ec, Ka, Km.
                 rewrite (P4 _ _ Q6). reflexivity.
              ** intros c' cn' [Hc|Hc] Hn Hkm; [|eauto].
                 subst c'. rewrite (P4 _ _ Q6). discriminate.
           ++ destruct (Hrec _ _ _ _ _ F Mi Er) as [_ Q6]. congruence.
        -- destruct (IH _ _ _ _ _ F Mi E) as [P [Hu Hb]].
           split; [exact P|]. split.
           ++ rewrite Hu. simpl. f_equal.
              unfold member. now rewrite Ec, Ka, Km.
           ++ intros c' cn' [Hc|Hc] Hn Hkm; [|eauto].
              subst c'. rewrite Ec in Hn. inversion Hn; subst.
              apply String.eqb_neq in Km. contradiction.
    + destruct (IH _ _ _ _ _ F Mi E) as [P [Hu Hb]].
      split; [exact P|]. split.
      * rewrite Hu. simpl. f_equal. unfold member. now rewrite Ec.
      * intros c' cn' [Hc|Hc] Hn Hkm; [|eauto]. subst c'. congruence.
Qed.

Lemma flat_map_agree : forall (A B : Type) (f g : A -> list B) l,
  (forall a, In a l -> f a = g a) -> flat_map f l = flat_map g l.
Proof.
  induction l as [|a r IH]; intros H; simpl; auto.
  rewrite H by now left. rewrite IH; auto.
  intros x Hx. apply H. now right.
Qed.

Lemma ensure_mirror :
  forall tm0,
    agents_settled tm0 ->
    (forall m, or_node (dict_get m (manager_nodes tm0)) (dict_get m (nodes tm0))
               = dict_get m (nodes tm0)) ->
    forall fuel m stack tm r stack' tm',
      agents_fixed tm0 tm -> mirrored tm0 tm ->
      _ensure_manager_unit fuel m stack tm = (Ok r, stack', tm') ->
      mirror_post tm0 stack tm stack' tm' /\
      match r with
      | Some u => dict_get m (manager_units tm') = Some u
      | None => dict_get m (nodes tm0) = None
      end.
Proof.
  intros tm0 S Hor.
  induction fuel as [|fuel IH]; intros m stack tm r stack' tm' F Mi E.
  all: cbn [_ensure_manager_unit] in E.
  all: destruct (dict_get m (manager_units tm)) as [u|] eqn:Em;
    [inversion E; subst; split; [unfold mirror_post; auto|exact Em]|].
  all: rewrite (graph_manager_nodes (proj1 F)), (graph_nodes (proj1 F)) in E.
  all: rewrite Hor in E.
  all: destruct (dict_get m (nodes tm0)) as [node|] eqn:En;
    [|inversion E; subst; split; [unfold mirror_post; auto|reflexivity]].
  all: destruct (str_in m stack) eqn:Es; [discriminate|].
  - discriminate.
  - assert (Hm : ~ In m stack).
    { intros Hin. apply str_in_In in Hin. congruence. }
    rewrite (_resolve_children_graph m ["agent"; "teamManager"] (proj1 F)) in E.
    destruct (ensure_children (_ensure_manager_unit fuel)
                (_resolve_children tm0 m ["agent"; "teamManager"]) []
                (stack ++ [m]) tm) as [[rc sc] tmc] eqn:Ech.
    destruct rc as [units|e|]; try discriminate.
    destruct (@ensure_children_mirror tm0 (_ensure_manager_unit fuel)
                (stack ++ [m]) S
                (fun c tmx rx sx tmx' Fx Mx Ex => IH c _ tmx rx sx tmx' Fx Mx Ex)
                _ _ _ _ _ _ F Mi Ech)
      as [[P1 [P2 [P3 [P4 P5]]]] [Hu Hb]].
    subst sc. rewrite removelast_last in E.
    simpl in Hu. fold (members tm0 tmc m) in Hu.
    destruct (ManagerUnit node units "teamManager") as [unit|e|] eqn:EM;
      try discriminate.
    inversion E; subst r stack' tm'. clear E.
    assert (Hnone : dict_get m (manager_units tmc) = None).
    { rewrite P5; [exact Em|]. apply in_or_app. right. now left. }
    assert (Hother : forall c, dict_get c (manager_units tmc) <> None ->
              dict_get c (dict_set m unit (manager_units tmc)) =
              dict_get c (manager_units tmc)).
    { intros c Hc. apply dict_get_set_other. intros Heq. subst c.
      contradiction. }
    assert (Hmem : forall k,
              (forall c, child_rel tm0 k c ->
                         dict_get c (manager_units tmc) <> None) ->
              members tm0
                (set_execution_units
                   (dict_set m unit (execution_units
                      (set_manager_units
                         (dict_set m unit (manager_units tmc)) tmc)))
                   (set_manager_units (dict_set m unit (manager_units tmc))
                      tmc)) k
              = members tm0 tmc k).
    { intros k Hk. apply members_same; [reflexivity|].
      intros c Hrel.
      cbn [manager_units set_execution_units set_manager_units].
      apply Hother. auto. }
    assert (Hkids : forall c, child_rel tm0 m c ->
              dict_get c (manager_units tmc) <> None).
    { intros c [Hin [cn [Hn Hk]]]. eapply Hb; eauto. }
    split; [|cbn [manager_units set_execution_units set_manager_units];
             apply dict_get_set_same].
    unfold mirror_post. split; [reflexivity|]. split; [|split; [|split]].
    + destruct P2 as [G [T A]]. unfold agents_fixed. auto.
    + intros k u' Hk.
      cbn [manager_units set_execution_units set_manager_units] in Hk.
      destruct (String.eqb m k) eqn:Ek.
      * apply String.eqb_eq in Ek. subst k.
        rewrite dict_get_set_same in Hk. inversion Hk; subst u'. split.
        -- exists node. split; [exact En|].
           rewrite Hmem by exact Hkids. now rewrite <- Hu.
        -- intros c Hrel.
           cbn [manager_units set_execution_units set_manager_units].
           rewrite Hother; auto.
      * apply String.eqb_neq in Ek.
        rewrite dict_get_set_other in Hk by exact Ek.
        destruct (P3 _ _ Hk) as [[nk [Hnk Huk]] Hck]. split.
        -- exists nk. split; [exact Hnk|]. now rewrite Hmem.
        -- intros c Hrel.
           cbn [manager_units set_execution_units set_manager_units].
           rewrite Hother; auto.
    + intros k v Hk.
      cbn [manager_units set_execution_units set_manager_units].
      apply P4 in Hk. rewrite Hother; [exact Hk|congruence].
    + intros k Hk.
      cbn [manager_units set_execution_units set_manager_units].
      rewrite dict_get_set_other by (intros Heq; subst k; contradiction).
      apply P5. apply in_or_app. now left.
Qed.

Lemma build_managers_mirror :
  forall tm0,
    agents_settled tm0 ->
    (forall m, or_node (dict_get m (manager_nodes tm0)) (dict_get m (nodes tm0))
               = dict_get m (nodes tm0)) ->
    forall ids tm r tm',
      agents_fixed tm0 tm -> mirrored tm0 tm ->
      build_managers ids tm = (Ok r, tm') ->
      agents_fixed tm0 tm' /\ mirrored tm0 tm' /\
      (forall k v, dict_get k (manager_units tm) = Some v ->
                   dict_get k (manager_units tm') = Some v) /\
      forall m, In m ids -> dict_get m (nodes tm0) <> None ->
                dict_get m (manager_units tm') <> None.
Proof.
  intros tm0 S Hor. induction ids as [|m rest IH]; intros tm r tm' F Mi E.
  - simpl in E. inversion E; subst. split; [auto|]. split; [auto|].
    split; [auto|]. intros m [].
  - simpl in E.
    destruct (_ensure_manager_unit (ensure_fuel tm) m [] tm)
      as [[rm sm] tmm] eqn:Em.
    destruct rm as [o|e|]; try discriminate.
    destruct (@ensure_mirror tm0 S Hor _ _ _ _ _ _ _ F Mi Em)
      as [[P1 [P2 [P3 [P4 P5]]]] P6].
    destruct (IH _ _ _ P2 P3 E) as [Q1 [Q2 [Q3 Q4]]].
    split; [auto|]. split; [auto|]. split; [auto|].
    intros k [Hk|Hk] Hn; [|auto]. subst k.
    destruct o as [u|]; [|contradiction].
    rewrite (Q3 _ _ P6). discriminate.
Qed.

(** What [_build_agent_unit] returns depends on the graph, the tools and
    the entry of the agent only. *)
Lemma _build_agent_unit_view : forall c tm tmx,
  graph_of tmx = graph_of tm -> tools tmx = tools tm ->
  dict_get c (agent_units tmx) = dict_get c (agent_units tm) ->
  fst (_build_agent_unit c tmx) = fst (_build_agent_unit c tm).
Proof.
  intros c tm tmx G T A.
  assert (H1 : agent_nodes tmx = agent_nodes tm)
    by (unfold graph_of in G; now inversion G).
  assert (H2 : agent_factory tmx = agent_factory tm)
    by (unfold graph_of in G; now inversion G).
  destruct (dict_get c (agent_units tm)) as [u|] eqn:E.
  - unfold _build_agent_unit. rewrite A, E. reflexivity.
  - rewrite (@_build_agent_unit_calls c tmx) by congruence.
    rewrite (_build_agent_unit_calls _ _ E).
    rewrite (_resolve_children_graph c ["tool"] G), T, H1, H2, (graph_nodes G).
    destruct (or_node _ _); [|reflexivity].
    cbv zeta. destruct (agent_factory tm _ _); reflexivity.
Qed.

Lemma _build_agent_unit_step : forall a tm,
  let tm1 := snd (_build_agent_unit a tm) in
  graph_of tm1 = graph_of tm /\ tools tm1 = tools tm /\
  manager_units tm1 = manager_units tm /\
  fst (_build_agent_unit a tm1) = dict_get a (agent_units tm1) /\
  (forall c, c <> a ->
             dict_get c (agent_units tm1) = dict_get c (agent_units tm)) /\
  (forall u, dict_get a (agent_units tm1) = Some u ->
             dict_get a (agent_units tm) = Some u \/
             match or_node (dict_get a (agent_nodes tm)) (dict_get a (nodes tm))
             with
             | Some node =>
                 match agent_factory tm node
                         (flat_map
                            (fun tool_id =>
                               match dict_get tool_id (tools tm) with
                               | Some t => [t]
                               | None => []
                               end)
                            (_resolve_children tm a ["tool"])) with
                 | Some agent => Some (AgentUnit node agent)
                 | None => None
                 end
             | None => None
             end = Some u).
Proof.
  intros a tm tm1. subst tm1.
  destruct (dict_get a (agent_units tm)) as [u0|] eqn:E.
  - assert (B : _build_agent_unit a tm = (Some u0, tm)).
    { unfold _build_agent_unit. now rewrite E. }
    rewrite B. cbn [snd]. rewrite B. cbn [fst].
    split; [reflexivity|]. split; [reflexivity|]. split; [reflexivity|].
    split; [now rewrite E|]. split; [reflexivity|]. intros u Hu.
    left. congruence.
  - assert (N : fst (_build_agent_unit a tm) =
                match or_node (dict_get a (agent_nodes tm))
                              (dict_get a (nodes tm)) with
                | Some node =>
                    match agent_factory tm node
                            (flat_map
                               (fun tool_id =>
                                  match dict_get tool_id (tools tm) with
                                  | Some t => [t]
                                  | None => []
                                  end)
                               (_resolve_children tm a ["tool"])) with
                    | Some agent => Some (AgentUnit node agent)
                    | None => None
                    end
                | None => None
                end).
    { rewrite (_build_agent_unit_calls _ _ E).
      destruct (or_node _ _); [|reflexivity].
      cbv zeta. destruct (agent_factory tm _ _); reflexivity. }
    rewrite (_build_agent_unit_calls _ _ E) in *.
    destruct (or_node (dict_get a (agent_nodes tm)) (dict_get a (nodes tm)))
      as [node|] eqn:En.
    + cbv zeta in *.
      destruct (agent_factory tm node _) as [agent|] eqn:Ef; cbn [snd fst] in *.
      * split; [reflexivity|]. split; [reflexivity|]. split; [reflexivity|].
        split; [|split].
        -- unfold _build_agent_unit.
           cbn [agent_units set_execution_units set_agent_units].
           now rewrite dict_get_set_same.
        -- intros c Hc.
           cbn [agent_units set_execution_units set_agent_units set_agents
                log_call].
           apply dict_get_set_other. congruence.
        -- intros u Hu.
           cbn [agent_units set_execution_units set_agent_units] in Hu.
           rewrite dict_get_set_same in Hu. now right.
      * split; [reflexivity|]. split; [reflexivity|]. split; [reflexivity|].
        split; [|split].
        -- rewrite (@_build_agent_unit_view a tm); try reflexivity.
           rewrite (_build_agent_unit_calls _ _ E), En. cbv zeta.
           rewrite Ef. cbn [fst agent_units log_call]. now rewrite E.
        -- reflexivity.
        -- intros u Hu. cbn [agent_units log_call] in Hu. congruence.
    + cbn [snd fst] in *.
      split; [reflexivity|]. split; [reflexivity|]. split; [reflexivity|].
      split; [|split].
      * rewrite (_build_agent_unit_calls _ _ E), En. now rewrite E.
      * reflexivity.
      * intros u Hu. congruence.
Qed.

Lemma init_agent_ids : forall project af tf k n,
  dict_get k (nodes (init project af tf)) = Some n ->
  n_kind n = "agent" ->
  In k (agent_node_ids (init project af tf)).
Proof.
  intros project af tf k n H Hk. apply init_node in H.
  destruct H as [Hin Hid]. cbn [init agent_node_ids].
  unfold ids_of_kind. rewrite <- Hid. apply in_map.
  apply filter_In. split; auto. rewrite Hk. reflexivity.
Qed.

Lemma init_agent_node : forall project af tf k n,
  dict_get k (agent_nodes (init project af tf)) = Some n ->
  dict_get k (nodes (init project af tf)) = Some n.
Proof.
  intros project af tf k n H. cbn [init nodes agent_nodes] in *.
  unfold sub_dict in H. apply sub_dict_get in H.
  destruct H as [H|H]; [auto|discriminate H].
Qed.

(** In the state [__init__] leaves, [agent_nodes.get(i) or nodes.get(i)]
    and [manager_nodes.get(i) or nodes.get(i)] are [nodes.get(i)]. *)
Lemma init_or_node : forall project af tf i,
  let tm := init project af tf in
  or_node (dict_get i (agent_nodes tm)) (dict_get i (nodes tm))
    = dict_get i (nodes tm) /\
  or_node (dict_get i (manager_nodes tm)) (dict_get i (nodes tm))
    = dict_get i (nodes tm).
Proof.
  intros project af tf i tm. split.
  - destruct (dict_get i (agent_nodes tm)) as [n|] eqn:E; [|reflexivity].
    apply init_agent_node in E. fold tm in E. now rewrite E.
  - destruct (dict_get i (manager_nodes tm)) as [n|] eqn:E; [|reflexivity].
    apply init_manager_node in E. fold tm in E. now rewrite E.
Qed.

Lemma expected_agent_view : forall c tm tmx,
  graph_of tmx = graph_of tm -> tools tmx = tools tm ->
  expected_agent tmx c = expected_agent tm c.
Proof.
  intros c tm tmx G T. unfold expected_agent.
  assert (H2 : agent_factory tmx = agent_factory tm)
    by (unfold graph_of in G; now inversion G).
  now rewrite (_resolve_children_graph c ["tool"] G), T, H2, (graph_nodes G).
Qed.

Lemma build_agents_settled : forall ids tm,
  (forall c, or_node (dict_get c (agent_nodes tm)) (dict_get c (nodes tm))
             = dict_get c (nodes tm)) ->
  let tm' := fold_left (fun tm a => snd (_build_agent_unit a tm)) ids tm in
  graph_of tm' = graph_of tm /\ tools tm' = tools tm /\
  manager_units tm' = manager_units tm /\
  (forall c, In c ids \/
             fst (_build_agent_unit c tm) = dict_get c (agent_units tm) ->
             fst (_build_agent_unit c tm') = dict_get c (agent_units tm')) /\
  (forall c u, dict_get c (agent_units tm') = Some u ->
               dict_get c (agent_units tm) = Some u \/
               expected_agent tm c = Some u).
Proof.
  induction ids as [|a rest IH]; intros tm Hor; cbn [fold_left].
  - split; [reflexivity|]. split; [reflexivity|]. split; [reflexivity|].
    split; [intros c [[]|H]; exact H|auto].
  - destruct (_build_agent_unit_step a tm) as [G1 [T1 [M1 [S1 [O1 N1]]]]].
    set (tm1 := snd (_build_agent_unit a tm)) in *.
    assert (Hor1 : forall c,
              or_node (dict_get c (agent_nodes tm1)) (dict_get c (nodes tm1))
              = dict_get c (nodes tm1)).
    { intros c. rewrite (graph_nodes G1).
      assert (H1 : agent_nodes tm1 = agent_nodes tm)
        by (unfold graph_of in G1; now inversion G1).
      rewrite H1. apply Hor. }
    destruct (IH tm1 Hor1) as [G [T [M [St Ex]]]].
    split; [congruence|]. split; [congruence|]. split; [congruence|]. split.
    + intros c Hc. apply St.
      destruct (string_dec c a) as [->|Hne]; [right; exact S1|].
      destruct Hc as [[Hc|Hc]|Hc]; [congruence|now left|right].
      rewrite (@_build_agent_unit_view c tm tm1 G1 T1 (O1 _ Hne)).
      rewrite Hc. symmetry. apply O1. exact Hne.
    + intros c u Hu. apply Ex in Hu. destruct Hu as [Hu|Hu].
      * destruct (string_dec c a) as [->|Hne].
        -- apply N1 in Hu. destruct Hu as [Hu|Hu]; [now left|right].
           unfold expected_agent. rewrite Hor in Hu. exact Hu.
        -- left. rewrite <- (O1 _ Hne). exact Hu.
      * right. rewrite <- (@expected_agent_view c tm tm1 G1 T1). exact Hu.
Qed.

Lemma graph_agent_nodes : forall tm tm',
  graph_of tm' = graph_of tm -> agent_nodes tm' = agent_nodes tm.
Proof. intros tm tm' G. unfold graph_of in G. now inversion G. Qed.

Lemma _build_agent_unit_expected : forall c tm,
  dict_get c (agent_units tm) = None ->
  or_node (dict_get c (agent_nodes tm)) (dict_get c (nodes tm))
    = dict_get c (nodes tm) ->
  fst (_build_agent_unit c tm) = expected_agent tm c.
Proof.
  intros c tm E Hor. rewrite (_build_agent_unit_calls _ _ E), Hor.
  unfold expected_agent. destruct (dict_get c (nodes tm)); [|reflexivity].
  cbv zeta. destruct (agent_factory tm _ _); reflexivity.
Qed.

Lemma agents_settled_fixed : forall tm0 tm,
  agents_settled tm0 -> agents_fixed tm0 tm -> agents_settled tm.
Proof.
  intros tm0 tm S [G [T A]] c cn tmx Hc Hk [Gx [Tx Ax]].
  rewrite A. apply (S c cn).
  - now rewrite <- (graph_nodes G).
  - exact Hk.
  - unfold agents_fixed. split; [congruence|]. split; congruence.
Qed.

(** After the tools and the agents, every agent node has been tried. *)
Lemma agents_phase : forall project af tf,
  let tm := init project af tf in
  let tm2 := build_agents (_build_tools tm) in
  graph_of tm2 = graph_of tm /\ tools tm2 = tools (_build_tools tm) /\
  manager_units tm2 = [] /\ agents_settled tm2 /\
  forall c cn, dict_get c (nodes tm) = Some cn -> n_kind cn = "agent" ->
               dict_get c (agent_units tm2) =
               expected_agent (_build_tools tm) c.
Proof.
  intros project af tf tm tm2. set (tm1 := _build_tools tm) in *.
  assert (G1 : graph_of tm1 = graph_of tm) by apply _build_tools_graph.
  assert (A1 : agent_units tm1 = []).
  { unfold tm1. now rewrite (_build_tools_frame agent_units). }
  assert (M1 : manager_units tm1 = []).
  { unfold tm1. now rewrite (_build_tools_frame manager_units). }
  assert (Hor1 : forall c,
            or_node (dict_get c (agent_nodes tm1)) (dict_get c (nodes tm1))
            = dict_get c (nodes tm1)).
  { intros c. rewrite (graph_nodes G1).
    rewrite (graph_agent_nodes G1). apply init_or_node. }
  destruct (@build_agents_settled (agent_node_ids tm1) tm1 Hor1)
    as [G [T [M [St Ex]]]].
  fold (build_agents tm1) in G, T, M, St, Ex. fold tm2 in G, T, M, St, Ex.
  assert (Hids : forall c cn, dict_get c (nodes tm) = Some cn ->
                              n_kind cn = "agent" ->
                              In c (agent_node_ids tm1)).
  { intros c cn Hc Hk. rewrite (graph_agent_node_ids G1).
    eapply init_agent_ids; eauto. }
  split; [congruence|]. split; [exact T|]. split; [congruence|]. split.
  - intros c cn tmx Hc Hk [Gx [Tx Ax]].
    rewrite (graph_nodes G), (graph_nodes G1) in Hc.
    rewrite (@_build_agent_unit_view c tm2 tmx Gx Tx) by now rewrite Ax.
    apply St. left. eauto.
  - intros c cn Hc Hk.
    rewrite <- (@expected_agent_view c tm1 tm2 G T).
    destruct (dict_get c (agent_units tm2)) as [u|] eqn:Eu.
    + apply Ex in Eu. destruct Eu as [Eu|Eu].
      * rewrite A1 in Eu. discriminate.
      * rewrite (@expected_agent_view c tm1 tm2 G T). now rewrite Eu.
    + pose proof (St c (or_introl (Hids _ _ Hc Hk))) as Hs.
      rewrite Eu in Hs. rewrite <- Hs.
      apply _build_agent_unit_expected; [exact Eu|].
      rewrite (graph_nodes G), (graph_agent_nodes G). apply Hor1.
Qed.

Lemma ensure_memo : forall fuel m stack tm u,
  dict_get m (manager_units tm) = Some u ->
  _ensure_manager_unit fuel m stack tm = (Ok (Some u), stack, tm).
Proof.
  intros fuel m stack tm u H.
  destruct fuel; cbn [_ensure_manager_unit]; now rewrite H.
Qed.

(** Once every agent is settled and every manager registered, the loop of
    the director constructs nothing. *)
Lemma director_children_fixed :
  forall tm0,
    agents_settled tm0 ->
    (forall c cn, dict_get c (nodes tm0) = Some cn ->
                  n_kind cn = "teamManager" ->
                  dict_get c (manager_units tm0) <> None) ->
    forall ids acc tm r tm',
      agents_fixed tm0 tm -> manager_units tm = manager_units tm0 ->
      director_children ids acc tm = (r, tm') ->
      agents_fixed tm0 tm' /\ manager_units tm' = manager_units tm0.
Proof.
  intros tm0 S HM. induction ids as [|c rest IH]; intros acc tm r tm' F M E.
  - simpl in E. inversion E; subst. auto.
  - simpl in E.
    destruct (dict_get c (execution_units tm)); [eapply IH; eauto|].
    rewrite (graph_nodes (proj1 F)) in E.
    destruct (dict_get c (nodes tm0)) as [cn|] eqn:Ec; [|eapply IH; eauto].
    destruct (String.eqb (n_kind cn) "agent") eqn:Ka.
    + apply String.eqb_eq in Ka.
      destruct (_build_agent_unit c tm) as [o tm1] eqn:Eb.
      destruct (@agent_child_fixed tm0 c cn tm o tm1 S Ec Ka F Eb)
        as [_ [F1 M1]].
      assert (M1' : manager_units tm1 = manager_units tm0) by congruence.
      destruct o; eapply IH; eauto.
    + destruct (String.eqb (n_kind cn) "teamManager") eqn:Km;
        [|eapply IH; eauto].
      apply String.eqb_eq in Km.
      destruct (dict_get c (manager_units tm)) as [u|] eqn:Eu.
      * rewrite (ensure_memo _ _ _ _ Eu) in E. eapply IH; eauto.
      * exfalso. apply (HM c cn Ec Km). congruence.
Qed.

Lemma _resolve_children_nodes : forall tm tm' src k0 ks,
  edges tm' = edges tm ->
  (forall t,
     match dict_get t (nodes tm') with
     | Some n => str_in (n_kind n) (k0 :: ks)
     | None => false
     end =
     match dict_get t (nodes tm) with
     | Some n => str_in (n_kind n) (k0 :: ks)
     | None => false
     end) ->
  _resolve_children tm' src (k0 :: ks) = _resolve_children tm src (k0 :: ks).
Proof.
  intros tm tm' src k0 ks He Hn. unfold _resolve_children. rewrite He.
  apply flat_map_agree. intros e _.
  destruct (negb _); auto.
  destruct (truthy_opt (e_target e)) as [t|]; auto.
  specialize (Hn t).
  destruct (dict_get t (nodes tm')) as [n'|];
    destruct (dict_get t (nodes tm)) as [n|]; auto.
  - now rewrite Hn.
  - now rewrite Hn.
  - now rewrite <- Hn.
Qed.

Lemma graph_of_restore_nodes : forall tm tmx v,
  graph_of tmx = graph_of (set_nodes v tm) ->
  graph_of (set_nodes (nodes tm) tmx) = graph_of tm.
Proof.
  intros tm tmx v G. unfold graph_of in *.
  cbn [nodes edges settings agent_node_ids manager_node_ids agent_nodes
       manager_nodes director_node agent_factory tool_factory _incoming_index
       _built set_nodes] in *.
  inversion G. reflexivity.
Qed.

(** Adding the synthesized director under a fresh id changes nothing for
    the agents. *)
Lemma agents_settled_director : forall tm node,
  agents_settled tm ->
  dict_get (n_id node) (nodes tm) = None ->
  n_kind node <> "tool" -> n_kind node <> "agent" ->
  agents_settled (set_nodes (dict_set (n_id node) node (nodes tm)) tm).
Proof.
  intros tm node S Hnone Ht Ha c cn tmx Hc Hk [Gx [Tx Ax]].
  cbn [nodes agent_units tools set_nodes] in Hc, Tx, Ax |- *.
  assert (Hne : n_id node <> c).
  { intros Heq. rewrite <- Heq in Hc. rewrite dict_get_set_same in Hc.
    inversion Hc; subst. contradiction. }
  rewrite dict_get_set_other in Hc by exact Hne.
  assert (Fy : agents_fixed tm (set_nodes (nodes tm) tmx)).
  { unfold agents_fixed. split; [|split; [exact Tx|exact Ax]].
    eapply graph_of_restore_nodes; eauto. }
  rewrite <- (S c cn _ Hc Hk Fy).
  assert (Nx : nodes tmx = dict_set (n_id node) node (nodes tm)).
  { apply (graph_nodes Gx). }
  assert (R : _resolve_children tmx c ["tool"] =
              _resolve_children (set_nodes (nodes tm) tmx) c ["tool"]).
  { apply _resolve_children_nodes; [reflexivity|].
    intros t. cbn [nodes set_nodes]. rewrite Nx.
    destruct (String.eqb (n_id node) t) eqn:Et.
    - apply String.eqb_eq in Et. subst t.
      rewrite dict_get_set_same, Hnone.
      unfold str_in. cbn [existsb].
      apply String.eqb_neq in Ht. now rewrite Ht.
    - apply String.eqb_neq in Et. now rewrite dict_get_set_other. }
  destruct (dict_get c (agent_units tmx)) as [u|] eqn:E.
  - unfold _build_agent_unit. cbn [agent_units set_nodes]. now rewrite E.
  - rewrite (_build_agent_unit_calls _ _ E).
    rewrite (@_build_agent_unit_calls c (set_nodes (nodes tm) tmx)) by exact E.
    rewrite <- R.
    cbn [agent_nodes nodes tools agent_factory set_nodes].
    rewrite Nx, dict_get_set_other by exact Hne.
    destruct (or_node _ _); [|reflexivity].
    cbv zeta. destruct (agent_factory tmx _ _); reflexivity.
Qed.

Lemma _build_director_unit_fixed : forall tm r tm',
  agents_settled tm ->
  (forall c cn, dict_get c (nodes tm) = Some cn ->
                n_kind cn = "teamManager" ->
                dict_get c (manager_units tm) <> None) ->
  (director_node tm = None -> dict_get "teamDirector" (nodes tm) = None) ->
  _build_director_unit tm = (r, tm') ->
  agent_units tm' = agent_units tm /\ manager_units tm' = manager_units tm /\
  tools tm' = tools tm.
Proof.
  intros tm r tm' S HM Hres D. unfold _build_director_unit in D.
  set (pair := match director_node tm with
               | Some node => (node, tm)
               | None =>
                   (synthesized_director (settings tm),
                    set_nodes
                      (dict_set (n_id (synthesized_director (settings tm)))
                         (synthesized_director (settings tm)) (nodes tm)) tm)
               end) in *.
  assert (Q : agents_settled (snd pair) /\
              (forall c cn, dict_get c (nodes (snd pair)) = Some cn ->
                            n_kind cn = "teamManager" ->
                            dict_get c (manager_units (snd pair)) <> None) /\
              agent_units (snd pair) = agent_units tm /\
              manager_units (snd pair) = manager_units tm /\
              tools (snd pair) = tools tm).
  { unfold pair. destruct (director_node tm) as [dn|] eqn:Edn; cbn [fst snd].
    - auto.
    - split; [|split; [|auto]].
      + apply agents_settled_director; auto; discriminate.
      + intros c cn Hc Hk. cbn [nodes manager_units set_nodes] in *.
        destruct (String.eqb "teamDirector" c) eqn:Ec.
        * apply String.eqb_eq in Ec. subst c.
          cbn [n_id synthesized_director] in Hc.
          rewrite dict_get_set_same in Hc. inversion Hc; subst cn.
          discriminate.
        * apply String.eqb_neq in Ec.
          cbn [n_id synthesized_director] in Hc.
          rewrite dict_get_set_other in Hc by exact Ec. eauto. }
  destruct pair as [node tm5]. cbn [fst snd] in Q.
  destruct Q as [S5 [HM5 [A5 [M5 T5]]]].
  match type of D with
  | context [director_children ?ids [] tm5] =>
      destruct (director_children ids [] tm5) as [rd tmd] eqn:Ed
  end.
  destruct (@director_children_fixed tm5 S5 HM5 _ _ _ _ _
              (agents_fixed_refl tm5) eq_refl Ed) as [[_ [Td Ad]] Md].
  destruct rd as [[|u us]|e|]; try (inversion D; subst; split; [|split]; congruence).
  destruct (ManagerUnit node (u :: us) (n_kind node));
    inversion D; subst;
    cbn [agent_units manager_units tools set_execution_units];
    (split; [|split]); congruence.
Qed.

Lemma members_graph : forall tm0 tm0' tm tm' m,
  graph_of tm0' = graph_of tm0 ->
  agent_units tm' = agent_units tm -> manager_units tm' = manager_units tm ->
  members tm0' tm' m = members tm0 tm m.
Proof.
  intros tm0 tm0' tm tm' m G HA HM. unfold members.
  rewrite (_resolve_children_graph m ["agent"; "teamManager"] G).
  apply flat_map_agree. intros c _. unfold member.
  now rewrite (graph_nodes G), HA, HM.
Qed.

Lemma reserved_director_id : forall project af tf,
  (forall n, In n (p_nodes project) -> n_id n = "teamDirector" ->
             n_kind n = "teamDirector") ->
  director_node (init project af tf) = None ->
  dict_get "teamDirector" (nodes (init project af tf)) = None.
Proof.
  intros project af tf Hres Hd.
  destruct (dict_get "teamDirector" (nodes (init project af tf)))
    as [n|] eqn:E; [|reflexivity].
  exfalso. apply init_node in E. destruct E as [Hin Hid].
  cbn [init director_node] in Hd.
  pose proof (find_none _ _ Hd n Hin) as Hf. cbn beta in Hf.
  rewrite (Hres n Hin Hid) in Hf. discriminate.
Qed.

(** X12.  After a successful [build] the hierarchy mirrors the graph (the
    id [teamDirector] being used by a director node only).  The tools are
    those [_build_tools] made.  For every agent node, the registered unit
    is the one made from this node and the agent the factory returns for
    the node and the tools its edges reach; no unit is registered when the
    factory fails.  For every teamManager node, a unit is registered, made
    from this node and, as members in edge order, the registered units of
    the agents and team managers its edges reach. *)
Theorem hierarchy_mirrors_the_graph :
  forall project af tf s tm',
    (forall n, In n (p_nodes project) -> n_id n = "teamDirector" ->
               n_kind n = "teamDirector") ->
    let tm := init project af tf in
    build tm = (Ok s, tm') ->
    tools tm' = tools (_build_tools tm) /\
    (forall c cn,
        dict_get c (nodes tm) = Some cn -> n_kind cn = "agent" ->
        dict_get c (agent_units tm') = expected_agent (_build_tools tm) c) /\
    (forall m node,
        dict_get m (nodes tm) = Some node -> n_kind node = "teamManager" ->
        exists u,
          dict_get m (manager_units tm') = Some u /\
          ManagerUnit node (members tm tm' m) "teamManager" = Ok u).
Proof.
  intros project af tf s tm' Hres tm B.
  destruct (agents_phase project af tf) as [G2 [T2 [M2 [S2 A2]]]].
  fold tm in G2, T2, M2, S2, A2.
  unfold build in B. change (_built tm) with false in B. cbv zeta in B.
  set (tm2 := build_agents (_build_tools tm)) in *.
  assert (Hor2 : forall m,
            or_node (dict_get m (manager_nodes tm2)) (dict_get m (nodes tm2))
            = dict_get m (nodes tm2)).
  { intros m. rewrite (graph_nodes G2), (graph_manager_nodes G2).
    apply init_or_node. }
  assert (Mi2 : mirrored tm2 tm2).
  { intros m u H. rewrite M2 in H. discriminate. }
  destruct (build_managers (manager_node_ids tm2) tm2) as [[o|e|] tm3] eqn:E3;
    try discriminate.
  destruct (@build_managers_mirror tm2 S2 Hor2 _ _ _ _
              (agents_fixed_refl tm2) Mi2 E3) as [F3 [Mi3 [_ Hall]]].
  set (tm4 := set_root_manager_ids (_compute_root_manager_ids tm3) tm3) in *.
  assert (F4 : agents_fixed tm2 tm4).
  { destruct F3 as [G3 [T3 A3]]. unfold agents_fixed. auto. }
  assert (G4 : graph_of tm4 = graph_of tm).
  { destruct F4 as [G4 _]. congruence. }
  assert (S4 : agents_settled tm4) by (eapply agents_settled_fixed; eauto).
  assert (HM4 : forall c cn, dict_get c (nodes tm4) = Some cn ->
                             n_kind cn = "teamManager" ->
                             dict_get c (manager_units tm4) <> None).
  { intros c cn Hc Hk. rewrite (graph_nodes G4) in Hc.
    apply Hall.
    - rewrite (graph_manager_node_ids G2). eapply init_manager_ids; eauto.
    - rewrite (graph_nodes G2). congruence. }
  assert (R4 : director_node tm4 = None ->
               dict_get "teamDirector" (nodes tm4) = None).
  { rewrite (graph_director_node G4), (graph_nodes G4).
    now apply reserved_director_id. }
  destruct (_build_director_unit tm4) as [[d|e|] tm6] eqn:D; try discriminate.
  destruct (_build_director_unit_fixed S4 HM4 R4 D) as [A6 [M6 T6]].
  inversion B; subst s tm'. clear B.
  cbn [tools agent_units manager_units set_built set_director_unit].
  assert (A : agent_units tm6 = agent_units tm2).
  { destruct F4 as [_ [_ A4]]. congruence. }
  assert (M : manager_units tm6 = manager_units tm3) by exact M6.
  split; [|split].
  - destruct F4 as [_ [T4 _]]. congruence.
  - intros c cn Hc Hk. rewrite A. eauto.
  - intros m node Hm Hk.
    assert (Hin : dict_get m (manager_units tm3) <> None).
    { apply Hall.
      - rewrite (graph_manager_node_ids G2). eapply init_manager_ids; eauto.
      - rewrite (graph_nodes G2). congruence. }
    destruct (dict_get m (manager_units tm3)) as [u|] eqn:Eu;
      [|contradiction].
    destruct (Mi3 _ _ Eu) as [[node' [Hn Hu]] _].
    rewrite (graph_nodes G2), Hm in Hn. inversion Hn; subst node'.
    exists u. split; [congruence|].
    rewrite <- Hu. f_equal.
    apply members_graph; [now rewrite G2| |]; assumption.
Qed.

Lemma hierarchy_mirrors_the_graph_witness :
  let tm := init small_team_project echo_factory name_tool_factory in
  exists u,
    dict_get "manager-1" (manager_units (snd (build tm))) = Some u /\
    ManagerUnit (plain_node "manager-1" "teamManager")
                (members tm (snd (build tm)) "manager-1") "teamManager" = Ok u.
Proof.
  intros tm.
  assert (Hres : forall n, In n (p_nodes small_team_project) ->
                           n_id n = "teamDirector" ->
                           n_kind n = "teamDirector").
  { intros n [H|[H|[H|[]]]]; subst n; discriminate. }
  assert (B : build tm =
              (Ok {| s_agents := 1; s_team_managers := 1; s_tools := 1;
                     s_director := true |}, snd (build tm))).
  { vm_compute. reflexivity. }
  destruct (@hierarchy_mirrors_the_graph small_team_project echo_factory
              name_tool_factory _ _ Hres B) as [_ [_ H]].
  apply (H "manager-1" (plain_node "manager-1" "teamManager")).
  - vm_compute. reflexivity.
  - reflexivity.
Defined.

(** ** The tools of an agent *)







(** ** Root managers *)

Lemma incoming_index_sources : forall es d t s,
  In s (match dict_get t
                (fold_left
                   (fun incoming edge =>
                      match truthy_opt (e_source edge),
                            truthy_opt (e_target edge) with
                      | Some source, Some target =>
                          match dict_get target incoming with
                          | Some l => dict_set target (l ++ [source]) incoming
                          | None => dict_set target [source] incoming
                          end
                      | _, _ => incoming
                      end)
                   es d) with
        | Some l => l
        | None => []
        end) <->
  In s (match dict_get t d with Some l => l | None => [] end) \/
  exists e, In e es /\ truthy_opt (e_source e) = Some s /\
            truthy_opt (e_target e) = Some t.
Proof.
  induction es as [|e r IH]; intros d t s; cbn [fold_left].
  - split; [auto|]. intros [H|[e [[] _]]]. exact H.
  - rewrite IH. clear IH.
    assert (K : In s (match dict_get t
                 (match truthy_opt (e_source e), truthy_opt (e_target e) with
                  | Some source, Some target =>
                      match dict_get target d with
                      | Some l => dict_set target (l ++ [source]) d
                      | None => dict_set target [source] d
                      end
                  | _, _ => d
                  end) with
               | Some l => l
               | None => []
               end) <->
             In s (match dict_get t d with Some l => l | None => [] end) \/
             (truthy_opt (e_source e) = Some s /\
              truthy_opt (e_target e) = Some t)).
    { destruct (truthy_opt (e_source e)) as [src|];
        [|split; [auto|intros [H|[H _]]; [auto|discriminate]]].
      destruct (truthy_opt (e_target e)) as [tgt|];
        [|split; [auto|intros [H|[_ H]]; [auto|discriminate]]].
      destruct (String.eqb tgt t) eqn:Et.
      - apply String.eqb_eq in Et. subst tgt.
        destruct (dict_get t d) as [l|] eqn:El;
          rewrite dict_get_set_same.
        + rewrite in_app_iff. simpl. split.
          * intros [H|[H|[]]]; [auto|subst; auto].
          * intros [H|[H _]]; [auto|]. inversion H; subst. auto.
        + simpl. split.
          * intros [H|[]]. subst. auto.
          * intros [[]|[H _]]. inversion H; subst. auto.
      - apply String.eqb_neq in Et.
        assert (G : dict_get t
                      match dict_get tgt d with
                      | Some l => dict_set tgt (l ++ [src]) d
                      | None => dict_set tgt [src] d
                      end = dict_get t d).
        { destruct (dict_get tgt d); now apply dict_get_set_other. }
        rewrite G. split; [auto|].
        intros [H|[_ H]]; [auto|]. inversion H; subst. contradiction. }
    rewrite K. split.
    + intros [[H|[H1 H2]]|[e' [H1 H2]]]; auto.
      * right. exists e. simpl. auto.
      * right. exists e'. simpl. auto.
    + intros [H|[e' [[H1|H1] H2]]]; auto.
      * subst e'. left. right. exact H2.
      * right. eauto.
Qed.

Lemma nodes_has_id : forall ns (d : dict Node) n,
  In n ns \/ dict_get (n_id n) d <> None ->
  dict_get (n_id n) (fold_left (fun d n => dict_set (n_id n) n d) ns d)
  <> None.
Proof.
  induction ns as [|x r IH]; intros d n H; cbn [fold_left].
  - destruct H as [[]|H]. exact H.
  - apply IH. destruct H as [[H|H]|H]; auto.
    + subst x. right. rewrite dict_get_set_same. discriminate.
    + right. destruct (String.eqb (n_id x) (n_id n)) eqn:E.
      * apply String.eqb_eq in E. rewrite E, dict_get_set_same. discriminate.
      * apply String.eqb_neq in E. now rewrite dict_get_set_other.
Qed.

Lemma sub_dict_mem : forall (all : dict Node) ids (d0 : dict Node) k,
  (forall i, In i ids -> dict_get i all <> None) ->
  dict_get k
    (fold_left (fun d i => match dict_get i all with
                           | Some n => dict_set i n d
                           | None => d
                           end) ids d0) <> None <->
  In k ids \/ dict_get k d0 <> None.
Proof.
  intros all. induction ids as [|i r IH]; intros d0 k Hall; cbn [fold_left].
  - split; [auto|]. intros [[]|H]. exact H.
  - rewrite IH by (intros x Hx; apply Hall; now right).
    destruct (dict_get i all) as [n|] eqn:Ei;
      [|exfalso; apply (Hall i); [now left|exact Ei]].
    destruct (String.eqb i k) eqn:E.
    + apply String.eqb_eq in E. subst k. rewrite dict_get_set_same.
      split; [intros _; left; now left|intros _; right; discriminate].
    + apply String.eqb_neq in E. rewrite dict_get_set_other by exact E.
      split.
      * intros [H|H]; [left; now right|now right].
      * intros [[H|H]|H]; [contradiction|now left|now right].
Qed.

Lemma init_manager_nodes_keys : forall project af tf k,
  dict_get k (manager_nodes (init project af tf)) <> None <->
  In k (manager_node_ids (init project af tf)).
Proof.
  intros project af tf k. cbn [init manager_nodes manager_node_ids].
  unfold sub_dict. rewrite sub_dict_mem.
  - split; [intros [H|H]; [exact H|contradiction]|auto].
  - intros i Hi. unfold ids_of_kind in Hi. apply in_map_iff in Hi.
    destruct Hi as [n [Hid Hn]]. apply filter_In in Hn. destruct Hn as [Hn _].
    subst i. apply nodes_has_id. now left.
Qed.

Section Frame.
Variables (X : Type) (f : TeamManager -> X).
Hypothesis f_log : forall c t, f (log_call c t) = f t.
Hypothesis f_agents : forall v t, f (set_agents v t) = f t.
Hypothesis f_agent_units : forall v t, f (set_agent_units v t) = f t.
Hypothesis f_execution_units : forall v t, f (set_execution_units v t) = f t.
Hypothesis f_manager_units : forall v t, f (set_manager_units v t) = f t.

Lemma _build_agent_unit_frame : forall a tm,
  f (snd (_build_agent_unit a tm)) = f tm.
Proof.
  intros a tm. unfold _build_agent_unit.
  destruct (dict_get a (agent_units tm)); auto.
  destruct (or_node _ _); auto.
  destruct (agent_factory _ _ _); cbn [snd].
  - now rewrite f_execution_units, f_agent_units, f_agents, f_log.
  - now rewrite f_log.
Qed.

Lemma ensure_children_frame :
  forall rec : string -> list string -> TeamManager ->
               result (option ExecutionUnit) * list string * TeamManager,
    (forall c stack tm, f (snd (rec c stack tm)) = f tm) ->
    forall child_ids acc stack tm,
      f (snd (ensure_children rec child_ids acc stack tm)) = f tm.
Proof.
  intros rec Hrec. induction child_ids as [|c rest IH]; intros acc stack tm.
  - reflexivity.
  - cbn [ensure_children].
    destruct (dict_get c (nodes tm)) as [cn|]; [|apply IH].
    destruct (String.eqb (n_kind cn) "agent").
    + pose proof (_build_agent_unit_frame c tm) as H.
      destruct (_build_agent_unit c tm) as [[u|] tm1]; cbn [snd] in H;
        rewrite IH; exact H.
    + destruct (String.eqb (n_kind cn) "teamManager"); [|apply IH].
      pose proof (Hrec c stack tm) as H.
      destruct (rec c stack tm) as [[[[u|]|e|] st] tm1]; cbn [snd] in H |- *;
        try rewrite IH; exact H.
Qed.

Lemma _ensure_manager_unit_frame : forall fuel m stack tm,
  f (snd (_ensure_manager_unit fuel m stack tm)) = f tm.
Proof.
  induction fuel as [|fuel IH]; intros m stack tm;
    cbn [_ensure_manager_unit];
    destruct (dict_get m (manager_units tm)); auto;
    destruct (or_node _ _) as [node|]; auto;
    destruct (str_in m stack); auto.
  pose proof (@ensure_children_frame (_ensure_manager_unit fuel) IH
                (_resolve_children tm m ["agent"; "teamManager"]) []
                (stack ++ [m]) tm) as H.
  destruct (ensure_children _ _ _ _ _) as [[[units|e|] st] tmc];
    cbn [snd] in H |- *; auto.
  destruct (ManagerUnit node units "teamManager"); cbn [snd]; auto.
  now rewrite f_execution_units, f_manager_units.
Qed.

Lemma build_managers_frame : forall ids tm,
  f (snd (build_managers ids tm)) = f tm.
Proof.
  induction ids as [|m rest IH]; intros tm; [reflexivity|].
  cbn [build_managers].
  pose proof (_ensure_manager_unit_frame (ensure_fuel tm) m [] tm) as H.
  destruct (_ensure_manager_unit _ _ _ _) as [[[o|e|] st] tm1];
    cbn [snd] in H |- *; auto.
  now rewrite IH.
Qed.

Lemma director_children_frame : forall ids acc tm,
  f (snd (director_children ids acc tm)) = f tm.
Proof.
  induction ids as [|c rest IH]; intros acc tm; [reflexivity|].
  cbn [director_children].
  destruct (dict_get c (execution_units tm)); [apply IH|].
  destruct (dict_get c (nodes tm)) as [cn|]; [|apply IH].
  destruct (String.eqb (n_kind cn) "agent").
  - pose proof (_build_agent_unit_frame c tm) as H.
    destruct (_build_agent_unit c tm) as [[u|] tm1]; cbn [snd] in H;
      rewrite IH; exact H.
  - destruct (String.eqb (n_kind cn) "teamManager"); [|apply IH].
    pose proof (_ensure_manager_unit_frame (ensure_fuel tm) c [] tm) as H.
    destruct (_ensure_manager_unit _ _ _ _) as [[[[u|]|e|] st] tm1];
      cbn [snd] in H |- *; try rewrite IH; exact H.
Qed.

Hypothesis f_nodes : forall v t, f (set_nodes v t) = f t.

Lemma _build_director_unit_frame : forall tm,
  f (snd (_build_director_unit tm)) = f tm.
Proof.
  intros tm. unfold _build_director_unit.
  set (pair := match director_node tm with
               | Some node => (node, tm)
               | None =>
                   (synthesized_director (settings tm),
                    set_nodes
                      (dict_set (n_id (synthesized_director (settings tm)))
                         (synthesized_director (settings tm)) (nodes tm)) tm)
               end).
  assert (Q : f (snd pair) = f tm).
  { unfold pair. destruct (director_node tm); cbn [snd]; auto. }
  destruct pair as [node tm5]. cbn [snd] in Q.
  match goal with
  | |- context [director_children ?ids [] tm5] =>
      pose proof (director_children_frame ids [] tm5) as H;
      destruct (director_children ids [] tm5) as [[[|u us]|e|] tmd]
  end; cbn [snd] in H |- *; try congruence.
  destruct (ManagerUnit node (u :: us) (n_kind node)); cbn [snd];
    rewrite ?f_execution_units; congruence.
Qed.
End Frame.

Lemma _compute_root_manager_ids_graph : forall tm tm',
  graph_of tm' = graph_of tm ->
  _compute_root_manager_ids tm' = _compute_root_manager_ids tm.
Proof.
  intros tm tm' G. unfold _compute_root_manager_ids.
  assert (H : _incoming_index tm' = _incoming_index tm)
    by (unfold graph_of in G; now inversion G).
  now rewrite (graph_manager_node_ids G), (graph_manager_nodes G), H.
Qed.

(** The root managers [build] records, whatever it returns them for. *)
Lemma build_root_manager_ids : forall project af tf s tm',
  build (init project af tf) = (Ok s, tm') ->
  root_manager_ids tm' = _compute_root_manager_ids (init project af tf).
Proof.
  intros project af tf s tm' B. set (tm := init project af tf) in *.
  unfold build in B. change (_built tm) with false in B. cbv zeta in B.
  set (tm2 := build_agents (_build_tools tm)) in *.
  assert (G2 : graph_of tm2 = graph_of tm).
  { unfold tm2. rewrite build_agents_graph. apply _build_tools_graph. }
  pose proof (@build_managers_frame _ graph_of
                (fun _ _ => eq_refl) (fun _ _ => eq_refl) (fun _ _ => eq_refl)
                (fun _ _ => eq_refl) (fun _ _ => eq_refl)
                (manager_node_ids tm2) tm2) as G3.
  destruct (build_managers (manager_node_ids tm2) tm2) as [[o|e|] tm3];
    try discriminate.
  cbn [snd] in G3.
  pose proof (@_build_director_unit_frame _ root_manager_ids
                (fun _ _ => eq_refl) (fun _ _ => eq_refl) (fun _ _ => eq_refl)
                (fun _ _ => eq_refl) (fun _ _ => eq_refl) (fun _ _ => eq_refl)
                (set_root_manager_ids (_compute_root_manager_ids tm3) tm3))
    as R.
  destruct (_build_director_unit _) as [[d|e|] tm6]; try discriminate.
  cbn [snd] in R. inversion B; subst s tm'.
  cbn [root_manager_ids set_built set_director_unit]. rewrite R.
  cbn [root_manager_ids set_root_manager_ids].
  apply _compute_root_manager_ids_graph. congruence.
Qed.

(** X13.  The root managers that a successful [build] records are the
    team manager ids without a team manager as parent: [m] is a root
    exactly when it is the id of a teamManager node and no edge with a
    non-empty source and target leads to [m] from the id of a teamManager
    node. *)
Theorem roots_are_managers_without_manager_parent :
  forall project af tf s tm' m,
    let tm := init project af tf in
    build tm = (Ok s, tm') ->
    (In m (root_manager_ids tm') <->
     In m (manager_node_ids tm) /\
     forall e src,
       In e (p_edges project) ->
       truthy_opt (e_source e) = Some src ->
       truthy_opt (e_target e) = Some m ->
       ~ In src (manager_node_ids tm)).
Proof.
  intros project af tf s tm' m tm B.
  rewrite (build_root_manager_ids _ _ _ B). fold tm.
  unfold _compute_root_manager_ids. rewrite filter_In.
  assert (P : forall p,
            In p (match dict_get m (_incoming_index tm) with
                  | Some l => l
                  | None => []
                  end) <->
            exists e, In e (p_edges project) /\
                      truthy_opt (e_source e) = Some p /\
                      truthy_opt (e_target e) = Some m).
  { intros p. cbn [tm init _incoming_index]. unfold _build_incoming_index.
    rewrite incoming_index_sources. simpl. split.
    - intros [[]|H]. exact H.
    - auto. }
  assert (K : forall p, dict_mem p (manager_nodes tm) = true <->
                        In p (manager_node_ids tm)).
  { intros p. pose proof (init_manager_nodes_keys project af tf p) as Hk.
    fold tm in Hk. rewrite <- Hk. unfold dict_mem.
    destruct (dict_get p (manager_nodes tm)).
    - split; [discriminate|reflexivity].
    - split; [discriminate|intros H; contradiction]. }
  split.
  - intros [Hin Hg]. split; [exact Hin|].
    intros e src He Hs Ht Hsrc.
    apply Bool.negb_true_iff in Hg.
    assert (Hex : existsb (fun parent => dict_mem parent (manager_nodes tm))
                    match dict_get m (_incoming_index tm) with
                    | Some l => l
                    | None => []
                    end = true).
    { apply existsb_exists. exists src. split; [|now apply K].
      apply P. eauto. }
    congruence.
  - intros [Hin Hno]. split; [exact Hin|].
    apply Bool.negb_true_iff.
    destruct (existsb _ _) eqn:Ex; [|reflexivity].
    exfalso. apply existsb_exists in Ex. destruct Ex as [p [Hp Hm]].
    apply P in Hp. destruct Hp as [e [He [Hs Ht]]].
    apply (Hno e p He Hs Ht). now apply K.
Qed.

Lemma roots_are_managers_without_manager_parent_witness :
  let tm := init two_level_project echo_factory name_tool_factory in
  In "managerA" (root_manager_ids (snd (build tm))).
Proof.
  intros tm.
  assert (B : build tm =
              (Ok {| s_agents := 1; s_team_managers := 1; s_tools := 0;
                     s_director := true |}, snd (build tm))).
  { vm_compute. reflexivity. }
  apply (@roots_are_managers_without_manager_parent two_level_project
           echo_factory name_tool_factory _ _ "managerA" B).
  split; [vm_compute; auto|].
  intros e src [He|[He|[]]] Hs Ht; subst e; try discriminate.
  inversion Hs; subst src. vm_compute. intros [H|[]]. discriminate.
Defined.

(** * The evaluation runner *)

(** ** Collecting the response text *)

Lemma plain_text_shaped : forall raw, plain_event raw -> text_shaped raw.
Proof.
  intros raw [[m H]|[[s H]|[[tc H]|[m H]]]]; subst raw; intros Ht.
  - discriminate Ht.
  - exists s. reflexivity.
  - discriminate Ht.
  - discriminate Ht.
Qed.

Lemma attach_text_shaped : forall tm raw i l,
  text_shaped raw -> text_shaped (_attach_context tm raw i l).
Proof.
  intros tm raw i l H Ht. unfold is_text in Ht.
  rewrite attach_other_keys in Ht by discriminate.
  rewrite attach_other_keys by discriminate. apply H. exact Ht.
Qed.

Lemma forwarded_text_shaped : forall e parent,
  text_shaped e -> text_shaped (_append_parent_context e parent).
Proof.
  intros e parent H Ht. unfold is_text in Ht.
  destruct (forwarded_keeps e parent) as [K1 [K2 _]].
  rewrite K1 in Ht. rewrite K2. apply H. exact Ht.
Qed.

Lemma update_events_plain : forall update ev,
  In ev (update_events update) -> plain_event ev.
Proof.
  intros update ev H. unfold update_events in H. unfold plain_event.
  apply in_app_or in H. destruct H as [H|H].
  - destruct (u_delta update) as [delta|]; [|contradiction].
    destruct (truthy delta); [|contradiction].
    destruct H as [H|[]]. subst. right; left. eauto.
  - apply in_app_or in H. destruct H as [H|H].
    + destruct (u_tool_calls update) as [tcs|]; [|contradiction].
      apply in_map_iff in H. destruct H as [tc [H _]]. subst.
      right; right; left. eauto.
    + destruct (u_delta update); [contradiction|].
      destruct (u_tool_calls update); [contradiction|].
      destruct H as [H|[]]. subst. right; left. eauto.
Qed.

Lemma _run_agent_stream_plain : forall agent message ev,
  In ev (fst (_run_agent_stream agent message)) -> plain_event ev.
Proof.
  intros agent message ev. unfold _run_agent_stream.
  assert (U : forall updates, In ev (flat_map update_events updates) ->
                              plain_event ev).
  { intros updates H. apply in_flat_map in H. destruct H as [u [_ H]].
    eapply update_events_plain; eauto. }
  destruct (agent message) as [updates [e|]]; simpl; intros H;
    [|exact (U _ H)].
  apply in_app_or in H. destruct H as [H|[H|[]]]; [exact (U _ H)|].
  subst. unfold plain_event. right; right; right. eauto.
Qed.

Lemma run_unit_text_shaped : forall tm message u sch e,
  In e (fst (run_unit tm message u sch)) -> text_shaped e.
Proof.
  intros tm message u. induction u as [n i l a|n i l k s cs IH]
    using unit_nested_ind; intros sch e H.
  - cbn [run_unit] in H.
    rewrite for_each_done in H by apply _run_agent_stream_done.
    cbn [yield_then fst app] in H.
    assert (N : forall m, text_shaped (_attach_context tm (notice m) i l)).
    { intros m. apply attach_text_shaped. apply plain_text_shaped.
      left. eauto. }
    destruct H as [H|H]; [subst; apply N|].
    apply in_app_or in H. destruct H as [H|[H|[]]]; [|subst; apply N].
    apply in_map_iff in H. destruct H as [raw [Hraw Hin]]. subst e.
    apply attach_text_shaped. apply plain_text_shaped.
    eapply _run_agent_stream_plain; eauto.
  - apply manager_unit_sources in H.
    destruct H as [[t [d [Ht He]]]|[c [sub [ev [Hc [Hev He]]]]]]; subst e.
    + intros Htext. unfold is_text in Htext.
      rewrite attach_other_keys in Htext by discriminate.
      destruct Ht as [Ht|[Ht|[]]]; subst t; discriminate Htext.
    + apply forwarded_text_shaped. rewrite Forall_forall in IH.
      eapply IH; eauto.
Qed.

Lemma run_in_turn_In : forall streams e,
  In e (fst (run_in_turn streams)) -> exists s, In s streams /\ In e (fst s).
Proof.
  induction streams as [|s r IH]; intros e H; [contradiction|].
  cbn [run_in_turn] in H. unfold for_each in H.
  destruct (snd s); cbn [fst] in H.
  - apply in_app_or in H. destruct H as [H|H].
    + rewrite map_id in H. exists s. split; [now left|exact H].
    + destruct (IH _ H) as [s' [H1 H2]]. exists s'. split; [now right|auto].
  - rewrite map_id in H. exists s. split; [now left|exact H].
  - rewrite map_id in H. exists s. split; [now left|exact H].
Qed.

Lemma dispatch_text_shaped : forall tm message target sch e,
  In e (fst (dispatch tm message target sch)) -> text_shaped e.
Proof.
  intros tm message target sch e H. unfold dispatch in H.
  assert (Pn : forall m, text_shaped (notice m)).
  { intros m. apply plain_text_shaped. left. eauto. }
  assert (Pe : forall m, text_shaped (error_event m)).
  { intros m. apply plain_text_shaped. right; right; right. eauto. }
  destruct (String.eqb target "team").
  - cbn [yield_then fst app] in H. destruct H as [H|H]; [subst; apply Pn|].
    destruct (director_unit tm) as [d|].
    + eapply run_unit_text_shaped; eauto.
    + assert (W : forall x, In x (fst (_run_without_director tm message sch))
                            -> text_shaped x).
      { intros x Hx. unfold _run_without_director in Hx.
        apply run_in_turn_In in Hx. destruct Hx as [s [Hs Hx]].
        apply map_sched_In in Hs. destruct Hs as [u [sub [_ Hs]]]. subst s.
        eapply run_unit_text_shaped; eauto. }
      destruct (fst (_run_without_director tm message sch)) as [|x xs] eqn:Ex.
      * destruct (snd (_run_without_director tm message sch)).
        -- destruct H as [H|[]]. subst. apply Pe.
        -- rewrite Ex in H. contradiction.
        -- rewrite Ex in H. contradiction.
      * rewrite Ex in H. apply W. exact H.
  - destruct (dict_get target (execution_units tm)) as [u|].
    + eapply run_unit_text_shaped; eauto.
    + destruct H as [H|[]]. subst. apply Pe.
Qed.

Lemma final_text_total : forall events,
  Forall text_shaped events -> exists text, final_text events = inr text.
Proof.
  unfold final_text. induction 1 as [|e r He _ IH]; [exists ""%string; reflexivity|].
  cbn [text_parts]. destruct IH as [text IH].
  destruct (is_text e) eqn:Et; [|eauto].
  destruct (He Et) as [s Hs]. rewrite Hs.
  destruct (text_parts r) as [err|parts]; [discriminate IH|].
  cbn [dict_get String.eqb Ascii.eqb Bool.eqb join_parts].
  rewrite IH. eauto.
Qed.

Lemma built_run_stream : forall tm message target sch,
  _built tm = true ->
  run_stream tm message target sch =
    ((starting_notice :: fst (dispatch tm message target sch)
        ++ [complete_notice], Done), tm).
Proof.
  intros tm message target sch Hb. unfold run_stream. rewrite Hb.
  rewrite for_each_done by apply dispatch_done.
  rewrite map_id. reflexivity.
Qed.

Lemma _collect_response_final_text : forall tm prompt target sch,
  _built tm = true ->
  _collect_response tm prompt target sch =
    (match final_text (fst (fst (run_stream tm prompt target sch))) with
     | inl err => CollectTextError err
     | inr text =>
         Collected text (fst (fst (run_stream tm prompt target sch)))
     end, tm).
Proof.
  intros tm prompt target sch Hb. unfold _collect_response, final_text.
  rewrite (@built_run_stream tm prompt target sch Hb). cbn [fst snd].
  destruct (text_parts _) as [err|parts]; [reflexivity|].
  destruct (join_parts parts); reflexivity.
Qed.

Lemma run_stream_text_shaped : forall tm prompt target sch,
  _built tm = true ->
  Forall text_shaped (fst (fst (run_stream tm prompt target sch))).
Proof.
  intros tm prompt target sch Hb.
  rewrite (@built_run_stream tm prompt target sch Hb). cbn [fst].
  assert (Pn : forall m, text_shaped (notice m)).
  { intros m. apply plain_text_shaped. left. eauto. }
  constructor; [apply Pn|]. apply Forall_app. split.
  - apply Forall_forall. intros e He. eapply dispatch_text_shaped; eauto.
  - constructor; [apply Pn|constructor].
Qed.

(** X14.  Once the hierarchy is built, collecting a response cannot fail:
    the stream ends normally, every text event carries a string delta in a
    data dictionary, so [_collect_response] returns a text together with
    all events of the stream, whatever the target is and whatever the
    agents do. *)
Theorem collect_response_returns :
  forall tm prompt target sch,
    _built tm = true ->
    exists text,
      _collect_response tm prompt target sch =
        (Collected text (fst (fst (run_stream tm prompt target sch))), tm).
Proof.
  intros tm prompt target sch Hb.
  rewrite (@_collect_response_final_text tm prompt target sch Hb).
  destruct (final_text_total (@run_stream_text_shaped tm prompt target sch Hb))
    as [text Ht].
  rewrite Ht. exists text. reflexivity.
Qed.

Lemma collect_response_returns_witness :
  let tm := snd (build (init two_level_project echo_factory
                             name_tool_factory)) in
  exists text,
    _collect_response tm "hi" "team" idle =
      (Collected text (fst (fst (run_stream tm "hi" "team" idle))), tm).
Proof.
  intros tm. apply collect_response_returns. vm_compute. reflexivity.
Defined.

Lemma text_parts_app : forall l1 l2 p1,
  text_parts l1 = inr p1 ->
  text_parts (l1 ++ l2) =
  match text_parts l2 with
  | inl err => inl err
  | inr p2 => inr (p1 ++ p2)
  end.
Proof.
  induction l1 as [|e r IH]; intros l2 p1 H.
  - inversion H; subst. simpl. destruct (text_parts l2); reflexivity.
  - cbn [text_parts app] in *. destruct (is_text e).
    + destruct (dict_get "data" e) as [[| | |data]|]; try discriminate.
      destruct (text_parts r) as [err|pr]; [discriminate|].
      inversion H; subst. rewrite (IH l2 pr eq_refl).
      destruct (text_parts l2); reflexivity.
    + auto.
Qed.

Lemma join_parts_app : forall p1 p2 t1,
  join_parts p1 = inr t1 ->
  join_parts (p1 ++ p2) =
  match join_parts p2 with
  | inl err => inl err
  | inr t2 => inr (t1 ++ t2)%string
  end.
Proof.
  induction p1 as [|v r IH]; intros p2 t1 H.
  - inversion H; subst. simpl. destruct (join_parts p2); reflexivity.
  - cbn [join_parts app] in *. destruct v as [|s| |]; try discriminate.
    destruct (join_parts r) as [err|tr]; [discriminate|].
    inversion H; subst. rewrite (IH p2 tr eq_refl).
    destruct (join_parts p2); [reflexivity|].
    now rewrite append_assoc'.
Qed.

Lemma final_text_app : forall l1 l2 t1,
  final_text l1 = inr t1 ->
  final_text (l1 ++ l2) =
  match final_text l2 with
  | inl err => inl err
  | inr t2 => inr (t1 ++ t2)%string
  end.
Proof.
  unfold final_text. intros l1 l2 t1 H.
  destruct (text_parts l1) as [err|p1] eqn:E1; [discriminate|].
  rewrite (@text_parts_app l1 l2 p1 E1).
  destruct (text_parts l2) as [err|p2]; [reflexivity|].
  now apply join_parts_app.
Qed.












(** ** Assertions and scenarios *)

Lemma prefix_spec : forall a b,
  String.prefix a b = true <-> exists c, b = (a ++ c)%string.
Proof.
  induction a as [|x a IH]; intros b.
  - split; [intros _; exists b; reflexivity|].
    intros _. destruct b; reflexivity.
  - destruct b as [|y b]; simpl.
    + split; [discriminate|intros [c H]; discriminate].
    + destruct (Ascii.ascii_dec x y) as [->|Hne].
      * rewrite IH. split; intros [c H]; exists c; [now rewrite H|].
        now inversion H.
      * split; [discriminate|]. intros [c H]. inversion H. congruence.
Qed.

Lemma str_contains_spec : forall needle hay,
  str_contains needle hay = true <->
  exists a b, hay = (a ++ needle ++ b)%string.
Proof.
  intros needle. induction hay as [|c r IH].
  - cbn [str_contains]. destruct (String.prefix needle "") eqn:E.
    + split; [intros _|reflexivity].
      apply prefix_spec in E. destruct E as [b E]. exists ""%string, b. exact E.
    + split; [discriminate|]. intros [a [b H]].
      destruct a; [|discriminate].
      assert (P : String.prefix needle "" = true).
      { apply prefix_spec. exists b. exact H. }
      congruence.
  - cbn [str_contains]. destruct (String.prefix needle (String c r)) eqn:E.
    + split; [intros _|reflexivity].
      apply prefix_spec in E. destruct E as [b E]. exists ""%string, b. exact E.
    + rewrite IH. split.
      * intros [a [b H]]. exists (String c a), b. simpl. now rewrite H.
      * intros [a [b H]]. destruct a as [|x a].
        -- assert (P : String.prefix needle (String c r) = true).
           { apply prefix_spec. exists b. exact H. }
           congruence.
        -- simpl in H. inversion H. eauto.
Qed.

Lemma truthy_opt_spec : forall o s,
  truthy_opt o = Some s <-> o = Some s /\ s <> "".
Proof.
  intros [x|] s; simpl.
  - unfold truthy. destruct (String.eqb x "") eqn:E; simpl.
    + apply String.eqb_eq in E. subst x. split; [discriminate|].
      intros [H Hne]. inversion H; subst. contradiction.
    + apply String.eqb_neq in E. split.
      * intros H. inversion H; subst. auto.
      * intros [H _]. exact H.
  - split; [discriminate|intros [H _]; discriminate].
Qed.

Lemma assertion_failures_nil :
  forall (Any : Type) (str_of : Any -> string) strip text
         (a : ScenarioAssertion Any),
  assertion_failures str_of strip text a = [] <->
  assertion_holds str_of strip text a.
Proof.
  intros Any str_of strip text a. unfold assertion_failures, assertion_holds.
  set (description := if truthy (a_description a) then a_description a
                      else "assertion").
  assert (A : match a_equals a with
              | Some expected =>
                  if String.eqb (strip text) (strip (str_of expected))
                  then []
                  else [(description ++ ": expected exact match.")%string]
              | None => []
              end = [] <->
              (forall expected, a_equals a = Some expected ->
                                strip text = strip (str_of expected))).
  { destruct (a_equals a) as [expected|] eqn:Ea.
    - destruct (String.eqb _ _) eqn:E.
      + apply String.eqb_eq in E. split; [|reflexivity].
        intros _ x Hx. inversion Hx; subst. exact E.
      + apply String.eqb_neq in E. split; [discriminate|].
        intros H. exfalso. apply E. now apply H.
    - split; [intros _ x Hx; discriminate|reflexivity]. }
  assert (B : match truthy_opt (a_contains a) with
              | Some needle =>
                  if str_contains needle text then []
                  else [(description ++ ": expected substring '" ++ needle
                         ++ "'.")%string]
              | None => []
              end = [] <->
              (forall needle, a_contains a = Some needle -> needle <> "" ->
                 exists x y, text = (x ++ needle ++ y)%string)).
  { destruct (truthy_opt (a_contains a)) as [needle|] eqn:E.
    - apply truthy_opt_spec in E. destruct E as [E Hne].
      destruct (str_contains needle text) eqn:Ec.
      + apply str_contains_spec in Ec. split; [|reflexivity].
        intros _ n Hn _. assert (n = needle) by congruence. now subst n.
      + split; [discriminate|]. intros H. exfalso.
        assert (Hc : str_contains needle text = true).
        { apply str_contains_spec. now apply H. }
        congruence.
    - split; [|reflexivity]. intros _ n Hn Hne. exfalso.
      assert (Ht : truthy_opt (a_contains a) = Some n)
        by (apply truthy_opt_spec; auto).
      congruence. }
  assert (C : match truthy_opt (a_not_contains a) with
              | Some needle =>
                  if str_contains needle text then
                    [(description ++ ": forbidden substring '" ++ needle
                      ++ "' present.")%string]
                  else []
              | None => []
              end = [] <->
              (forall needle, a_not_contains a = Some needle -> needle <> "" ->
                 ~ exists x y, text = (x ++ needle ++ y)%string)).
  { destruct (truthy_opt (a_not_contains a)) as [needle|] eqn:E.
    - apply truthy_opt_spec in E. destruct E as [E Hne].
      destruct (str_contains needle text) eqn:Ec.
      + apply str_contains_spec in Ec. split; [discriminate|].
        intros H. exfalso. apply (H needle E Hne). exact Ec.
      + split; [|reflexivity]. intros _ n Hn _ Hex.
        assert (n = needle) by congruence. subst n.
        apply str_contains_spec in Hex. congruence.
    - split; [|reflexivity]. intros _ n Hn Hne. exfalso.
      assert (Ht : truthy_opt (a_not_contains a) = Some n)
        by (apply truthy_opt_spec; auto).
      congruence. }
  split.
  - intros H. apply app_eq_nil in H. destruct H as [H1 H].
    apply app_eq_nil in H. destruct H as [H2 H3].
    split; [now apply A|]. split; [now apply B|now apply C].
  - intros [H1 [H2 H3]].
    apply A in H1. apply B in H2. apply C in H3.
    now rewrite H1, H2, H3.
Qed.

Lemma _evaluate_assertions_nil :
  forall (Any : Type) (str_of : Any -> string) strip text
         (assertions : list (ScenarioAssertion Any)),
  _evaluate_assertions str_of strip text assertions = [] <->
  Forall (assertion_holds str_of strip text) assertions.
Proof.
  intros Any str_of strip text. unfold _evaluate_assertions.
  induction assertions as [|a r IH]; simpl.
  - split; [constructor|reflexivity].
  - split.
    + intros H. apply app_eq_nil in H. destruct H as [H1 H2].
      constructor; [now apply assertion_failures_nil|now apply IH].
    + intros H. inversion H; subst.
      apply assertion_failures_nil in H2. apply IH in H3.
      now rewrite H2, H3.
Qed.

(** X16.  [_evaluate_assertions] reports no failure exactly when every
    assertion holds for the text: an [equals] that is not [None] matches
    the text after stripping both, a non-empty [contains] occurs in the
    text, a non-empty [not_contains] does not.  Empty or missing
    [contains] and [not_contains] are not checked.  The failures of a list
    of assertions are those of its parts, in order: each assertion is
    judged on its own. *)
Theorem evaluation_reports_what_fails :
  forall (Any : Type) (str_of : Any -> string) strip text
         (assertions more : list (ScenarioAssertion Any)),
    (_evaluate_assertions str_of strip text assertions = [] <->
     Forall (assertion_holds str_of strip text) assertions) /\
    _evaluate_assertions str_of strip text (assertions ++ more) =
      _evaluate_assertions str_of strip text assertions
      ++ _evaluate_assertions str_of strip text more.
Proof.
  intros Any str_of strip text assertions more. split.
  - apply _evaluate_assertions_nil.
  - unfold _evaluate_assertions. apply flat_map_app.
Qed.

Lemma build_ok_built : forall tm s tm',
  build tm = (Ok s, tm') -> _built tm' = true.
Proof.
  intros tm s tm' B. unfold build in B.
  destruct (_built tm) eqn:Eb; [now inversion B; subst|].
  cbv zeta in B.
  destruct (build_managers _ _) as [[o|e|] tm3]; try discriminate.
  destruct (_build_director_unit _) as [[d|e|] tm5]; try discriminate.
  inversion B. reflexivity.
Qed.

(** X17.  What [run_scenario] answers.  A scenario without messages is
    refused with status 400 before anything is built.  Otherwise, for a
    project without settings the constructor of [TeamManager] raises an
    [AttributeError] (the dumped project holds [None] under "settings") and
    the exception leaves [run_scenario]; so does an exception of [build],
    which is run on the dumped graph, where every node holds the key
    "strategy".  And when [build] returns, [run_scenario] returns a result:
    its response is the text collected from the run on the last message of
    the scenario, the transcript is the messages followed by that text as
    the assistant's, and [passed] is true exactly when every assertion
    holds for the response. *)
Theorem run_scenario_outcome :
  forall (Any : Type) (str_of : Any -> string) strip
         (project : ProjectModel) af tf
         (scenario : EvaluationScenario Any) sch,
    let outcome := run_scenario str_of strip project af tf scenario sch in
    match sc_messages scenario with
    | [] =>
        outcome =
          HTTPException 400 "Scenario requires at least one user message."
    | first :: others =>
        match pm_settings project with
        | None =>
            outcome =
              ScenarioRaised
                (AttributeError "'NoneType' object has no attribute 'get'")
        | Some settings =>
            match build (init {| p_nodes := map dump_node (pm_nodes project);
                                 p_edges := map dump_edge (pm_edges project);
                                 p_settings := settings |} af tf) with
            | (Raise e, _) => outcome = ScenarioRaised e
            | (OutOfFuel, _) => False
            | (Ok _, tm) =>
                exists r,
                  outcome = ScenarioResult r /\
                  fst (_collect_response tm (m_content (last others first))
                         (if truthy (sc_target_agent scenario)
                          then sc_target_agent scenario else "team") sch)
                    = Collected (r_response r) (r_events r) /\
                  r_transcript r =
                    sc_messages scenario
                    ++ [{| m_role := "assistant";
                           m_content := r_response r |}] /\
                  (r_passed r = true <->
                   Forall (assertion_holds str_of strip (r_response r))
                          (sc_assertions scenario))
            end
        end
    end.
Proof.
  intros Any str_of strip project af tf scenario sch outcome.
  unfold outcome, run_scenario, new_TeamManager, model_dump.
  cbn [dump_settings dump_nodes dump_edges].
  destruct (sc_messages scenario) as [|first others] eqn:Em; [reflexivity|].
  destruct (pm_settings project) as [settings|]; [|reflexivity].
  set (dumped := {| p_nodes := map dump_node (pm_nodes project);
                    p_edges := map dump_edge (pm_edges project);
                    p_settings := settings |}).
  pose proof (@build_total (init dumped af tf) (init_graph_ok dumped af tf))
    as T.
  destruct (build (init dumped af tf)) as [[s|e|] tm] eqn:B.
  - pose proof (build_ok_built _ B) as Hb.
    rewrite (@_collect_response_final_text tm (m_content (last others first))
               (if truthy (sc_target_agent scenario)
                then sc_target_agent scenario else "team") sch Hb).
    destruct (final_text_total
                (@run_stream_text_shaped tm (m_content (last others first))
                   (if truthy (sc_target_agent scenario)
                    then sc_target_agent scenario else "team") sch Hb))
      as [text Hc].
    rewrite Hc. cbn [fst]. eexists. split; [reflexivity|].
    cbn [r_response r_events r_transcript r_passed].
    split; [reflexivity|]. split; [reflexivity|].
    rewrite <- _evaluate_assertions_nil.
    destruct (_evaluate_assertions str_of strip text (sc_assertions scenario));
      simpl; split; auto; discriminate.
  - reflexivity.
  - apply T. reflexivity.
Qed.

(** * A strategy that is [None] *)

(** X18.  A teamManager node whose data holds [None] under "strategy" (the
    key is present, as in a dumped model with an unset field) makes [build]
    fail: [build] raises, either the [AttributeError] of
    [data.get("strategy", "sequential").lower()] or, when the graph also
    has a manager cycle that is met first, the cycle error.  It never
    returns a summary. *)
Theorem none_strategy_fails_build :
  forall project af tf m node,
    let tm := init project af tf in
    dict_get m (nodes tm) = Some node ->
    n_kind node = "teamManager" ->
    d_strategy (n_data node) = Some None ->
    exists e tm',
      build tm = (Raise e, tm') /\
      ((exists msg, e = AttributeError msg) \/
       (exists path, e = ValueError (cycle_message path))).
Proof.
  intros project af tf m node tm Hm Hk Hs.
  destruct (agents_phase project af tf) as [G2 [T2 [M2 [S2 A2]]]].
  fold tm in G2, T2, M2, S2, A2.
  unfold build. change (_built tm) with false. cbv zeta.
  set (tm2 := build_agents (_build_tools tm)) in *.
  assert (Hor2 : forall k,
            or_node (dict_get k (manager_nodes tm2)) (dict_get k (nodes tm2))
            = dict_get k (nodes tm2)).
  { intros k. rewrite (graph_nodes G2), (graph_manager_nodes G2).
    apply init_or_node. }
  assert (Mi2 : mirrored tm2 tm2).
  { intros k u H. rewrite M2 in H. discriminate. }
  destruct (build_managers (manager_node_ids tm2) tm2) as [r tm3] eqn:E3.
  assert (P : ensure_post tm (fun _ _ => False)
            (fun tm' => forall k, In k (manager_node_ids tm2) ->
                        dict_get k (nodes tm) <> None ->
                        In k (dict_keys (manager_units tm')))
            [] tm2 r [] tm3).
  { eapply build_managers_spec; eauto.
    - apply init_graph_ok.
    - intros a b [].
    - apply children_first_none. }
  destruct P as [_ [_ P]].
  destruct r as [o|e|]; [exfalso| |contradiction].
  - destruct (@build_managers_mirror tm2 S2 Hor2 _ _ _ _
                (agents_fixed_refl tm2) Mi2 E3) as [_ [Mi3 [_ Hall]]].
    assert (Hin : dict_get m (manager_units tm3) <> None).
    { apply Hall.
      - rewrite (graph_manager_node_ids G2). eapply init_manager_ids; eauto.
      - rewrite (graph_nodes G2). fold tm. congruence. }
    destruct (dict_get m (manager_units tm3)) as [u|] eqn:Eu;
      [|contradiction].
    destruct (Mi3 _ _ Eu) as [[node' [Hn Hu]] _].
    rewrite (graph_nodes G2) in Hn. fold tm in Hn. rewrite Hm in Hn.
    inversion Hn; subst node'.
    unfold ManagerUnit in Hu. rewrite Hs in Hu. discriminate.
  - exists e, tm3. split; [reflexivity|].
    destruct P as [[path [c [cyc [He _]]]]|[Hmsg _]]; [right|left]; eauto.
Qed.

Lemma none_strategy_fails_build_witness :
  exists e tm',
    build (init {| p_nodes :=
                     [{| n_id := "m"; n_kind := "teamManager";
                         n_name := None;
                         n_data := {| d_label := None; d_name := None;
                                      d_strategy := Some None |} |}];
                   p_edges := []; p_settings := no_settings |}
                echo_factory name_tool_factory) = (Raise e, tm') /\
    ((exists msg, e = AttributeError msg) \/
     (exists path, e = ValueError (cycle_message path))).
Proof.
  apply (@none_strategy_fails_build _ echo_factory name_tool_factory "m"
           {| n_id := "m"; n_kind := "teamManager"; n_name := None;
              n_data := {| d_label := None; d_name := None;
                           d_strategy := Some None |} |});
    reflexivity.
Defined.
